(** * Paw: semantic-memory integration (SemanticMemoryIntegration.ts)

    A shallow embedding of the memory synchronisation and enrichment
    pipeline: the sanitizer [cleanMessageContent] with the regular expressions
    it is written with, the availability probe, the two remote operations, the
    enrichment and storage event handlers and the history synchronizer
    [syncHistory] with its cursor [lastStoredMessageIndex].

    Two revisions of the class are modelled.  The one under src/integrations
    stores every exchange from the storage handler; the later one adds
    [syncHistory] and the cursor, and changes the storage handler, the store
    operation and the format of a recalled memory.  What the later revision
    changes carries the suffix [_sync] here; everything else is shared by
    both.  (A third, older revision has no sanitizer and is left out.)

    Remote calls are awaited one after the other, so an operation is a
    function of the state of the instance and of the host's answers; two
    operations never run interleaved here. *)

From Stdlib Require Import List NArith ZArith Bool Arith Lia String Ascii.
From Stdlib Require Import DecimalString.
Import ListNotations.

(* ===================================================================== *)
(** ** JavaScript strings and the regular expressions of the source       *)
(* ===================================================================== *)

Module JS.

(** A JavaScript string is a sequence of UTF-16 code units.  None of the
    regular expressions of the source carries the [u] flag, so they work on
    code units too. *)
Definition char := N.
Definition jsstring := list char.

(** Literals of the source text are written as Rocq strings. *)
Definition lit (s : string) : jsstring :=
  map N_of_ascii (list_ascii_of_string s).

Definition nl : char := 10%N.          (* "\n" *)
Definition lt_sign : char := 60%N.     (* "<" *)
Definition gt_sign : char := 62%N.     (* ">" *)

Definition str_eqb (a b : jsstring) : bool :=
  if list_eq_dec N.eq_dec a b then true else false.

(** [!text]: the empty string is the only falsy string. *)
Definition is_empty (s : jsstring) : bool :=
  match s with [] => true | _ => false end.

(** [a || b] on strings. *)
Definition or_else (a b : jsstring) : jsstring :=
  if is_empty a then b else a.

(** [parts.join(sep)]. *)
Fixpoint join (sep : jsstring) (parts : list jsstring) : jsstring :=
  match parts with
  | [] => []
  | [p] => p
  | p :: rest => p ++ sep ++ join sep rest
  end.

(** [s.startsWith(l)], and what is left of [s] behind the prefix [l]. *)
Fixpoint strip_prefix (l s : jsstring) : option jsstring :=
  match l with
  | [] => Some s
  | a :: l' =>
      match s with
      | [] => None
      | c :: s' => if N.eqb a c then strip_prefix l' s' else None
      end
  end.

Definition startsWith (s l : jsstring) : bool :=
  match strip_prefix l s with Some _ => true | None => false end.

(** [s.includes(l)]. *)
Fixpoint includes (s l : jsstring) : bool :=
  startsWith s l ||
  match s with
  | [] => false
  | _ :: s' => includes s' l
  end.

(** The class [\s] of a regular expression, which is also what [trim]
    strips: WhiteSpace and LineTerminator code units. *)
Definition is_space (c : char) : bool :=
  ((9 <=? c) && (c <=? 13) || (c =? 32) || (c =? 160) || (c =? 5760)
   || (8192 <=? c) && (c <=? 8202) || (c =? 8232) || (c =? 8233)
   || (c =? 8239) || (c =? 8287) || (c =? 12288) || (c =? 65279))%N.

(** [[a-zA-Z0-9_:]] *)
Definition is_name_char (c : char) : bool :=
  ((97 <=? c) && (c <=? 122) || (65 <=? c) && (c <=? 90)
   || (48 <=? c) && (c <=? 57) || (c =? 95) || (c =? 58))%N.

(** [[\s\S]] *)
Definition any_char (c : char) : bool := true.

(** [[^>]] *)
Definition not_gt (c : char) : bool := negb (c =? gt_sign)%N.

(** [[/!]] *)
Definition slash_or_bang (c : char) : bool := ((c =? 47) || (c =? 33))%N.

(** [s.trim()] *)
Fixpoint trimStart (s : jsstring) : jsstring :=
  match s with
  | [] => []
  | c :: s' => if is_space c then trimStart s' else s
  end.

Fixpoint trimEnd (s : jsstring) : jsstring :=
  match s with
  | [] => []
  | c :: s' => if forallb is_space s then [] else c :: trimEnd s'
  end.

Definition trim (s : jsstring) : jsstring := trimEnd (trimStart s).

(** The regular expressions of the source use literals, character classes,
    sequencing, a greedy optional group, and greedy and lazy repetition of a
    character class.  Capture groups are never referred to and are left
    out. *)
Inductive regex : Type :=
| RLit (l : jsstring)            (* literal text *)
| RSet (p : char -> bool)        (* one code unit of a class *)
| RSeq (r1 r2 : regex)           (* r1 r2 *)
| ROpt (r : regex)               (* (?:r)?   greedy *)
| RStar (p : char -> bool)       (* [p]*     greedy *)
| RPlus (p : char -> bool)       (* [p]+     greedy *)
| RLazy (p : char -> bool).      (* [p]*?    lazy *)

(** Backtracking matcher in continuation-passing style: [k] is tried on
    what is left of the input, and alternatives are explored in the priority
    order of ECMAScript (greedy: longest first; lazy: shortest first).  The
    result is the input left behind the whole match. *)
Fixpoint star_greedy (p : char -> bool) (k : jsstring -> option jsstring)
    (s : jsstring) : option jsstring :=
  match s with
  | c :: s' =>
      if p c then
        match star_greedy p k s' with
        | Some r => Some r
        | None => k s
        end
      else k s
  | [] => k s
  end.

Fixpoint star_lazy (p : char -> bool) (k : jsstring -> option jsstring)
    (s : jsstring) : option jsstring :=
  match k s with
  | Some r => Some r
  | None =>
      match s with
      | c :: s' => if p c then star_lazy p k s' else None
      | [] => None
      end
  end.

Fixpoint rmatch (r : regex) (s : jsstring)
    (k : jsstring -> option jsstring) : option jsstring :=
  match r with
  | RLit l =>
      match strip_prefix l s with
      | Some s' => k s'
      | None => None
      end
  | RSet p =>
      match s with
      | c :: s' => if p c then k s' else None
      | [] => None
      end
  | RSeq r1 r2 => rmatch r1 s (fun s' => rmatch r2 s' k)
  | ROpt r1 =>
      match rmatch r1 s k with
      | Some r => Some r
      | None => k s
      end
  | RStar p => star_greedy p k s
  | RPlus p =>
      match s with
      | c :: s' => if p c then star_greedy p k s' else None
      | [] => None
      end
  | RLazy p => star_lazy p k s
  end.

(** A match attempt at the start of [s]: the input behind the match. *)
Definition exec (r : regex) (s : jsstring) : option jsstring :=
  rmatch r s Some.

Definition match_length (r : regex) (s : jsstring) : option nat :=
  match exec r s with
  | Some rest => Some (List.length s - List.length rest)
  | None => None
  end.

(** [s.replace(/r/g, rep)] for a replacement text without [$] patterns:
    matches are looked for from left to right, each search starting where
    the previous match ended (one code unit further after an empty match).
    [skip] counts the code units of the current match still to be dropped. *)
Fixpoint replace_from (r : regex) (rep : jsstring) (s : jsstring)
    (skip : nat) : jsstring :=
  match s with
  | [] =>
      match skip with
      | O => match match_length r [] with Some _ => rep | None => [] end
      | S _ => []
      end
  | c :: s' =>
      match skip with
      | S n => replace_from r rep s' n
      | O =>
          match match_length r s with
          | Some (S n) => rep ++ replace_from r rep s' n
          | Some O => rep ++ c :: replace_from r rep s' 0
          | None => c :: replace_from r rep s' 0
          end
      end
  end.

Definition replace (r : regex) (rep : jsstring) (s : jsstring) : jsstring :=
  replace_from r rep s 0.

(** [`${n}`] for a natural number. *)
Definition decimal (n : nat) : jsstring :=
  lit (NilZero.string_of_uint (Nat.to_uint n)).

End JS.

Import JS.

(* ===================================================================== *)
(** ** The sanitizer: cleanMessageContent                                 *)
(* ===================================================================== *)

(** [opening[\s\S]*?closing\n?] *)
Definition delimited (opening closing : jsstring) : regex :=
  RSeq (RLit opening)
    (RSeq (RLazy any_char) (RSeq (RLit closing) (ROpt (RLit [nl])))).

(** [<environment_details>[\s\S]*?<\/environment_details>\n?] *)
Definition environment_details_regex : regex :=
  delimited (lit "<environment_details>") (lit "</environment_details>").

Definition recall_open : jsstring := lit "[Recalled Memories]".
Definition recall_close : jsstring := lit "[/Recalled Memories]".

(** [\[Recalled Memories\][\s\S]*?\[\/Recalled Memories\]\n?] *)
Definition recalled_memories_regex : regex := delimited recall_open recall_close.

(** [<<<<<<< SEARCH[\s\S]*?>>>>>>> REPLACE\n?] *)
Definition diff_regex : regex :=
  delimited (lit "<<<<<<< SEARCH") (lit ">>>>>>> REPLACE").

(** [<${tagName}(?:\s+[^>]* )?>]   (the space before the parenthesis is not in the source) *)
Definition openTagRegex (tagName : jsstring) : regex :=
  RSeq (RLit (lt_sign :: tagName))
    (RSeq (ROpt (RSeq (RPlus is_space) (RStar not_gt))) (RLit [gt_sign])).

(** [</${tagName}>] *)
Definition closeTagRegex (tagName : jsstring) : regex :=
  RLit (lit "</" ++ tagName ++ [gt_sign]).

(** [<${tagName}(?:\s+[^>]* )?>[\s\S]*?<\/${tagName}>\n?] *)
Definition blockRegex (tagName : jsstring) : regex :=
  RSeq (RLit (lt_sign :: tagName))
    (RSeq (ROpt (RSeq (RPlus is_space) (RStar not_gt)))
       (RSeq (RLit [gt_sign])
          (RSeq (RLazy any_char)
             (RSeq (RLit (lit "</" ++ tagName ++ [gt_sign])) (ROpt (RLit [nl])))))).

(** [<([a-zA-Z0-9_:]+)\s*\/>] *)
Definition self_closing_regex : regex :=
  RSeq (RLit [lt_sign])
    (RSeq (RPlus is_name_char) (RSeq (RStar is_space) (RLit (lit "/>")))).

(** [<[/!]?[a-zA-Z0-9_:]+[^>]*>] *)
Definition any_tag_regex : regex :=
  RSeq (RLit [lt_sign])
    (RSeq (ROpt (RSet slash_or_bang))
       (RSeq (RPlus is_name_char) (RSeq (RStar not_gt) (RLit [gt_sign])))).

(** [\n\s*\n] *)
Definition blank_lines_regex : regex :=
  RSeq (RLit [nl]) (RSeq (RStar is_space) (RLit [nl])).

Definition blockToolTags : list jsstring :=
  map lit ["ask_followup_question"; "attempt_completion"]%string.

Definition toolTagsToRemove : list jsstring :=
  map lit
    ["read_file"; "apply_diff"; "search_files"; "list_files"; "write_to_file";
     "insert_content"; "search_and_replace"; "execute_command"; "use_mcp_tool";
     "access_mcp_resource"; "switch_mode"; "new_task"; "fetch_instructions";
     "args"; "file"; "path"; "content"; "diff"; "query"; "mode"; "message";
     "result"; "command"; "server_name"; "tool_name"; "arguments"; "uri";
     "task"]%string.

(** The steps of [cleanMessageContent], in the order of the source. *)
Definition strip_environment_details (t : jsstring) : jsstring :=
  replace environment_details_regex [] t.

Definition strip_recalled_memories (t : jsstring) : jsstring :=
  replace recalled_memories_regex [] t.

Definition strip_diff_blocks (t : jsstring) : jsstring :=
  replace diff_regex [] t.

Definition strip_tool_blocks (t : jsstring) : jsstring :=
  fold_left (fun acc tagName => replace (blockRegex tagName) [] acc)
    blockToolTags t.

Definition strip_self_closing (t : jsstring) : jsstring :=
  replace self_closing_regex [] t.

Definition strip_tool_tags (t : jsstring) : jsstring :=
  fold_left
    (fun acc tagName =>
       replace (closeTagRegex tagName) []
         (replace (openTagRegex tagName) [] acc))
    toolTagsToRemove t.

Definition strip_any_tag (t : jsstring) : jsstring :=
  replace any_tag_regex [] t.

Definition collapse_blank_lines (t : jsstring) : jsstring :=
  replace blank_lines_regex [nl; nl] t.

(** Steps 2 to the end, on the text left by the first two steps. *)
Definition clean_after_recall (t : jsstring) : jsstring :=
  trim
    (collapse_blank_lines
       (strip_any_tag
          (strip_tool_tags
             (strip_self_closing (strip_tool_blocks (strip_diff_blocks t)))))).

Definition cleanMessageContent (text : jsstring) : jsstring :=
  if is_empty text then []
  else clean_after_recall
         (strip_recalled_memories (strip_environment_details text)).

Example clean_tags :
  cleanMessageContent
    (lit "<read_file><path>a.ts</path></read_file>" ++ [nl; nl; nl] ++ lit " ok ")
  = lit "a.ts" ++ [nl; nl] ++ lit " ok".
Proof. vm_compute. reflexivity. Qed.

(* ===================================================================== *)
(** ** Facts about strings, matching and replacement                      *)
(* ===================================================================== *)

Lemma strip_prefix_app (l s : jsstring) : strip_prefix l (l ++ s) = Some s.
Proof.
  induction l as [|a l IH]; simpl; [reflexivity|].
  rewrite N.eqb_refl. exact IH.
Qed.

Lemma strip_prefix_Some (l s r : jsstring) :
  strip_prefix l s = Some r -> s = l ++ r.
Proof.
  revert s. induction l as [|a l IH]; intros s H; simpl in *.
  - congruence.
  - destruct s as [|c s]; [discriminate|].
    destruct (N.eqb_spec a c) as [->|]; [|discriminate].
    f_equal. apply IH. exact H.
Qed.

Lemma startsWith_app (l s : jsstring) : startsWith (l ++ s) l = true.
Proof. unfold startsWith. rewrite strip_prefix_app. reflexivity. Qed.

(** A prefix that does not contain [c] ends before an occurrence of [c]. *)
Lemma strip_prefix_before (l b x : jsstring) (c : char) :
  ~ In c l ->
  strip_prefix l (b ++ c :: x) <> None ->
  strip_prefix l b <> None.
Proof.
  revert b. induction l as [|a l IH]; intros b Hc H; simpl in *.
  - discriminate.
  - destruct b as [|d b]; simpl in *.
    + destruct (N.eqb_spec a c) as [->|]; [|congruence].
      exfalso. apply Hc. left. reflexivity.
    + destruct (a =? d)%N; [|congruence].
      apply IH; [tauto | exact H].
Qed.

Lemma includes_cons (c : char) (s l : jsstring) :
  includes (c :: s) l = false ->
  startsWith (c :: s) l = false /\ includes s l = false.
Proof.
  simpl. intros H. apply orb_false_iff in H. exact H.
Qed.

Lemma includes_startsWith (s l : jsstring) :
  includes s l = false -> startsWith s l = false.
Proof.
  destruct s; simpl; intros H; apply orb_false_iff in H; tauto.
Qed.

Lemma includes_skipn (s l : jsstring) (n : nat) :
  includes s l = false -> includes (skipn n s) l = false.
Proof.
  revert s. induction n as [|n IH]; intros s H; [exact H|].
  destruct s as [|c s]; [exact H|].
  simpl skipn. apply IH. apply (includes_cons _ _ _ H).
Qed.

(** Inserting text that holds no code unit of [l] behind [a] creates an
    occurrence of [l] only if [l] starts in the inserted text or behind. *)
Lemma includes_app_sep (a x l : jsstring) (c : char) :
  ~ In c l -> l <> [] ->
  includes a l = false ->
  includes (c :: x) l = false ->
  includes (a ++ c :: x) l = false.
Proof.
  intros Hc Hl. induction a as [|d a IH]; intros Ha Hx; simpl app.
  - exact Hx.
  - apply includes_cons in Ha. destruct Ha as [Hs Ha].
    change (startsWith (d :: a ++ c :: x) l || includes (a ++ c :: x) l = false).
    rewrite (IH Ha Hx), orb_false_r.
    unfold startsWith in *.
    destruct (strip_prefix l (d :: a ++ c :: x)) eqn:E; [|reflexivity].
    exfalso.
    assert (H : strip_prefix l ((d :: a) ++ c :: x) <> None)
      by (simpl; congruence).
    apply strip_prefix_before in H; [|exact Hc].
    destruct (strip_prefix l (d :: a)); congruence.
Qed.

(** *** The match leaves a suffix of the input *)

Definition gives_suffix (k : jsstring -> option jsstring) : Prop :=
  forall s r, k s = Some r -> exists m, s = m ++ r.

Lemma gives_suffix_Some : gives_suffix Some.
Proof. intros s r H. exists []. simpl. congruence. Qed.

Lemma star_greedy_suffix (p : char -> bool) k :
  gives_suffix k -> gives_suffix (star_greedy p k).
Proof.
  intros Hk s. induction s as [|c s IH]; intros r H; simpl in H.
  - apply Hk. exact H.
  - destruct (p c); [|apply Hk; exact H].
    destruct (star_greedy p k s) as [r'|] eqn:E.
    + injection H as ->. destruct (IH r eq_refl) as [m ->].
      exists (c :: m). reflexivity.
    + apply Hk. exact H.
Qed.

Lemma star_lazy_suffix (p : char -> bool) k :
  gives_suffix k -> gives_suffix (star_lazy p k).
Proof.
  intros Hk s. induction s as [|c s IH]; intros r H; simpl in H.
  - destruct (k []) eqn:E; [|discriminate].
    injection H as ->. apply Hk. exact E.
  - destruct (k (c :: s)) eqn:E.
    + injection H as ->. apply Hk. exact E.
    + destruct (p c); [|discriminate].
      destruct (IH r H) as [m ->]. exists (c :: m). reflexivity.
Qed.

Lemma rmatch_suffix (r : regex) :
  forall k, gives_suffix k -> gives_suffix (fun s => rmatch r s k).
Proof.
  induction r as [l|p|r1 IH1 r2 IH2|r1 IH1|p|p|p]; intros k Hk s rest H;
    simpl in H.
  - destruct (strip_prefix l s) as [s'|] eqn:E; [|discriminate].
    apply strip_prefix_Some in E. subst s.
    destruct (Hk _ _ H) as [m ->]. exists (l ++ m). apply app_assoc.
  - destruct s as [|c s]; [discriminate|].
    destruct (p c); [|discriminate].
    destruct (Hk _ _ H) as [m ->]. exists (c :: m). reflexivity.
  - exact (IH1 _ (IH2 _ Hk) s rest H).
  - destruct (rmatch r1 s k) as [r'|] eqn:E.
    + injection H as ->. exact (IH1 _ Hk s rest E).
    + apply Hk. exact H.
  - exact (star_greedy_suffix p k Hk s rest H).
  - destruct s as [|c s]; [discriminate|].
    destruct (p c); [|discriminate].
    destruct (star_greedy_suffix p k Hk s rest H) as [m ->].
    exists (c :: m). reflexivity.
  - exact (star_lazy_suffix p k Hk s rest H).
Qed.

Lemma exec_suffix (r : regex) (s rest : jsstring) :
  exec r s = Some rest -> exists m, s = m ++ rest.
Proof. apply (rmatch_suffix r Some gives_suffix_Some). Qed.

(** *** Unfolding a replacement *)

Lemma replace_from_skip (r : regex) (rep s : jsstring) (n : nat) :
  (n <= List.length s)%nat ->
  replace_from r rep s n = replace r rep (skipn n s).
Proof.
  unfold replace. revert n.
  induction s as [|c s IH]; intros n Hn.
  - destruct n; [reflexivity | simpl in Hn; lia].
  - destruct n as [|n]; [reflexivity|].
    simpl. apply IH. simpl in Hn. lia.
Qed.

Lemma replace_no_match (r : regex) (rep s : jsstring) (c : char) :
  exec r (c :: s) = None ->
  replace r rep (c :: s) = c :: replace r rep s.
Proof.
  intros H. unfold replace. simpl. unfold match_length. rewrite H. reflexivity.
Qed.

Lemma replace_match (r : regex) (rep m rest : jsstring) :
  m <> [] ->
  exec r (m ++ rest) = Some rest ->
  replace r rep (m ++ rest) = rep ++ replace r rep rest.
Proof.
  intros Hm H. destruct m as [|c m]; [congruence|].
  assert (E : (List.length ((c :: m) ++ rest) - List.length rest
               = S (List.length m))%nat).
  { rewrite length_app. change (List.length (c :: m)) with (S (List.length m)).
    lia. }
  unfold replace.
  change ((c :: m) ++ rest) with (c :: (m ++ rest)) in *.
  cbn [replace_from]. unfold match_length. rewrite H, E.
  f_equal. rewrite replace_from_skip by (rewrite length_app; lia).
  rewrite skipn_app, skipn_all, Nat.sub_diag. reflexivity.
Qed.

(** *** Expressions that start with a literal *)

Fixpoint first_literal (r : regex) : option jsstring :=
  match r with
  | RLit l => Some l
  | RSeq r1 _ => first_literal r1
  | _ => None
  end.

Lemma rmatch_first_literal (r : regex) (l s : jsstring) k :
  first_literal r = Some l ->
  startsWith s l = false ->
  rmatch r s k = None.
Proof.
  revert k. induction r as [l'|p|r1 IH1 r2 IH2|r1 IH1|p|p|p]; intros k Hf Hs;
    simpl in Hf; try discriminate.
  - injection Hf as ->. simpl. unfold startsWith in Hs.
    destruct (strip_prefix l s); [discriminate | reflexivity].
  - simpl. apply IH1; assumption.
Qed.

(** A replacement is the identity on a text that holds no occurrence of the
    literal the expression starts with. *)
Lemma replace_no_occurrence (r : regex) (rep l s : jsstring) :
  first_literal r = Some l ->
  l <> [] ->
  includes s l = false ->
  replace r rep s = s.
Proof.
  intros Hf Hl. induction s as [|c s IH]; intros H.
  - unfold replace. simpl. unfold match_length, exec.
    rewrite (rmatch_first_literal r l [] Some Hf); [reflexivity|].
    destruct l; [congruence | reflexivity].
  - apply includes_cons in H. destruct H as [Hs H].
    rewrite replace_no_match.
    + f_equal. apply IH. exact H.
    + apply (rmatch_first_literal r l (c :: s) Some Hf Hs).
Qed.

Lemma includes_no_first_char (s l : jsstring) (c : char) :
  ~ In c s -> includes s (c :: l) = false.
Proof.
  induction s as [|d s IH]; intros H.
  - reflexivity.
  - simpl. apply orb_false_iff. split.
    + unfold startsWith. simpl.
      destruct (N.eqb_spec c d) as [->|]; [|reflexivity].
      exfalso. apply H. left. reflexivity.
    + apply IH. intros Hin. apply H. right. exact Hin.
Qed.

(** *** Trimming *)

Lemma trimEnd_all_space (s : jsstring) :
  forallb is_space s = true -> trimEnd s = [].
Proof. destruct s; simpl; intros H; [reflexivity|]. rewrite H. reflexivity. Qed.

Lemma trimEnd_cons (c : char) (s : jsstring) :
  forallb is_space (c :: s) = false -> trimEnd (c :: s) = c :: trimEnd s.
Proof. intros H. simpl trimEnd. simpl in H. rewrite H. reflexivity. Qed.

Lemma forallb_trimEnd (s : jsstring) :
  forallb is_space (trimEnd s) = forallb is_space s.
Proof.
  induction s as [|c s IH]; [reflexivity|].
  destruct (forallb is_space (c :: s)) eqn:E.
  - rewrite trimEnd_all_space by exact E. reflexivity.
  - rewrite trimEnd_cons by exact E. simpl. rewrite IH. exact E.
Qed.

Lemma trimEnd_idem (s : jsstring) : trimEnd (trimEnd s) = trimEnd s.
Proof.
  induction s as [|c s IH]; [reflexivity|].
  destruct (forallb is_space (c :: s)) eqn:E.
  - rewrite (trimEnd_all_space _ E). reflexivity.
  - rewrite (trimEnd_cons _ _ E).
    rewrite trimEnd_cons.
    + rewrite IH. reflexivity.
    + simpl. rewrite forallb_trimEnd. exact E.
Qed.

Lemma trimStart_head (s : jsstring) :
  match trimStart s with
  | [] => True
  | c :: _ => is_space c = false
  end.
Proof.
  induction s as [|c s IH]; simpl; [exact I|].
  destruct (is_space c) eqn:E; [exact IH | exact E].
Qed.

Lemma trimStart_fixed (s : jsstring) :
  match s with [] => True | c :: _ => is_space c = false end ->
  trimStart s = s.
Proof. destruct s as [|c s]; simpl; [reflexivity|]. intros ->. reflexivity. Qed.

Lemma trimEnd_head (s : jsstring) :
  match s with [] => True | c :: _ => is_space c = false end ->
  match trimEnd s with [] => True | c :: _ => is_space c = false end.
Proof.
  destruct s as [|c s]; simpl; [trivial|].
  intros H. rewrite H. simpl. exact H.
Qed.

Lemma trim_idem (s : jsstring) : trim (trim s) = trim s.
Proof.
  unfold trim.
  rewrite (trimStart_fixed (trimEnd (trimStart s))).
  - apply trimEnd_idem.
  - apply trimEnd_head, trimStart_head.
Qed.

(* ===================================================================== *)
(** ** The sanitizer on its own output                                    *)
(* ===================================================================== *)

(** *** Collapsing blank lines *)

(** What [\s*\n] leaves of the text behind a first line feed. *)
Definition after_blank (t : jsstring) : option jsstring :=
  star_greedy is_space (fun s' => rmatch (RLit [nl]) s' Some) t.

Lemma exec_blank_nil : exec blank_lines_regex [] = None.
Proof. reflexivity. Qed.

Lemma exec_blank_cons (c : char) (t : jsstring) :
  exec blank_lines_regex (c :: t) = if (nl =? c)%N then after_blank t else None.
Proof.
  unfold exec, blank_lines_regex. cbn [rmatch strip_prefix].
  destruct (nl =? c)%N; reflexivity.
Qed.

Lemma after_blank_space (c : char) (t : jsstring) :
  is_space c = true ->
  after_blank (c :: t)
  = match after_blank t with
    | Some r => Some r
    | None => if (nl =? c)%N then Some t else None
    end.
Proof.
  intros H. unfold after_blank. cbn [star_greedy]. rewrite H.
  destruct (star_greedy _ _ t); [reflexivity|].
  cbn [rmatch strip_prefix].
  destruct (nl =? c)%N; reflexivity.
Qed.

Lemma after_blank_no_space (c : char) (t : jsstring) :
  is_space c = false -> after_blank (c :: t) = None.
Proof.
  intros H. unfold after_blank. cbn [star_greedy]. rewrite H.
  cbn [rmatch strip_prefix].
  destruct (N.eqb_spec nl c) as [<-|]; [discriminate H | reflexivity].
Qed.

Lemma after_blank_rest (t r : jsstring) :
  after_blank t = Some r ->
  after_blank r = None /\ exists w, t = w ++ nl :: r.
Proof.
  induction t as [|c t IH]; intros H; [discriminate|].
  destruct (is_space c) eqn:Ec.
  - rewrite (after_blank_space _ _ Ec) in H.
    destruct (after_blank t) as [r'|] eqn:E.
    + injection H as ->. destruct (IH ltac:(first [exact E | reflexivity])) as [Hr [w ->]].
      split; [exact Hr|]. exists (c :: w). reflexivity.
    + destruct (N.eqb_spec nl c) as [<-|]; [|discriminate].
      injection H as <-. split; [exact E|]. exists []. reflexivity.
  - rewrite (after_blank_no_space _ _ Ec) in H. discriminate.
Qed.

Lemma collapse_nil : collapse_blank_lines [] = [].
Proof. reflexivity. Qed.

Lemma collapse_keep (c : char) (t : jsstring) :
  c <> nl \/ after_blank t = None ->
  collapse_blank_lines (c :: t) = c :: collapse_blank_lines t.
Proof.
  intros H. unfold collapse_blank_lines. apply replace_no_match.
  rewrite exec_blank_cons.
  destruct (N.eqb_spec nl c) as [<-|]; [|reflexivity].
  destruct H as [H|H]; [congruence | exact H].
Qed.

Lemma collapse_match (t r : jsstring) :
  after_blank t = Some r ->
  collapse_blank_lines (nl :: t) = nl :: nl :: collapse_blank_lines r.
Proof.
  intros H. destruct (after_blank_rest _ _ H) as [_ [w Hw]].
  unfold collapse_blank_lines.
  assert (E : nl :: t = (nl :: w ++ [nl]) ++ r).
  { rewrite Hw. simpl. rewrite <- app_assoc. reflexivity. }
  rewrite E.
  rewrite replace_match; [reflexivity | discriminate |].
  rewrite <- E, exec_blank_cons. simpl. exact H.
Qed.

Lemma after_blank_collapse (t : jsstring) :
  after_blank t = None -> after_blank (collapse_blank_lines t) = None.
Proof.
  induction t as [|c t IH]; intros H; [reflexivity|].
  destruct (is_space c) eqn:Ec.
  - rewrite (after_blank_space _ _ Ec) in H.
    destruct (after_blank t) eqn:E; [discriminate|].
    destruct (N.eqb_spec nl c) as [|Hc]; [discriminate|].
    rewrite collapse_keep by (right; exact E).
    rewrite (after_blank_space _ _ Ec), (IH ltac:(first [exact E | reflexivity])).
    destruct (N.eqb_spec nl c); [contradiction | reflexivity].
  - rewrite collapse_keep.
    + apply after_blank_no_space. exact Ec.
    + left. intros ->. discriminate Ec.
Qed.

Lemma collapse_cases (c : char) (t : jsstring) :
  (collapse_blank_lines (c :: t) = c :: collapse_blank_lines t
   /\ (c <> nl \/ after_blank t = None))
  \/ (c = nl /\ exists r w,
        t = w ++ nl :: r /\ after_blank t = Some r /\ after_blank r = None
        /\ collapse_blank_lines (c :: t) = nl :: nl :: collapse_blank_lines r).
Proof.
  destruct (N.eq_dec c nl) as [->|Hc].
  - destruct (after_blank t) as [r|] eqn:E.
    + right. split; [reflexivity|].
      destruct (after_blank_rest _ _ E) as [Hr [w Hw]].
      exists r, w. repeat split; try assumption.
      apply collapse_match. exact E.
    + left. split; [apply collapse_keep|]; right;
        first [exact E | reflexivity].
  - left. split; [apply collapse_keep|]; left; exact Hc.
Qed.

Lemma collapse_length (s : jsstring) :
  (List.length (collapse_blank_lines s) <= List.length s)%nat.
Proof.
  remember (List.length s) as n eqn:En. revert s En.
  induction n as [n IH] using lt_wf_ind. intros s En.
  destruct s as [|c t]; [simpl; lia|].
  destruct (collapse_cases c t) as [[E _]|[_ [r [w [Hw [_ [_ E]]]]]]];
    rewrite E; simpl in En |- *.
  - specialize (IH (List.length t) ltac:(lia) t eq_refl). lia.
  - assert (Hl : List.length t = (List.length w + S (List.length r))%nat)
      by (rewrite Hw, length_app; reflexivity).
    specialize (IH (List.length r) ltac:(lia) r eq_refl). lia.
Qed.

Lemma collapse_idem (s : jsstring) :
  collapse_blank_lines (collapse_blank_lines s) = collapse_blank_lines s.
Proof.
  remember (List.length s) as n eqn:En. revert s En.
  induction n as [n IH] using lt_wf_ind. intros s En.
  destruct s as [|c t]; [reflexivity|].
  destruct (collapse_cases c t) as [[E H]|[-> [r [w [Hw [_ [Hr E]]]]]]];
    rewrite E; simpl in En.
  - rewrite collapse_keep.
    + f_equal. apply (IH (List.length t)); [lia | reflexivity].
    + destruct H as [H|H]; [left; exact H|].
      right. apply after_blank_collapse. exact H.
  - assert (Hl : List.length t = (List.length w + S (List.length r))%nat)
      by (rewrite Hw, length_app; reflexivity).
    rewrite (@collapse_match (nl :: collapse_blank_lines r)
               (collapse_blank_lines r)).
    + do 2 f_equal. apply (IH (List.length r)); [lia | reflexivity].
    + rewrite after_blank_space by reflexivity.
      rewrite (after_blank_collapse _ Hr). reflexivity.
Qed.

(** A text that collapsing leaves alone, taken apart at its head. *)
Lemma stable_cases (c : char) (o : jsstring) :
  collapse_blank_lines (c :: o) = c :: o ->
  (collapse_blank_lines o = o /\ (c <> nl \/ after_blank o = None))
  \/ (c = nl /\ exists r,
        o = nl :: r /\ collapse_blank_lines r = r /\ after_blank r = None).
Proof.
  intros H.
  destruct (collapse_cases c o) as [[E Hc]|[-> [r [w [Hw [_ [Hr E]]]]]]];
    rewrite E in H.
  - left. split; [congruence | exact Hc].
  - right. split; [reflexivity|]. exists r.
    injection H as H.
    pose proof (collapse_length r) as Hlen.
    assert (Hl : List.length o = (List.length w + S (List.length r))%nat)
      by (rewrite Hw, length_app; reflexivity).
    assert (Hl' : List.length o = S (List.length (collapse_blank_lines r)))
      by (rewrite <- H; reflexivity).
    destruct w as [|d w]; [|simpl in Hl; lia].
    simpl in Hw. rewrite Hw in H. injection H as H.
    repeat split; assumption.
Qed.

Lemma stable_tail (c : char) (o : jsstring) :
  collapse_blank_lines (c :: o) = c :: o -> collapse_blank_lines o = o.
Proof.
  intros H. destruct (stable_cases _ _ H) as [[E _]|[_ [r [-> [E Hr]]]]].
  - exact E.
  - rewrite collapse_keep by (right; exact Hr). rewrite E. reflexivity.
Qed.

Lemma stable_trimStart (o : jsstring) :
  collapse_blank_lines o = o ->
  collapse_blank_lines (trimStart o) = trimStart o.
Proof.
  induction o as [|c o IH]; intros H; [reflexivity|].
  simpl. destruct (is_space c); [|exact H].
  apply IH. apply (stable_tail _ _ H).
Qed.

Lemma after_blank_trimEnd (t : jsstring) :
  after_blank t = None -> after_blank (trimEnd t) = None.
Proof.
  induction t as [|c t IH]; intros H; [reflexivity|].
  destruct (forallb is_space (c :: t)) eqn:Ea.
  - rewrite (trimEnd_all_space _ Ea). reflexivity.
  - rewrite (trimEnd_cons _ _ Ea).
    destruct (is_space c) eqn:Ec.
    + rewrite (after_blank_space _ _ Ec) in H.
      destruct (after_blank t) eqn:E; [discriminate|].
      rewrite (after_blank_space _ _ Ec), (IH ltac:(first [exact E | reflexivity])).
      destruct (nl =? c)%N; [discriminate H | reflexivity].
    + apply after_blank_no_space. exact Ec.
Qed.

Lemma stable_trimEnd (o : jsstring) :
  collapse_blank_lines o = o ->
  collapse_blank_lines (trimEnd o) = trimEnd o.
Proof.
  remember (List.length o) as n eqn:En. revert o En.
  induction n as [n IH] using lt_wf_ind. intros o En H.
  destruct o as [|c o]; [reflexivity|].
  destruct (forallb is_space (c :: o)) eqn:Ea.
  - rewrite (trimEnd_all_space _ Ea). reflexivity.
  - rewrite (trimEnd_cons _ _ Ea). simpl in En.
    destruct (stable_cases _ _ H) as [[E Hc]|[-> [r [-> [E Hr]]]]].
    + rewrite collapse_keep.
      * f_equal. apply (IH (List.length o)); [lia | reflexivity | exact E].
      * destruct Hc as [Hc|Hc]; [left; exact Hc|].
        right. apply after_blank_trimEnd. exact Hc.
    + assert (Er : forallb is_space (nl :: r) = false) by exact Ea.
      rewrite (trimEnd_cons _ _ Er).
      rewrite (@collapse_match (nl :: trimEnd r) (trimEnd r)).
      * do 2 f_equal.
        apply (IH (List.length r)); [simpl in En; lia | reflexivity | exact E].
      * rewrite after_blank_space by reflexivity.
        rewrite (after_blank_trimEnd _ Hr). reflexivity.
Qed.

Lemma stable_trim (o : jsstring) :
  collapse_blank_lines o = o -> collapse_blank_lines (trim o) = trim o.
Proof.
  intros H. unfold trim. apply stable_trimEnd, stable_trimStart, H.
Qed.

(** *** The tag-removing steps on a text without [<] *)

Lemma fold_left_fixed {A : Type} (f : jsstring -> A -> jsstring)
    (l : list A) (s : jsstring) :
  (forall a, f s a = s) -> fold_left f l s = s.
Proof.
  intros H. induction l as [|a l IH]; simpl; [reflexivity|].
  rewrite H. exact IH.
Qed.

Lemma replace_no_lt (r : regex) (rep l s : jsstring) :
  first_literal r = Some (lt_sign :: l) ->
  ~ In lt_sign s ->
  replace r rep s = s.
Proof.
  intros Hf Hs. apply (@replace_no_occurrence r rep (lt_sign :: l) s Hf).
  - discriminate.
  - apply includes_no_first_char. exact Hs.
Qed.

Lemma strip_environment_details_no_lt (s : jsstring) :
  ~ In lt_sign s -> strip_environment_details s = s.
Proof. apply replace_no_lt with (l := lit "environment_details>"). reflexivity. Qed.

Lemma strip_diff_blocks_no_lt (s : jsstring) :
  ~ In lt_sign s -> strip_diff_blocks s = s.
Proof. apply replace_no_lt with (l := lit "<<<<<< SEARCH"). reflexivity. Qed.

Lemma strip_tool_blocks_no_lt (s : jsstring) :
  ~ In lt_sign s -> strip_tool_blocks s = s.
Proof.
  intros H. unfold strip_tool_blocks. apply fold_left_fixed. intros tagName.
  apply replace_no_lt with (l := tagName); [reflexivity | exact H].
Qed.

Lemma strip_self_closing_no_lt (s : jsstring) :
  ~ In lt_sign s -> strip_self_closing s = s.
Proof. apply replace_no_lt with (l := []). reflexivity. Qed.

Lemma strip_tool_tags_no_lt (s : jsstring) :
  ~ In lt_sign s -> strip_tool_tags s = s.
Proof.
  intros H. unfold strip_tool_tags. apply fold_left_fixed. intros tagName.
  rewrite (@replace_no_lt (openTagRegex tagName) [] tagName s eq_refl H).
  apply replace_no_lt with (l := lit "/" ++ tagName ++ [gt_sign]);
    [reflexivity | exact H].
Qed.

Lemma strip_any_tag_no_lt (s : jsstring) :
  ~ In lt_sign s -> strip_any_tag s = s.
Proof. apply replace_no_lt with (l := []). reflexivity. Qed.

Lemma strip_recalled_memories_none (s : jsstring) :
  includes s recall_open = false -> strip_recalled_memories s = s.
Proof.
  apply (@replace_no_occurrence recalled_memories_regex [] recall_open s eq_refl).
  discriminate.
Qed.

Lemma clean_after_recall_no_lt (s : jsstring) :
  ~ In lt_sign s ->
  clean_after_recall s = trim (collapse_blank_lines s).
Proof.
  intros H. unfold clean_after_recall.
  rewrite (strip_diff_blocks_no_lt _ H), (strip_tool_blocks_no_lt _ H),
    (strip_self_closing_no_lt _ H), (strip_tool_tags_no_lt _ H),
    (strip_any_tag_no_lt _ H).
  reflexivity.
Qed.

(** The output of the sanitizer is trimmed and has no blank line left to
    collapse. *)
Lemma clean_shape (x : jsstring) :
  exists z, cleanMessageContent x = trim (collapse_blank_lines z).
Proof.
  unfold cleanMessageContent. destruct (is_empty x).
  - exists []. reflexivity.
  - unfold clean_after_recall. eexists. reflexivity.
Qed.

Lemma clean_no_markup (y : jsstring) :
  ~ In lt_sign y ->
  includes y recall_open = false ->
  cleanMessageContent y = trim (collapse_blank_lines y).
Proof.
  intros Hlt Hrec. unfold cleanMessageContent.
  destruct y as [|c y]; [reflexivity|]. cbn [is_empty].
  rewrite (strip_environment_details_no_lt _ Hlt).
  rewrite (strip_recalled_memories_none _ Hrec).
  apply clean_after_recall_no_lt. exact Hlt.
Qed.

(** *** Idempotence *)

Lemma includes_char_In (s : jsstring) (c : char) :
  includes s [c] = false -> ~ In c s.
Proof.
  induction s as [|d s IH]; intros H; [intros []|].
  apply includes_cons in H. destruct H as [Hs H].
  intros [->|Hin]; [|exact (IH H Hin)].
  unfold startsWith in Hs. simpl in Hs. rewrite N.eqb_refl in Hs.
  discriminate.
Qed.

(** C1, amended: the sanitizer is idempotent on every input whose sanitized
    text holds no [<] and no opening recall marker, that is
    [sanitize (sanitize x) = sanitize x] whenever [sanitize x] has no markup
    left that a second pass would still remove. *)
Theorem cleanMessageContent_idempotent_on_clean_text (x : jsstring) :
  includes (cleanMessageContent x) (lit "<") = false ->
  includes (cleanMessageContent x) recall_open = false ->
  cleanMessageContent (cleanMessageContent x) = cleanMessageContent x.
Proof.
  intros Hlt Hrec.
  rewrite (clean_no_markup _ (includes_char_In _ _ Hlt) Hrec).
  destruct (clean_shape x) as [z ->].
  rewrite (stable_trim _ (collapse_idem z)).
  apply trim_idem.
Qed.

(** The sanitizer is not idempotent on every input: the tag it removes from
    [<<a>b>] uncovers another one. *)
Lemma cleanMessageContent_second_pass_differs :
  cleanMessageContent (lit "<<a>b>") = lit "<b>"
  /\ cleanMessageContent (cleanMessageContent (lit "<<a>b>")) = [].
Proof. vm_compute. split; reflexivity. Qed.

(** Removing a recall block can join an opening marker to text that follows:
    the second condition of the theorem is needed as well. *)
Example second_pass_removes_joined_recall_block :
  cleanMessageContent
    (lit "[Recalled [Recalled Memories]a[/Recalled Memories]Memories]b"
     ++ recall_close)
  = recall_open ++ lit "b" ++ recall_close
  /\ cleanMessageContent (recall_open ++ lit "b" ++ recall_close) = [].
Proof. vm_compute. split; reflexivity. Qed.

Lemma cleanMessageContent_idempotent_example :
  includes
    (cleanMessageContent
       (lit "<b>hello</b>" ++ [nl; nl; nl] ++ lit "world  ")) (lit "<")
  = false
  /\ includes
       (cleanMessageContent
          (lit "<b>hello</b>" ++ [nl; nl; nl] ++ lit "world  ")) recall_open
     = false
  /\ cleanMessageContent
       (cleanMessageContent
          (lit "<b>hello</b>" ++ [nl; nl; nl] ++ lit "world  "))
     = cleanMessageContent
         (lit "<b>hello</b>" ++ [nl; nl; nl] ++ lit "world  ").
Proof.
  assert (H1 : includes
                 (cleanMessageContent
                    (lit "<b>hello</b>" ++ [nl; nl; nl] ++ lit "world  "))
                 (lit "<") = false) by (vm_compute; reflexivity).
  assert (H2 : includes
                 (cleanMessageContent
                    (lit "<b>hello</b>" ++ [nl; nl; nl] ++ lit "world  "))
                 recall_open = false) by (vm_compute; reflexivity).
  exact (conj H1
           (conj H2
              (cleanMessageContent_idempotent_on_clean_text _ H1 H2))).
Defined.

(** *** What the sanitizer keeps *)

(** [a] is [b] with some code units deleted. *)
Inductive subsequence : jsstring -> jsstring -> Prop :=
| sub_nil : subsequence [] []
| sub_keep (c : char) (a b : jsstring) :
    subsequence a b -> subsequence (c :: a) (c :: b)
| sub_drop (c : char) (a b : jsstring) :
    subsequence a b -> subsequence a (c :: b).

Lemma subsequence_refl (a : jsstring) : subsequence a a.
Proof. induction a; constructor; assumption. Qed.

Lemma subsequence_nil (b : jsstring) : subsequence [] b.
Proof. induction b; constructor; assumption. Qed.

Lemma subsequence_trans (a b c : jsstring) :
  subsequence a b -> subsequence b c -> subsequence a c.
Proof.
  intros Hab Hbc. revert a Hab.
  induction Hbc as [|x b c Hbc IH|x b c Hbc IH]; intros a Hab.
  - exact Hab.
  - inversion Hab; subst.
    + apply sub_keep. apply IH. assumption.
    + apply sub_drop. apply IH. assumption.
  - apply sub_drop. apply IH. exact Hab.
Qed.

Lemma subsequence_app (a a' b b' : jsstring) :
  subsequence a b -> subsequence a' b' -> subsequence (a ++ a') (b ++ b').
Proof.
  intros H H'. induction H; simpl; try constructor; assumption.
Qed.

Lemma subsequence_skip (m a b : jsstring) :
  subsequence a b -> subsequence a (m ++ b).
Proof. intros H. induction m; simpl; [|constructor]; assumption. Qed.

Lemma subsequence_length (a b : jsstring) :
  subsequence a b -> (List.length a <= List.length b)%nat.
Proof. intros H. induction H; simpl; lia. Qed.

Lemma subsequence_In (a b : jsstring) (c : char) :
  subsequence a b -> In c a -> In c b.
Proof.
  intros H. induction H; simpl; intros Hin; [exact Hin | | right; auto].
  destruct Hin as [->|Hin]; [left; reflexivity | right; auto].
Qed.

(** Replacing every match by the empty string only deletes. *)
Lemma replace_from_subsequence (r : regex) (s : jsstring) (n : nat) :
  subsequence (replace_from r [] s n) s.
Proof.
  revert n. induction s as [|c s IH]; intros n.
  - simpl. destruct n; [destruct (match_length r [])|]; constructor.
  - simpl. destruct n as [|n].
    + destruct (match_length r (c :: s)) as [[|k]|]; simpl.
      * apply sub_keep, IH.
      * apply sub_drop, IH.
      * apply sub_keep, IH.
    + apply sub_drop, IH.
Qed.

Lemma replace_subsequence (r : regex) (s : jsstring) :
  subsequence (replace r [] s) s.
Proof. apply replace_from_subsequence. Qed.

Lemma fold_left_subsequence {A : Type} (f : jsstring -> A -> jsstring)
    (l : list A) (s : jsstring) :
  (forall acc a, subsequence (f acc a) acc) ->
  subsequence (fold_left f l s) s.
Proof.
  intros H. revert s. induction l as [|a l IH]; intros s; simpl.
  - apply subsequence_refl.
  - apply subsequence_trans with (b := f s a); [apply IH | apply H].
Qed.

Lemma collapse_subsequence (s : jsstring) :
  subsequence (collapse_blank_lines s) s.
Proof.
  remember (List.length s) as n eqn:En. revert s En.
  induction n as [n IH] using lt_wf_ind. intros s En.
  destruct s as [|c t]; [constructor|].
  destruct (collapse_cases c t) as [[E _]|[-> [r [w [Hw [_ [_ E]]]]]]];
    rewrite E; simpl in En.
  - apply sub_keep. apply (IH (List.length t)); [lia | reflexivity].
  - assert (Hl : List.length t = (List.length w + S (List.length r))%nat)
      by (rewrite Hw, length_app; reflexivity).
    apply sub_keep. rewrite Hw. apply subsequence_skip. apply sub_keep.
    apply (IH (List.length r)); [lia | reflexivity].
Qed.

Lemma trimStart_subsequence (s : jsstring) : subsequence (trimStart s) s.
Proof.
  induction s as [|c s IH]; simpl; [constructor|].
  destruct (is_space c); [apply sub_drop, IH | apply subsequence_refl].
Qed.

Lemma trimEnd_subsequence (s : jsstring) : subsequence (trimEnd s) s.
Proof.
  induction s as [|c s IH]; [constructor|].
  destruct (forallb is_space (c :: s)) eqn:E.
  - rewrite (trimEnd_all_space _ E). apply subsequence_nil.
  - rewrite (trimEnd_cons _ _ E). apply sub_keep, IH.
Qed.

Lemma trim_subsequence (s : jsstring) : subsequence (trim s) s.
Proof.
  unfold trim.
  apply subsequence_trans with (b := trimStart s);
    [apply trimEnd_subsequence | apply trimStart_subsequence].
Qed.

Lemma clean_after_recall_subsequence (t : jsstring) :
  subsequence (clean_after_recall t) t.
Proof.
  unfold clean_after_recall.
  eapply subsequence_trans; [apply trim_subsequence|].
  eapply subsequence_trans; [apply collapse_subsequence|].
  eapply subsequence_trans; [apply replace_subsequence|].
  eapply subsequence_trans.
  { unfold strip_tool_tags. apply fold_left_subsequence. intros acc a.
    eapply subsequence_trans; apply replace_subsequence. }
  eapply subsequence_trans; [apply replace_subsequence|].
  eapply subsequence_trans.
  { unfold strip_tool_blocks. apply fold_left_subsequence. intros acc a.
    apply replace_subsequence. }
  apply replace_subsequence.
Qed.

(** X1: the sanitizer only deletes code units: its output is a subsequence
    of its input, so it is never longer than the input and holds no code unit
    that the input does not hold. *)
Theorem cleanMessageContent_only_deletes (x : jsstring) :
  subsequence (cleanMessageContent x) x
  /\ (List.length (cleanMessageContent x) <= List.length x)%nat
  /\ (forall c : char, In c (cleanMessageContent x) -> In c x).
Proof.
  assert (H : subsequence (cleanMessageContent x) x).
  { unfold cleanMessageContent. destruct (is_empty x).
    - apply subsequence_nil.
    - eapply subsequence_trans; [apply clean_after_recall_subsequence|].
      eapply subsequence_trans; apply replace_subsequence. }
  split; [exact H|]. split.
  - apply subsequence_length. exact H.
  - intros c. apply subsequence_In. exact H.
Qed.

(** *** The shape of the output *)

Lemma trimEnd_last (s : jsstring) (d : char) :
  trimEnd s <> [] -> is_space (last (trimEnd s) d) = false.
Proof.
  induction s as [|c s IH]; intros H; [contradiction H; reflexivity|].
  destruct (forallb is_space (c :: s)) eqn:E.
  - rewrite (trimEnd_all_space _ E) in H. contradiction H. reflexivity.
  - rewrite (trimEnd_cons _ _ E).
    destruct (trimEnd s) as [|e t] eqn:Et.
    + simpl. simpl in E. apply andb_false_iff in E.
      destruct E as [E|E]; [exact E|].
      rewrite <- forallb_trimEnd, Et in E. discriminate.
    + change (last (c :: e :: t) d) with (last (e :: t) d).
      apply IH. discriminate.
Qed.

(** X2: the output of the sanitizer is trimmed and has no blank lines left
    to collapse: trimming or collapsing it again changes nothing, and when it
    is not empty it neither starts nor ends with white space. *)
Theorem cleanMessageContent_output_is_normalised (x : jsstring) :
  trim (cleanMessageContent x) = cleanMessageContent x
  /\ collapse_blank_lines (cleanMessageContent x) = cleanMessageContent x
  /\ (forall (c : char) (s : jsstring),
        cleanMessageContent x = c :: s ->
        is_space c = false /\ is_space (last (c :: s) c) = false).
Proof.
  destruct (clean_shape x) as [z Hz]. rewrite Hz.
  split; [apply trim_idem|].
  split; [apply stable_trim, collapse_idem|].
  intros c s E. split.
  - pose proof (trimEnd_head (trimStart (collapse_blank_lines z))
                  (trimStart_head (collapse_blank_lines z))) as H.
    unfold trim in E. rewrite E in H. exact H.
  - rewrite <- E. unfold trim. apply trimEnd_last.
    unfold trim in E. rewrite E. discriminate.
Qed.

Lemma collapse_all_space (s : jsstring) :
  forallb is_space s = true -> forallb is_space (collapse_blank_lines s) = true.
Proof.
  intros H. rewrite forallb_forall in *. intros c Hc.
  apply H. apply (subsequence_In _ _ _ (collapse_subsequence s) Hc).
Qed.

Lemma trim_all_space (s : jsstring) : forallb is_space s = true -> trim s = [].
Proof.
  intros H. unfold trim.
  assert (E : trimStart s = []).
  { induction s as [|c s IH]; [reflexivity|].
    simpl in H |- *. apply andb_true_iff in H. destruct H as [-> H].
    apply IH. exact H. }
  rewrite E. reflexivity.
Qed.

Lemma all_space_no_char (s : jsstring) (c : char) :
  is_space c = false -> forallb is_space s = true -> ~ In c s.
Proof.
  intros Hc H Hin. rewrite forallb_forall in H.
  rewrite (H c Hin) in Hc. discriminate.
Qed.

(** X3: a text of white space only is sanitized to the empty string, which
    the callers take for "no content". *)
Theorem cleanMessageContent_of_white_space (x : jsstring) :
  forallb is_space x = true -> cleanMessageContent x = [].
Proof.
  intros H.
  rewrite clean_no_markup.
  - apply trim_all_space, collapse_all_space, H.
  - apply all_space_no_char; [reflexivity | exact H].
  - apply (includes_no_first_char x (lit "Recalled Memories]") 91%N).
    apply all_space_no_char; [reflexivity | exact H].
Qed.

(** X4: on a text that holds no [<] and no opening recall marker the
    sanitizer only normalizes white space, and it returns the text unchanged
    when the text is trimmed and has no blank lines to collapse. *)
Theorem cleanMessageContent_of_plain_text (y : jsstring) :
  includes y (lit "<") = false ->
  includes y recall_open = false ->
  cleanMessageContent y = trim (collapse_blank_lines y)
  /\ (trim y = y -> collapse_blank_lines y = y -> cleanMessageContent y = y).
Proof.
  intros Hlt Hrec.
  assert (E : cleanMessageContent y = trim (collapse_blank_lines y))
    by (apply clean_no_markup; [apply includes_char_In|]; assumption).
  split; [exact E|].
  intros Ht Hc. rewrite E, Hc. exact Ht.
Qed.

(* ===================================================================== *)
(** ** A recall block fed back to the sanitizer                           *)
(* ===================================================================== *)

Definition environment_details_open : jsstring := lit "<environment_details>".

(** The text of the block the enrichment handler prepends:
    [`[Recalled Memories]\n${formattedMemories}\n[/Recalled Memories]`] *)
Definition recall_block_text (formattedMemories : jsstring) : jsstring :=
  recall_open ++ [nl] ++ formattedMemories ++ [nl] ++ recall_close.

Lemma startsWith_other_head (a c : char) (l s : jsstring) :
  a <> c -> startsWith (c :: s) (a :: l) = false.
Proof.
  intros H. unfold startsWith. simpl.
  destruct (N.eqb_spec a c); [contradiction | reflexivity].
Qed.

Lemma includes_other_head (a c : char) (l s : jsstring) :
  a <> c -> includes s (a :: l) = false -> includes (c :: s) (a :: l) = false.
Proof.
  intros H Hs. cbn [includes]. rewrite Hs, orb_false_r.
  apply startsWith_other_head. exact H.
Qed.

(** The lazy [[\s\S]*?] in front of a literal [l] runs through a text that
    holds no occurrence of [l], up to a code unit that is not in [l]. *)
Lemma star_lazy_step (p : char -> bool) k (c : char) (s : jsstring) :
  k (c :: s) = None -> p c = true ->
  star_lazy p k (c :: s) = star_lazy p k s.
Proof. intros Hk Hp. cbn [star_lazy]. rewrite Hk, Hp. reflexivity. Qed.

Lemma star_lazy_through (l F x : jsstring) (c : char) k :
  (forall s', strip_prefix l s' = None -> k s' = None) ->
  ~ In c l ->
  includes F l = false ->
  star_lazy any_char k (F ++ c :: x) = star_lazy any_char k (c :: x).
Proof.
  intros Hk Hc. induction F as [|d F IH]; intros H; [reflexivity|].
  apply includes_cons in H. destruct H as [Hs H].
  change ((d :: F) ++ c :: x) with (d :: (F ++ c :: x)).
  rewrite star_lazy_step; [apply IH; exact H | | reflexivity].
  apply Hk.
  destruct (strip_prefix l (d :: F ++ c :: x)) eqn:E; [|reflexivity].
  exfalso.
  assert (E' : strip_prefix l ((d :: F) ++ c :: x) <> None)
    by (simpl app; congruence).
  apply (strip_prefix_before _ _ _ _ Hc) in E'.
  unfold startsWith in Hs. destruct (strip_prefix l (d :: F)); congruence.
Qed.

Lemma includes_recall_block (F l : jsstring) :
  ~ In nl l -> l <> [] ->
  includes recall_open l = false ->
  includes (nl :: recall_close) l = false ->
  includes F l = false ->
  includes (recall_block_text F) l = false.
Proof.
  intros Hnl Hl Hopen Hclose HF. unfold recall_block_text.
  change (recall_open ++ [nl] ++ F ++ [nl] ++ recall_close)
    with (recall_open ++ nl :: (F ++ nl :: recall_close)).
  apply includes_app_sep; try assumption.
  assert (Hrest : includes (F ++ nl :: recall_close) l = false)
    by (apply includes_app_sep; assumption).
  destruct l as [|a l]; [congruence|].
  apply includes_other_head; [|exact Hrest].
  intros ->. apply Hnl. left. reflexivity.
Qed.

Lemma strip_recalled_memories_block (F : jsstring) :
  includes F recall_close = false ->
  strip_recalled_memories (recall_block_text F) = [].
Proof.
  intros HF. unfold strip_recalled_memories.
  rewrite <- (app_nil_r (recall_block_text F)).
  rewrite replace_match.
  - reflexivity.
  - discriminate.
  - rewrite app_nil_r. unfold exec, recalled_memories_regex, delimited.
    unfold recall_block_text. cbn [rmatch].
    rewrite strip_prefix_app.
    change ([nl] ++ F ++ [nl] ++ recall_close)
      with (nl :: (F ++ nl :: recall_close)).
    assert (Hnl : ~ In nl recall_close)
      by (vm_compute; intuition discriminate).
    rewrite star_lazy_step by reflexivity.
    rewrite star_lazy_through with (l := recall_close);
      [reflexivity | | exact Hnl | exact HF].
    intros s' E. cbn [rmatch]. rewrite E. reflexivity.
Qed.

Lemma clean_recall_block (F : jsstring) :
  includes F recall_close = false ->
  includes F environment_details_open = false ->
  cleanMessageContent (recall_block_text F) = [].
Proof.
  intros Hclose Henv. unfold cleanMessageContent.
  replace (is_empty (recall_block_text F)) with false by reflexivity.
  assert (E : strip_environment_details (recall_block_text F)
              = recall_block_text F).
  { apply (replace_no_occurrence environment_details_regex []
             environment_details_open); [reflexivity | discriminate|].
    apply includes_recall_block; try assumption;
      try (vm_compute; intuition discriminate); reflexivity. }
  rewrite E, (strip_recalled_memories_block _ Hclose).
  reflexivity.
Qed.


(* ===================================================================== *)
(** ** An environment block inside a text                                 *)
(* ===================================================================== *)

Definition environment_details_close : jsstring :=
  lit "</environment_details>".

(** What the optional [\n?] at the end of a pattern leaves of [s]. *)
Definition skip_newline (s : jsstring) : jsstring :=
  match strip_prefix [nl] s with
  | Some rest => rest
  | None => s
  end.

Lemma star_lazy_now (p : char -> bool) k (s r : jsstring) :
  k s = Some r -> star_lazy p k s = Some r.
Proof. destruct s; simpl; intros ->; reflexivity. Qed.

(** The lazy [[\s\S]*?] in front of a literal runs through a text that does
    not hold the first code unit of the literal. *)
Lemma star_lazy_to_literal (a : char) (l F x : jsstring) k :
  (forall s', strip_prefix (a :: l) s' = None -> k s' = None) ->
  ~ In a F ->
  star_lazy any_char k (F ++ x) = star_lazy any_char k x.
Proof.
  intros Hk. induction F as [|d F IH]; intros Ha; [reflexivity|].
  change ((d :: F) ++ x) with (d :: (F ++ x)).
  rewrite star_lazy_step.
  - apply IH. intros Hin. apply Ha. right. exact Hin.
  - apply Hk. simpl. destruct (N.eqb_spec a d) as [->|]; [|reflexivity].
    exfalso. apply Ha. left. reflexivity.
  - reflexivity.
Qed.

(** A replacement leaves a text in front of the first code unit that can
    start a match as it is. *)
Lemma replace_skips (r : regex) (rep : jsstring) (a : char)
    (l pre s : jsstring) :
  first_literal r = Some (a :: l) ->
  ~ In a pre ->
  replace r rep (pre ++ s) = pre ++ replace r rep s.
Proof.
  intros Hf. induction pre as [|d pre IH]; intros Ha; [reflexivity|].
  change ((d :: pre) ++ s) with (d :: (pre ++ s)).
  rewrite replace_no_match.
  - rewrite IH; [reflexivity|]. intros Hin. apply Ha. right. exact Hin.
  - unfold exec. apply (rmatch_first_literal r (a :: l) _ Some Hf).
    apply startsWith_other_head. intros ->. apply Ha. left. reflexivity.
Qed.

Lemma exec_delimited (opening closing body post : jsstring) (a : char)
    (l : jsstring) :
  closing = a :: l ->
  ~ In a body ->
  exec (delimited opening closing) (opening ++ body ++ closing ++ post)
  = Some (skip_newline post).
Proof.
  intros Hc Hbody. unfold exec, delimited. cbn [rmatch].
  rewrite strip_prefix_app.
  rewrite (star_lazy_to_literal a l).
  - apply star_lazy_now. rewrite strip_prefix_app. unfold skip_newline.
    destruct (strip_prefix [nl] post); reflexivity.
  - intros s' E. rewrite <- Hc in E. rewrite E. reflexivity.
  - exact Hbody.
Qed.

Lemma skip_newline_suffix (post : jsstring) :
  exists m, post = m ++ skip_newline post.
Proof.
  unfold skip_newline. destruct (strip_prefix [nl] post) as [rest|] eqn:E.
  - exists [nl]. apply strip_prefix_Some. exact E.
  - exists []. reflexivity.
Qed.

(** The first step of the sanitizer on a text with one environment block
    that no [<] precedes and whose body holds no [<]. *)
Lemma strip_environment_details_block (pre body post : jsstring) :
  ~ In lt_sign pre ->
  ~ In lt_sign body ->
  strip_environment_details
    (pre ++ environment_details_open ++ body ++ environment_details_close
     ++ post)
  = strip_environment_details (pre ++ skip_newline post).
Proof.
  intros Hpre Hbody. unfold strip_environment_details.
  rewrite !(replace_skips environment_details_regex [] lt_sign
              (lit "environment_details>") pre) by (reflexivity || exact Hpre).
  f_equal.
  destruct (skip_newline_suffix post) as [m Hm].
  assert (E : environment_details_open ++ body ++ environment_details_close
              ++ post
              = (environment_details_open ++ body
                 ++ environment_details_close ++ m) ++ skip_newline post).
  { rewrite Hm at 1. rewrite <- !app_assoc. reflexivity. }
  rewrite E. rewrite replace_match; [reflexivity | discriminate|].
  rewrite <- E.
  apply (exec_delimited environment_details_open environment_details_close
           body post lt_sign (lit "/environment_details>"));
    [reflexivity | exact Hbody].
Qed.

(** X21: an environment block is removed with all it holds.  For a text
    with an [<environment_details>] block that no [<] precedes and whose
    body holds no [<], the sanitizer gives what it gives for the text
    without the block and without one line feed directly behind it. *)
Theorem environment_details_are_removed (pre body post : jsstring) :
  ~ In lt_sign pre ->
  ~ In lt_sign body ->
  cleanMessageContent
    (pre ++ environment_details_open ++ body ++ environment_details_close
     ++ post)
  = cleanMessageContent (pre ++ skip_newline post).
Proof.
  intros Hpre Hbody. unfold cleanMessageContent.
  rewrite (strip_environment_details_block pre body post Hpre Hbody).
  replace (is_empty
             (pre ++ environment_details_open ++ body
              ++ environment_details_close ++ post)) with false
    by (destruct pre; reflexivity).
  destruct (pre ++ skip_newline post) eqn:E; reflexivity.
Qed.

(* ===================================================================== *)
(** ** The integration: data model, host and operations                   *)
(* ===================================================================== *)

Section Integration.

#[local] Set Default Proof Using "Type".

(** JavaScript numbers are IEEE doubles.  They are kept abstract, together
    with the three operations the source applies to them. *)
Variable number : Type.
Variable toFixed4 : number -> jsstring.          (* n.toFixed(4) *)
Variable number_toString : number -> jsstring.   (* `${n}` *)
Variable one_minus : number -> number.           (* 1 - n *)
Variable number_one : number.                    (* 1 *)

(** *** Messages *)

Inductive Role : Type := user | assistant.

Definition role_name (r : Role) : jsstring :=
  match r with
  | user => lit "user"
  | assistant => lit "assistant"
  end.

(** Blocks nested in a tool result are text or image blocks. *)
Inductive InnerBlock : Type :=
| InnerText (text : jsstring)
| InnerImage (source : jsstring).

Inductive ToolResultContent : Type :=
| ContentString (s : jsstring)
| ContentBlocks (l : list InnerBlock)
| ContentUndefined.

Inductive ContentBlock : Type :=
| TextBlock (text : jsstring)
| ImageBlock (source : jsstring)
| ToolUseBlock (id : jsstring)
| ToolResultBlock (tool_use_id : jsstring) (content : ToolResultContent).

Inductive MessageContent : Type :=
| StringContent (s : jsstring)
| BlockContent (l : list ContentBlock).

Record Message : Type := {
  msg_role : Role;
  msg_content : MessageContent;
  msg_ts : option number
}.

Record RecalledMemoryItem : Type := {
  item_text : jsstring;
  item_sourceId : jsstring;
  item_chunkIndex : number;
  item_score : option number;
  item_distance : option number
}.

(** *** The host: service registry and tool invocation *)

Record McpServer : Type := {
  srv_name : jsstring;
  srv_status : jsstring
}.

Inductive ToolArgs : Type :=
| EnrichContextMcpArgs (query conversationContext : jsstring) (topK : N)
| StoreExchangeMcpPayload (userMessage assistantResponse taskId : jsstring)
    (userTimestamp assistantTimestamp : option number)
| LastChunkIndexArgs (sourceId : jsstring).

Record ToolCall : Type := {
  call_server : jsstring;
  call_tool : jsstring;
  call_args : ToolArgs
}.

Record ResponseBlock : Type := {
  rb_type : jsstring;
  rb_text : jsstring
}.

Inductive McpResponse : Type :=
| NoResponse                        (* null or undefined *)
| NoContent                         (* no [content], or not an array *)
| Content (l : list ResponseBlock).

Inductive CallOutcome : Type :=
| CallRejects
| CallResolves (r : McpResponse).

(** What the source reads of a parsed JSON envelope: the truthiness of
    [success], [recalled_memories] when it is an array, [lastChunkIndex] when
    it is a number. *)
Record ResultPayload : Type := {
  success : bool;
  recalled_memories : option (list RecalledMemoryItem);
  lastChunkIndex : option number
}.

(** [JSON.parse]; [None] when it throws, or when reading a property of its
    result throws (the text was [null]). *)
Variable JSON_parse : jsstring -> option ResultPayload.

(** The registry as the n-th look-up finds it, and the outcome of a tool
    call made after n earlier ones: both may change over time. *)
Variable getServers : nat -> list McpServer.
Variable callTool : nat -> ToolCall -> CallOutcome.

(** [this.task.taskId] *)
Variable this_taskId : jsstring.

Definition semanticMemoryServerName : jsstring := lit "semantic-memory".

(** *** State and effects *)

(** The field [lastStoredMessageIndex] of the instance, and what the instance
    has done to the host so far. *)
Record State : Type := {
  lastStoredMessageIndex : Z;
  calls : list ToolCall;
  probes : nat
}.

Definition initial_state : State :=
  {| lastStoredMessageIndex := -1; calls := []; probes := 0 |}.

(** A computation on a state [S] returns or throws; the state reached is
    kept in both cases. *)
Inductive Outcome (A : Type) : Type :=
| Returns (a : A)
| Throws.
Arguments Returns {A} a.
Arguments Throws {A}.

Definition M (S A : Type) : Type := S -> Outcome A * S.

Definition ret {S A : Type} (a : A) : M S A := fun st => (Returns a, st).

Definition throw {S A : Type} : M S A := fun st => (Throws, st).

Definition bind {S A B : Type} (m : M S A) (f : A -> M S B) : M S B :=
  fun st =>
    match m st with
    | (Returns a, st') => f a st'
    | (Throws, st') => (Throws, st')
    end.

(** [try { m } catch (error) { h }] *)
Definition try_catch {S A : Type} (m : M S A) (h : M S A) : M S A :=
  fun st =>
    match m st with
    | (Returns a, st') => (Returns a, st')
    | (Throws, st') => h st'
    end.

Notation "x <- m ;; k" := (bind m (fun x => k))
  (at level 61, m at next level, right associativity).
Notation "m ;;; k" := (bind m (fun _ => k))
  (at level 61, right associativity).

(** [servers.find(server => server.name === name)] and the status test. *)
Definition isAvailable_of (servers : list McpServer) : bool :=
  match find (fun server => str_eqb (srv_name server) semanticMemoryServerName)
          servers with
  | Some semanticMemoryServer =>
      str_eqb (srv_status semanticMemoryServer) (lit "connected")
  | None => false
  end.

Definition isAvailable : M State bool :=
  fun st =>
    (Returns (isAvailable_of (getServers (probes st))),
     {| lastStoredMessageIndex := lastStoredMessageIndex st;
        calls := calls st;
        probes := S (probes st) |}).

(** [await this.mcpHub.callTool(this.semanticMemoryServerName, tool, args)] *)
Definition mcpHub_callTool (tool : jsstring) (args : ToolArgs)
    : M State McpResponse :=
  fun st =>
    let c := {| call_server := semanticMemoryServerName;
                call_tool := tool; call_args := args |} in
    let st' := {| lastStoredMessageIndex := lastStoredMessageIndex st;
                  calls := calls st ++ [c];
                  probes := probes st |} in
    match callTool (List.length (calls st)) c with
    | CallRejects => (Throws, st')
    | CallResolves r => (Returns r, st')
    end.

Definition parse {S : Type} (text : jsstring) : M S ResultPayload :=
  match JSON_parse text with
  | Some p => ret p
  | None => throw
  end.

Definition set_lastStoredMessageIndex (i : Z) : M State unit :=
  fun st =>
    (Returns tt,
     {| lastStoredMessageIndex := i; calls := calls st; probes := probes st |}).

Definition get_lastStoredMessageIndex : M State Z :=
  fun st => (Returns (lastStoredMessageIndex st), st).

(** *** Text of a message *)

Definition is_text_block (block : ContentBlock) : bool :=
  match block with TextBlock _ => true | _ => false end.

(** [(block as Anthropic.TextBlockParam).text] *)
Definition block_text (block : ContentBlock) : jsstring :=
  match block with TextBlock text => text | _ => [] end.

(** [content.filter(b => b.type === "text").map(b => b.text).join(sep)] *)
Definition text_of_blocks (sep : jsstring) (l : list ContentBlock) : jsstring :=
  join sep (map block_text (filter is_text_block l)).

(** The text the store operation and the storage handler derive. *)
Definition message_text (m : Message) : jsstring :=
  match msg_content m with
  | StringContent s => s
  | BlockContent l => text_of_blocks [nl; nl] l
  end.

(** *** enrichWithContextInternal *)

(** [recentHistory.slice(-n)] *)
Definition slice_last {A : Type} (n : nat) (l : list A) : list A :=
  skipn (List.length l - n) l.

Definition context_line (msg : Message) : jsstring :=
  let content :=
    match msg_content msg with
    | StringContent s => s
    | BlockContent l => text_of_blocks (lit " ") l
    end in
  role_name (msg_role msg) ++ lit ": " ++ cleanMessageContent content.

Definition conversationContextString (recentHistory : list Message) : jsstring :=
  join [nl] (map context_line (slice_last 6 recentHistory)).

Definition enrichWithContextInternal (currentUserMessageContent : jsstring)
    (recentHistory : list Message) : M State (list RecalledMemoryItem) :=
  available <- isAvailable ;;
  if negb available then ret []
  else
    let args :=
      EnrichContextMcpArgs currentUserMessageContent
        (conversationContextString recentHistory) 3 in
    try_catch
      (response <- mcpHub_callTool (lit "enrich_context") args ;;
       match response with
       | Content (first :: _) =>
           if str_eqb (rb_type first) (lit "text") then
             resultPayload <- parse (rb_text first) ;;
             if success resultPayload then
               match recalled_memories resultPayload with
               | Some memories => ret memories
               | None => ret []
               end
             else ret []
           else ret []
       | _ => ret []
       end)
      (ret []).

(** *** storeExchangeInternal *)

Definition read_store_response (response : McpResponse) : M State unit :=
  match response with
  | Content (first :: _) =>
      if str_eqb (rb_type first) (lit "text") then
        resultPayload <- parse (rb_text first) ;; ret tt
      else ret tt
  | _ => ret tt
  end.

Definition storeExchangeInternal (userMessage assistantMessage : Message)
    (taskId : jsstring) : M State unit :=
  available <- isAvailable ;;
  if negb available then ret tt
  else
    let userMessageText := message_text userMessage in
    let assistantResponseText := message_text assistantMessage in
    let cleanedUserMessage := cleanMessageContent userMessageText in
    let cleanedAssistantResponse := cleanMessageContent assistantResponseText in
    if is_empty cleanedUserMessage && is_empty cleanedAssistantResponse
    then ret tt
    else
      let mcpArgs :=
        StoreExchangeMcpPayload cleanedUserMessage cleanedAssistantResponse
          taskId (msg_ts userMessage) (msg_ts assistantMessage) in
      try_catch
        (response <- mcpHub_callTool (lit "store_exchange") mcpArgs ;;
         read_store_response response)
        (ret tt).

(** The later revision stores the user's words uncleaned, and only the inner
    text of the first [<user_message>] section when there is one:
    [userMessageText.match(/<user_message>([\s\S]*?)<\/user_message>/)]. *)
Definition user_message_open : jsstring := lit "<user_message>".
Definition user_message_close : jsstring := lit "</user_message>".

Definition user_message_regex : regex :=
  RSeq (RLit user_message_open)
    (RSeq (RLazy any_char) (RLit user_message_close)).

(** The leftmost match of a regular expression without the [g] flag. *)
Fixpoint search (r : regex) (s : jsstring) : option jsstring :=
  match exec r s with
  | Some rest => Some (firstn (List.length s - List.length rest) s)
  | None =>
      match s with
      | [] => None
      | _ :: s' => search r s'
      end
  end.

(** Capture group 1 of [user_message_regex]. *)
Definition user_message_section (userMessageText : jsstring)
    : option jsstring :=
  match search user_message_regex userMessageText with
  | Some matched =>
      Some (firstn
              (List.length matched - List.length user_message_open
               - List.length user_message_close)
              (skipn (List.length user_message_open) matched))
  | None => None
  end.

Definition storeExchangeInternal_sync (userMessage assistantMessage : Message)
    (taskId : jsstring) : M State unit :=
  available <- isAvailable ;;
  if negb available then ret tt
  else
    let userMessageText := message_text userMessage in
    let assistantResponseText := message_text assistantMessage in
    let finalUserMessageToStore :=
      match user_message_section userMessageText with
      | Some inner => if is_empty inner then userMessageText else trim inner
      | None => userMessageText
      end in
    let cleanedAssistantResponse := cleanMessageContent assistantResponseText in
    if is_empty finalUserMessageToStore && is_empty cleanedAssistantResponse
    then ret tt
    else
      let mcpArgs :=
        StoreExchangeMcpPayload finalUserMessageToStore cleanedAssistantResponse
          taskId (msg_ts userMessage) (msg_ts assistantMessage) in
      try_catch
        (response <- mcpHub_callTool (lit "store_exchange") mcpArgs ;;
         read_store_response response)
        (ret tt).

(** *** The enrichment handler *)

(** A promise is modelled by the way it settles. *)
Inductive Settlement : Type := Fulfilled | Rejected.

Record UserMessageEnrichmentPayload : Type := {
  enr_taskId : jsstring;
  userContent : list ContentBlock;
  currentHistorySlice : list Message;
  promises : list Settlement
}.

(** The async body of the handler mutates [payload.userContent] and the
    state of the instance. *)
Record EnrichmentState : Type := {
  es_userContent : list ContentBlock;
  es_instance : State
}.

Definition lift {A : Type} (m : M State A) : M EnrichmentState A :=
  fun es =>
    match m (es_instance es) with
    | (o, st') =>
        (o, {| es_userContent := es_userContent es; es_instance := st' |})
    end.

Definition get_userContent : M EnrichmentState (list ContentBlock) :=
  fun es => (Returns (es_userContent es), es).

Definition set_userContent (l : list ContentBlock) : M EnrichmentState unit :=
  fun es =>
    (Returns tt, {| es_userContent := l; es_instance := es_instance es |}).

(** [payload.userContent.unshift(block)] *)
Definition unshift_userContent (block : ContentBlock) : M EnrichmentState unit :=
  fun es =>
    (Returns tt,
     {| es_userContent := block :: es_userContent es;
        es_instance := es_instance es |}).

(** The callback of the clean-up filter keeps a block unless it is a text
    block whose trimmed text starts with the recall marker. *)
Definition keeps_block (block : ContentBlock) : bool :=
  match block with
  | TextBlock text => negb (startsWith (trim text) recall_open)
  | _ => true
  end.

Definition inner_text_parts (innerBlock : InnerBlock) : list jsstring :=
  match innerBlock with
  | InnerText text => [text]
  | InnerImage _ => []
  end.

(** What one block pushes on [userQueryParts]. *)
Definition query_parts_of (block : ContentBlock) : list jsstring :=
  match block with
  | TextBlock text => [text]
  | ToolResultBlock _ (ContentString s) => [s]
  | ToolResultBlock _ (ContentBlocks l) => flat_map inner_text_parts l
  | _ => []
  end.

(** [items.map((item, index) => f index item)] *)
Fixpoint mapi_from {A B : Type} (index : nat) (f : nat -> A -> B) (l : list A)
    : list B :=
  match l with
  | [] => []
  | item :: rest => f index item :: mapi_from (S index) f rest
  end.

Definition mapi {A B : Type} (f : nat -> A -> B) (l : list A) : list B :=
  mapi_from 0 f l.

(** [`Memory ${index + 1} (Source: ${item.sourceId}, Score:
    ${item.score?.toFixed(4) || "N/A"}):\n${item.text}`] *)
Definition formatMemory (index : nat) (item : RecalledMemoryItem) : jsstring :=
  lit "Memory " ++ decimal (index + 1)
  ++ lit " (Source: " ++ item_sourceId item
  ++ lit ", Score: "
  ++ match item_score item with
     | Some score => or_else (toFixed4 score) (lit "N/A")
     | None => lit "N/A"
     end
  ++ lit "):" ++ [nl] ++ item_text item.

(** [`Memory ${index + 1} (Source: ${item.sourceId}, Chunk:
    ${item.chunkIndex}, Score: ${(1 - (item.distance ?? 1)).toFixed(4)}):
    \n${item.text}`] *)
Definition formatMemory_sync (index : nat) (item : RecalledMemoryItem)
    : jsstring :=
  lit "Memory " ++ decimal (index + 1)
  ++ lit " (Source: " ++ item_sourceId item
  ++ lit ", Chunk: " ++ number_toString (item_chunkIndex item)
  ++ lit ", Score: "
  ++ toFixed4
       (one_minus
          (match item_distance item with
           | Some distance => distance
           | None => number_one
           end))
  ++ lit "):" ++ [nl] ++ item_text item.

Definition memory_separator : jsstring := [nl] ++ lit "---" ++ [nl].

Definition formattedMemories_of (format : nat -> RecalledMemoryItem -> jsstring)
    (recalledMemories : list RecalledMemoryItem) : jsstring :=
  join memory_separator (mapi format recalledMemories).

(** The block that is prepended; [recall_block_text] is its template. *)
Definition memoryContextBlock (format : nat -> RecalledMemoryItem -> jsstring)
    (recalledMemories : list RecalledMemoryItem) : ContentBlock :=
  TextBlock (recall_block_text (formattedMemories_of format recalledMemories)).

(** The query the handler derives from the content it has cleaned up. *)
Definition userQuery_of (content : list ContentBlock) : jsstring :=
  let userQueryParts := flat_map query_parts_of content in
  let rawUserQuery := join [nl; nl] userQueryParts in
  cleanMessageContent rawUserQuery.

(** [enrichmentPromise]; the two revisions differ in [format] only. *)
Definition enrichmentPromise (format : nat -> RecalledMemoryItem -> jsstring)
    (payload : UserMessageEnrichmentPayload) : M EnrichmentState unit :=
  if negb (str_eqb (enr_taskId payload) this_taskId) then ret tt
  else
    content <- get_userContent ;;
    set_userContent (filter keeps_block content) ;;;
    content <- get_userContent ;;
    let userQuery := userQuery_of content in
    if is_empty userQuery then ret tt
    else
      recalledMemories <-
        lift (enrichWithContextInternal userQuery (currentHistorySlice payload)) ;;
      if (0 <? List.length recalledMemories)%nat then
        unshift_userContent (memoryContextBlock format recalledMemories)
      else ret tt.

Definition settle {A : Type} (o : Outcome A) : Settlement :=
  match o with
  | Returns _ => Fulfilled
  | Throws => Rejected
  end.

(** The handler starts the async body and pushes its promise; the body is
    run to completion here, so the payload returned is the one the caller
    sees after it has awaited the promises. *)
Definition handleBeforeUserMessageEnrichment_with
    (format : nat -> RecalledMemoryItem -> jsstring)
    (payload : UserMessageEnrichmentPayload) (st : State)
    : UserMessageEnrichmentPayload * State :=
  match enrichmentPromise format payload
          {| es_userContent := userContent payload; es_instance := st |} with
  | (o, es) =>
      ({| enr_taskId := enr_taskId payload;
          userContent := es_userContent es;
          currentHistorySlice := currentHistorySlice payload;
          promises := promises payload ++ [settle o] |},
       es_instance es)
  end.

Definition handleBeforeUserMessageEnrichment :=
  handleBeforeUserMessageEnrichment_with formatMemory.

Definition handleBeforeUserMessageEnrichment_sync :=
  handleBeforeUserMessageEnrichment_with formatMemory_sync.

(** *** The storage handler and the history synchronizer *)

Record AssistantResponseProcessedPayload : Type := {
  arp_taskId : jsstring;
  arp_userMessage : Message;
  arp_assistantMessage : Message
}.

Definition handleAfterAssistantResponseProcessed
    (payload : AssistantResponseProcessedPayload) : M State unit :=
  if negb (str_eqb (arp_taskId payload) this_taskId) then ret tt
  else
    storeExchangeInternal (arp_userMessage payload)
      (arp_assistantMessage payload) (arp_taskId payload).

Definition has_role (r : Role) (m : Message) : bool :=
  match msg_role m, r with
  | user, user => true
  | assistant, assistant => true
  | _, _ => false
  end.

(** The loop [for (let i = localStartIndex; i < history.length; i++)], on
    the messages from index [i] on: [history[i]] is the head of [rest] and
    [history[i + 1]] the next one, if any. *)
Fixpoint sync_loop (rest : list Message) (i : Z) : M State unit :=
  match rest with
  | [] => ret tt
  | userMessage :: rest1 =>
      match rest1 with
      | [] => ret tt
      | assistantMessage :: rest2 =>
          if has_role user userMessage && has_role assistant assistantMessage
          then
            storeExchangeInternal_sync userMessage assistantMessage
              this_taskId ;;;
            set_lastStoredMessageIndex (i + 1) ;;;
            sync_loop rest2 (i + 2)
          else sync_loop rest1 (i + 1)
      end
  end.

(** Reading the answer to [get_last_chunk_index]: [response.content[0]] is
    read without a length check, and the index found is used for a log line
    only. *)
Definition read_last_chunk_index (response : McpResponse) : M State unit :=
  match response with
  | Content [] => throw
  | Content (first :: _) =>
      if str_eqb (rb_type first) (lit "text") then
        resultPayload <- parse (rb_text first) ;; ret tt
      else ret tt
  | _ => ret tt
  end.

(** [syncHistory], on the transcript [this.task.apiConversationHistory] as
    it is when the call is made. *)
Definition syncHistory (history : list Message) : M State unit :=
  available <- isAvailable ;;
  if negb available then ret tt
  else
    try_catch
      (response <-
         mcpHub_callTool (lit "get_last_chunk_index")
           (LastChunkIndexArgs this_taskId) ;;
       read_last_chunk_index response ;;;
       cursor <- get_lastStoredMessageIndex ;;
       let localStartIndex := (cursor + 1)%Z in
       if (Z.of_nat (List.length history) <=? localStartIndex)%Z then ret tt
       else sync_loop (skipn (Z.to_nat localStartIndex) history) localStartIndex)
      (ret tt).

Definition completion_signal : jsstring := lit "<attempt_completion>".

Definition handleAfterAssistantResponseProcessed_sync
    (history : list Message) (payload : AssistantResponseProcessedPayload)
    : M State unit :=
  if negb (str_eqb (arp_taskId payload) this_taskId) then ret tt
  else
    let assistantMessageText := message_text (arp_assistantMessage payload) in
    if includes assistantMessageText completion_signal then syncHistory history
    else ret tt.

(** A run of [syncHistory] calls, one per transcript of the list. *)
Fixpoint sync_all (histories : list (list Message)) (st : State) : State :=
  match histories with
  | [] => st
  | history :: later => sync_all later (snd (syncHistory history st))
  end.

(** The cursor after each call of such a run. *)
Fixpoint cursor_trace (histories : list (list Message)) (st : State) : list Z :=
  match histories with
  | [] => []
  | history :: later =>
      let st' := snd (syncHistory history st) in
      lastStoredMessageIndex st' :: cursor_trace later st'
  end.

(** *** The extraction rule of the specification

    Section 4.4 in its own words, to compare the source with: text blocks
    and tool results contribute, a tool result by the text extracted from its
    nested content in the same way, and the parts are joined by a blank
    line. *)
Definition spec_inner_text (l : list InnerBlock) : jsstring :=
  join [nl; nl] (flat_map inner_text_parts l).

Definition spec_block_parts (block : ContentBlock) : list jsstring :=
  match block with
  | TextBlock text => [text]
  | ToolResultBlock _ (ContentString s) => [s]
  | ToolResultBlock _ (ContentBlocks l) => [spec_inner_text l]
  | _ => []
  end.

Definition spec_extract_text (content : MessageContent) : jsstring :=
  match content with
  | StringContent s => s
  | BlockContent l => join [nl; nl] (flat_map spec_block_parts l)
  end.

Definition is_tool_result (block : ContentBlock) : bool :=
  match block with ToolResultBlock _ _ => true | _ => false end.

(** The conversation context as section 4.3 words it: the derived text of
    each of the last six entries, sanitized. *)
Definition spec_conversationContext (recentHistory : list Message) : jsstring :=
  join [nl]
    (map (fun msg =>
            role_name (msg_role msg) ++ lit ": "
            ++ cleanMessageContent (spec_extract_text (msg_content msg)))
       (slice_last 6 recentHistory)).

(* ===================================================================== *)
(** ** Facts about the operations                                         *)
(* ===================================================================== *)

(** The state after one more look-up of the registry. *)
Definition probed (st : State) : State :=
  {| lastStoredMessageIndex := lastStoredMessageIndex st;
     calls := calls st;
     probes := S (probes st) |}.

(** The state after one more tool call. *)
Definition called (c : ToolCall) (st : State) : State :=
  {| lastStoredMessageIndex := lastStoredMessageIndex st;
     calls := calls st ++ [c];
     probes := probes st |}.

Definition tool_call (tool : jsstring) (args : ToolArgs) : ToolCall :=
  {| call_server := semanticMemoryServerName;
     call_tool := tool; call_args := args |}.

Ltac run :=
  unfold parse in *;
  unfold bind, try_catch, ret, throw, isAvailable, mcpHub_callTool,
    set_lastStoredMessageIndex, get_lastStoredMessageIndex in *;
  cbv beta iota.

(** Case analysis on an innermost scrutinee of the goal. *)
Ltac split_match :=
  match goal with
  | |- context [match ?x with _ => _ end] =>
      lazymatch x with
      | context [match _ with _ => _ end] => fail
      | _ => destruct x eqn:?
      end
  end;
  cbv beta iota.

Lemma str_eqb_eq (a b : jsstring) : str_eqb a b = true <-> a = b.
Proof.
  unfold str_eqb. destruct (list_eq_dec N.eq_dec a b); split; congruence.
Qed.

Lemma str_eqb_refl (a : jsstring) : str_eqb a a = true.
Proof. apply str_eqb_eq. reflexivity. Qed.

Lemma str_eqb_neq (a b : jsstring) : a <> b -> str_eqb a b = false.
Proof.
  intros H. unfold str_eqb. destruct (list_eq_dec N.eq_dec a b); congruence.
Qed.

(** A registry without a connected entry of the service is reported as
    unavailable. *)
Lemma isAvailable_of_none (servers : list McpServer) :
  (forall server, In server servers ->
     srv_name server = semanticMemoryServerName ->
     srv_status server <> lit "connected") ->
  isAvailable_of servers = false.
Proof.
  intros H. unfold isAvailable_of.
  destruct (find _ servers) as [server|] eqn:E; [|reflexivity].
  apply find_some in E. destruct E as [Hin Hname].
  apply str_eqb_neq. apply H; [exact Hin|]. apply str_eqb_eq. exact Hname.
Qed.

Lemma enrich_unavailable (query : jsstring) (history : list Message)
    (st : State) :
  isAvailable_of (getServers (probes st)) = false ->
  enrichWithContextInternal query history st = (Returns [], probed st).
Proof.
  intros H. unfold enrichWithContextInternal. run. rewrite H. reflexivity.
Qed.

Lemma store_unavailable (u a : Message) (taskId : jsstring) (st : State) :
  isAvailable_of (getServers (probes st)) = false ->
  storeExchangeInternal u a taskId st = (Returns tt, probed st).
Proof.
  intros H. unfold storeExchangeInternal. run. rewrite H. reflexivity.
Qed.

Lemma store_sync_unavailable (u a : Message) (taskId : jsstring) (st : State) :
  isAvailable_of (getServers (probes st)) = false ->
  storeExchangeInternal_sync u a taskId st = (Returns tt, probed st).
Proof.
  intros H. unfold storeExchangeInternal_sync. run. rewrite H. reflexivity.
Qed.

(** The call that [enrichWithContextInternal] makes when the service is
    available. *)
Definition enrich_call (query : jsstring) (history : list Message) : ToolCall :=
  tool_call (lit "enrich_context")
    (EnrichContextMcpArgs query (conversationContextString history) 3).

(** [enrichWithContextInternal] catches every failure of the call and of
    the parsing of its answer. *)
Lemma enrich_returns (query : jsstring) (history : list Message) (st : State) :
  exists memories st',
    enrichWithContextInternal query history st = (Returns memories, st')
    /\ lastStoredMessageIndex st' = lastStoredMessageIndex st
    /\ (calls st' = calls st \/ calls st' = calls st ++ [enrich_call query history]).
Proof.
  unfold enrichWithContextInternal. run.
  destruct (isAvailable_of (getServers (probes st))); cbn [negb];
    cbv beta iota.
  - repeat split_match;
      do 2 eexists; (split; [reflexivity|]); (split; [reflexivity|]);
      right; reflexivity.
  - do 2 eexists. split; [reflexivity|]. split; [reflexivity|].
    left. reflexivity.
Qed.

Lemma enrich_available_calls (query : jsstring) (history : list Message)
    (st : State) :
  isAvailable_of (getServers (probes st)) = true ->
  calls (snd (enrichWithContextInternal query history st))
  = calls st ++ [enrich_call query history].
Proof.
  intros H. unfold enrichWithContextInternal. run. rewrite H. cbn [negb].
  cbv beta iota.
  repeat split_match; reflexivity.
Qed.

Lemma read_store_response_state (r : McpResponse) (st : State) :
  snd (read_store_response r st) = st.
Proof.
  unfold read_store_response. run.
  repeat split_match; reflexivity.
Qed.

(** The store operation never throws and never moves the cursor. *)
Lemma store_returns (u a : Message) (taskId : jsstring) (st : State) :
  exists st',
    storeExchangeInternal u a taskId st = (Returns tt, st')
    /\ lastStoredMessageIndex st' = lastStoredMessageIndex st.
Proof.
  unfold storeExchangeInternal, read_store_response. run.
  repeat split_match; eexists; split; reflexivity.
Qed.

Lemma store_sync_returns (u a : Message) (taskId : jsstring) (st : State) :
  exists st',
    storeExchangeInternal_sync u a taskId st = (Returns tt, st')
    /\ lastStoredMessageIndex st' = lastStoredMessageIndex st.
Proof.
  unfold storeExchangeInternal_sync, read_store_response. run.
  repeat split_match; eexists; split; reflexivity.
Qed.

(** *** The synchronizer *)

(** [c] is the index of an assistant message that immediately follows a
    user message of [history]. *)
Definition is_pair_end (history : list Message) (c : Z) : Prop :=
  (1 <= c)%Z
  /\ option_map msg_role (nth_error history (Z.to_nat (c - 1))) = Some user
  /\ option_map msg_role (nth_error history (Z.to_nat c)) = Some assistant.

Lemma skipn_cons_nth {A : Type} (n : nat) (l r : list A) (x : A) :
  skipn n l = x :: r -> nth_error l n = Some x /\ skipn (S n) l = r.
Proof.
  revert l. induction n as [|n IH]; intros l H.
  - destruct l; simpl in H; [discriminate|]. injection H as -> ->.
    split; reflexivity.
  - destruct l as [|y l]; simpl in H; [discriminate|].
    apply IH in H. exact H.
Qed.

Lemma has_role_eq (r : Role) (m : Message) :
  has_role r m = true -> msg_role m = r.
Proof. unfold has_role. destruct (msg_role m), r; congruence. Qed.

Lemma sync_loop_step (u m : Message) (rest2 : list Message) (i : Z) :
  sync_loop (u :: m :: rest2) i
  = if has_role user u && has_role assistant m
    then
      storeExchangeInternal_sync u m this_taskId ;;;
      set_lastStoredMessageIndex (i + 1) ;;;
      sync_loop rest2 (i + 2)
    else sync_loop (m :: rest2) (i + 1).
Proof. reflexivity. Qed.

Lemma sync_loop_cursor (history : list Message) (n : nat) :
  forall (rest : list Message) (i : Z) (st : State),
    (List.length rest <= n)%nat ->
    (0 <= i)%Z ->
    skipn (Z.to_nat i) history = rest ->
    lastStoredMessageIndex (snd (sync_loop rest i st))
    = lastStoredMessageIndex st
    \/ ((i + 1 <= lastStoredMessageIndex (snd (sync_loop rest i st)))%Z
        /\ is_pair_end history
             (lastStoredMessageIndex (snd (sync_loop rest i st)))).
Proof.
  induction n as [|n IH]; intros rest i st Hn Hi Hrest.
  - destruct rest; [left; reflexivity | simpl in Hn; lia].
  - destruct rest as [|u [|m rest2]]; [left; reflexivity | left; reflexivity|].
    apply skipn_cons_nth in Hrest. destruct Hrest as [Hu Hrest].
    pose proof Hrest as Hrest'.
    apply skipn_cons_nth in Hrest'. destruct Hrest' as [Hm Hrest2].
    assert (E1 : Z.to_nat (i + 1) = S (Z.to_nat i)) by lia.
    assert (E2 : Z.to_nat (i + 2) = S (S (Z.to_nat i))) by lia.
    rewrite sync_loop_step.
    destruct (has_role user u && has_role assistant m) eqn:Hpair.
    + apply andb_true_iff in Hpair. destruct Hpair as [Ru Rm].
      apply has_role_eq in Ru. apply has_role_eq in Rm.
      destruct (store_sync_returns u m this_taskId st) as [st1 [Es Cs]].
      set (st2 := {| lastStoredMessageIndex := (i + 1)%Z;
                     calls := calls st1; probes := probes st1 |}).
      assert (Eq : (storeExchangeInternal_sync u m this_taskId ;;;
                    set_lastStoredMessageIndex (i + 1) ;;;
                    sync_loop rest2 (i + 2)) st
                   = sync_loop rest2 (i + 2)%Z st2)
        by (unfold bind; rewrite Es; reflexivity).
      rewrite Eq. clear Eq.
      assert (Hend : is_pair_end history (i + 1)).
      { unfold is_pair_end.
        replace (i + 1 - 1)%Z with i by lia. rewrite E1, Hu, Hm. simpl.
        rewrite Ru, Rm. repeat split; try reflexivity. lia. }
      destruct (IH rest2 (i + 2)%Z st2) as [Hc|[Hc Hp]].
      * simpl in Hn. lia.
      * lia.
      * rewrite E2. exact Hrest2.
      * right. rewrite Hc. simpl. split; [lia | exact Hend].
      * right. split; [lia | exact Hp].
    + cbv beta iota.
      destruct (IH (m :: rest2) (i + 1)%Z st) as [Hc|[Hc Hp]].
      * simpl in Hn |- *. lia.
      * lia.
      * rewrite E1. exact Hrest.
      * left. exact Hc.
      * right. split; [lia | exact Hp].
Qed.

Lemma read_last_chunk_index_cases (r : McpResponse) (st : State) :
  read_last_chunk_index r st = (Returns tt, st)
  \/ read_last_chunk_index r st = (Throws, st).
Proof.
  unfold read_last_chunk_index. run.
  repeat split_match; (left; reflexivity) || (right; reflexivity).
Qed.

Lemma bind_unfold {S A B : Type} (m : M S A) (f : A -> M S B) (st : S) :
  bind m f st
  = match m st with
    | (Returns a, st') => f a st'
    | (Throws, st') => (Throws, st')
    end.
Proof. reflexivity. Qed.

Lemma bind_isAvailable {A : Type} (f : bool -> M State A) (st : State) :
  bind isAvailable f st
  = f (isAvailable_of (getServers (probes st))) (probed st).
Proof. reflexivity. Qed.

Lemma bind_callTool {A : Type} (tool : jsstring) (args : ToolArgs)
    (f : McpResponse -> M State A) (st : State) :
  bind (mcpHub_callTool tool args) f st
  = match callTool (List.length (calls st)) (tool_call tool args) with
    | CallRejects => (Throws, called (tool_call tool args) st)
    | CallResolves r => f r (called (tool_call tool args) st)
    end.
Proof.
  unfold bind, mcpHub_callTool, tool_call, called.
  destruct (callTool _ _); reflexivity.
Qed.

Lemma snd_try_catch_ret {A : Type} (m : M State A) (a : A) (st : State) :
  snd (try_catch m (ret a) st) = snd (m st).
Proof. unfold try_catch, ret. destruct (m st) as [[b|] st']; reflexivity. Qed.

(** One call of [syncHistory] leaves the cursor where it is, or moves it
    forward to the end of a pair. *)
Lemma syncHistory_cursor (history : list Message) (st : State) :
  (-1 <= lastStoredMessageIndex st)%Z ->
  lastStoredMessageIndex (snd (syncHistory history st))
  = lastStoredMessageIndex st
  \/ ((lastStoredMessageIndex st
       < lastStoredMessageIndex (snd (syncHistory history st)))%Z
      /\ is_pair_end history
           (lastStoredMessageIndex (snd (syncHistory history st)))).
Proof.
  intros Hinv. unfold syncHistory. rewrite bind_isAvailable.
  destruct (isAvailable_of (getServers (probes st))); cbn [negb];
    cbv beta iota; [|left; reflexivity].
  rewrite snd_try_catch_ret, bind_callTool.
  destruct (callTool _ _) as [|r]; [left; reflexivity|].
  set (st1 := called _ (probed st)).
  rewrite bind_unfold.
  destruct (read_last_chunk_index_cases r st1) as [-> | ->];
    [|left; reflexivity].
  rewrite bind_unfold. unfold get_lastStoredMessageIndex.
  change (lastStoredMessageIndex st1) with (lastStoredMessageIndex st).
  destruct (Z.of_nat (List.length history) <=? lastStoredMessageIndex st + 1)%Z;
    [left; reflexivity|].
  destruct (sync_loop_cursor history
              (List.length
                 (skipn (Z.to_nat (lastStoredMessageIndex st + 1)) history))
              (skipn (Z.to_nat (lastStoredMessageIndex st + 1)) history)
              (lastStoredMessageIndex st + 1)%Z st1
              (le_n _) ltac:(lia) eq_refl) as [Hc|[Hc Hp]].
  - left. exact Hc.
  - right. split; [lia | exact Hp].
Qed.

(** What holds of the cursor after each call of a run: it is not below the
    previous value, and it is that value or the end of a pair of the
    transcript of the call. *)
Fixpoint trace_ok (previous : Z) (histories : list (list Message))
    (trace : list Z) : Prop :=
  match histories, trace with
  | [], [] => True
  | history :: later, c :: trace' =>
      (previous <= c)%Z
      /\ (c = previous \/ is_pair_end history c)
      /\ trace_ok c later trace'
  | _, _ => False
  end.

Lemma cursor_trace_ok (histories : list (list Message)) :
  forall st : State,
    (-1 <= lastStoredMessageIndex st)%Z ->
    trace_ok (lastStoredMessageIndex st) histories (cursor_trace histories st)
    /\ (-1 <= lastStoredMessageIndex (sync_all histories st))%Z.
Proof.
  induction histories as [|history later IH]; intros st Hinv.
  - split; [exact I | exact Hinv].
  - cbn [cursor_trace sync_all trace_ok].
    destruct (syncHistory_cursor history st Hinv) as [Hc|[Hc Hp]].
    + destruct (IH (snd (syncHistory history st))) as [Ht Hi].
      * rewrite Hc. exact Hinv.
      * repeat split; try assumption; [lia | left; exact Hc].
    + destruct (IH (snd (syncHistory history st))) as [Ht Hi].
      * lia.
      * repeat split; try assumption; [lia | right; exact Hp].
Qed.

(* ===================================================================== *)
(** ** Properties of the synchronizer, the handlers and the client        *)
(* ===================================================================== *)

(** C2, amended: for every non-empty list of recalled memory items whose
    formatted text holds neither the closing recall marker nor an opening
    [<environment_details>] tag, the recall block the enrichment handler
    builds (of either revision) is removed entirely by the sanitizer: nothing
    of it is left to be stored or queried. *)
Theorem recall_block_is_removed
    (format : nat -> RecalledMemoryItem -> jsstring)
    (recalledMemories : list RecalledMemoryItem) :
  format = formatMemory \/ format = formatMemory_sync ->
  recalledMemories <> [] ->
  includes (formattedMemories_of format recalledMemories) recall_close
  = false ->
  includes (formattedMemories_of format recalledMemories)
    environment_details_open = false ->
  memoryContextBlock format recalledMemories
  = TextBlock (recall_block_text
                 (formattedMemories_of format recalledMemories))
  /\ cleanMessageContent
       (recall_block_text (formattedMemories_of format recalledMemories))
     = [].
Proof.
  intros _ _ Hclose Henv. split; [reflexivity|].
  apply clean_recall_block; assumption.
Qed.

(** *** The enrichment handler, case by case *)

Definition enriched_content (format : nat -> RecalledMemoryItem -> jsstring)
    (recalledMemories : list RecalledMemoryItem) (content : list ContentBlock)
    : list ContentBlock :=
  if (0 <? List.length recalledMemories)%nat
  then memoryContextBlock format recalledMemories :: content
  else content.

Lemma enrichmentPromise_other_task format
    (p : UserMessageEnrichmentPayload) (es : EnrichmentState) :
  enr_taskId p <> this_taskId ->
  enrichmentPromise format p es = (Returns tt, es).
Proof.
  intros H. unfold enrichmentPromise.
  rewrite (str_eqb_neq _ _ H). reflexivity.
Qed.

Lemma enrichmentPromise_this_task format
    (p : UserMessageEnrichmentPayload) (content : list ContentBlock)
    (st : State) :
  enr_taskId p = this_taskId ->
  enrichmentPromise format p
    {| es_userContent := content; es_instance := st |}
  = if is_empty (userQuery_of (filter keeps_block content))
    then (Returns tt,
          {| es_userContent := filter keeps_block content;
             es_instance := st |})
    else
      match enrichWithContextInternal
              (userQuery_of (filter keeps_block content))
              (currentHistorySlice p) st with
      | (Returns recalledMemories, st') =>
          (Returns tt,
           {| es_userContent :=
                enriched_content format recalledMemories
                  (filter keeps_block content);
              es_instance := st' |})
      | (Throws, st') =>
          (Throws,
           {| es_userContent := filter keeps_block content;
              es_instance := st' |})
      end.
Proof.
  intros H. unfold enrichmentPromise. rewrite H, str_eqb_refl.
  cbn [negb]. cbv iota.
  cbv beta iota delta [bind get_userContent set_userContent lift
                         unshift_userContent enriched_content ret
                         es_userContent es_instance].
  destruct (is_empty _); [reflexivity|].
  destruct (enrichWithContextInternal _ _ st) as [[recalled|] st'];
    [|reflexivity].
  destruct (0 <? List.length recalled)%nat; reflexivity.
Qed.

Lemma enrichmentPromise_returns format
    (p : UserMessageEnrichmentPayload) (es : EnrichmentState) :
  exists es', enrichmentPromise format p es = (Returns tt, es').
Proof.
  destruct (list_eq_dec N.eq_dec (enr_taskId p) this_taskId) as [E|E].
  - destruct es as [content st].
    rewrite (enrichmentPromise_this_task format p content st E).
    destruct (is_empty _); [eexists; reflexivity|].
    destruct (enrich_returns
                (userQuery_of (filter keeps_block content))
                (currentHistorySlice p) st) as [memories [st' [-> _]]].
    eexists. reflexivity.
  - exists es. apply enrichmentPromise_other_task. exact E.
Qed.

(** C4: an event whose taskId differs from the task of the instance is
    ignored: the enrichment handler leaves [userContent] as it is, the
    storage handler does nothing, and neither of them looks up the registry,
    calls the service or moves the cursor (the state is unchanged).  The
    enrichment handler still pushes its promise, which is fulfilled. *)
Theorem mismatched_taskId_is_ignored
    (p : UserMessageEnrichmentPayload) (a : AssistantResponseProcessedPayload)
    (history : list Message) (st : State) :
  enr_taskId p <> this_taskId ->
  arp_taskId a <> this_taskId ->
  handleBeforeUserMessageEnrichment p st
  = ({| enr_taskId := enr_taskId p;
        userContent := userContent p;
        currentHistorySlice := currentHistorySlice p;
        promises := promises p ++ [Fulfilled] |}, st)
  /\ handleBeforeUserMessageEnrichment_sync p st
     = handleBeforeUserMessageEnrichment p st
  /\ handleAfterAssistantResponseProcessed a st = (Returns tt, st)
  /\ handleAfterAssistantResponseProcessed_sync history a st = (Returns tt, st).
Proof.
  intros Hp Ha.
  unfold handleBeforeUserMessageEnrichment,
    handleBeforeUserMessageEnrichment_sync,
    handleBeforeUserMessageEnrichment_with.
  rewrite !(enrichmentPromise_other_task _ p _ Hp).
  unfold handleAfterAssistantResponseProcessed,
    handleAfterAssistantResponseProcessed_sync.
  rewrite (str_eqb_neq _ _ Ha).
  repeat split; reflexivity.
Qed.

(** C5: when the probe reports the service unavailable, [enrichContext]
    returns the empty array and [storeExchange] returns, both without a
    remote call and without any effect but the look-up of the registry. *)
Theorem unavailable_service_is_not_called
    (query : jsstring) (recentHistory : list Message)
    (userMessage assistantMessage : Message) (taskId : jsstring) (st : State) :
  isAvailable_of (getServers (probes st)) = false ->
  enrichWithContextInternal query recentHistory st = (Returns [], probed st)
  /\ storeExchangeInternal userMessage assistantMessage taskId st
     = (Returns tt, probed st)
  /\ storeExchangeInternal_sync userMessage assistantMessage taskId st
     = (Returns tt, probed st)
  /\ calls (probed st) = calls st
  /\ lastStoredMessageIndex (probed st) = lastStoredMessageIndex st.
Proof.
  intros H. repeat split.
  - apply enrich_unavailable. exact H.
  - apply store_unavailable. exact H.
  - apply store_sync_unavailable. exact H.
Qed.


(** *** The text that is stored *)

Lemma spec_parts_without_tool_results (l : list ContentBlock) :
  flat_map spec_block_parts (filter (fun b => negb (is_tool_result b)) l)
  = map block_text (filter is_text_block l).
Proof.
  induction l as [|b l IH]; [reflexivity|].
  destruct b; simpl; rewrite ?IH; reflexivity.
Qed.

Definition store_call (userMessage assistantMessage : Message)
    (taskId : jsstring) : ToolCall :=
  tool_call (lit "store_exchange")
    (StoreExchangeMcpPayload
       (cleanMessageContent (message_text userMessage))
       (cleanMessageContent (message_text assistantMessage))
       taskId (msg_ts userMessage) (msg_ts assistantMessage)).

Lemma store_available_calls (u a : Message) (taskId : jsstring) (st : State) :
  isAvailable_of (getServers (probes st)) = true ->
  is_empty (cleanMessageContent (message_text u))
  && is_empty (cleanMessageContent (message_text a)) = false ->
  calls (snd (storeExchangeInternal u a taskId st))
  = calls st ++ [store_call u a taskId].
Proof.
  intros H He. unfold storeExchangeInternal. rewrite bind_isAvailable, H.
  cbn [negb]. cbv iota. rewrite He.
  rewrite snd_try_catch_ret, bind_callTool.
  destruct (callTool _ _) as [|r]; [reflexivity|].
  rewrite read_store_response_state. reflexivity.
Qed.

(** C7, amended: for a message whose content is a block array, the storage
    text concatenates, in order, the text of every text block with a blank
    line between them, and every other block, tool results included,
    contributes nothing; it is the text the specification's rule derives
    from the content without its tool results.  The store operation of the
    revision under src/integrations sends the sanitized form of this text
    for both messages. *)
Theorem storage_text_is_text_blocks_only
    (l : list ContentBlock) (r : Role) (ts : option number) :
  message_text {| msg_role := r; msg_content := BlockContent l; msg_ts := ts |}
  = spec_extract_text
      (BlockContent (filter (fun b => negb (is_tool_result b)) l))
  /\ (forall (userMessage assistantMessage : Message) (taskId : jsstring)
             (st : State),
        isAvailable_of (getServers (probes st)) = true ->
        is_empty (cleanMessageContent (message_text userMessage))
        && is_empty (cleanMessageContent (message_text assistantMessage))
        = false ->
        calls (snd (storeExchangeInternal userMessage assistantMessage
                      taskId st))
        = calls st ++ [store_call userMessage assistantMessage taskId]).
Proof.
  split.
  - unfold message_text, text_of_blocks, spec_extract_text.
    cbn [msg_content]. rewrite spec_parts_without_tool_results. reflexivity.
  - intros u a taskId st. apply store_available_calls.
Qed.

(** *** The conversation context *)

(** An entry on which joining with a space and joining with a blank line
    agree: a string, or blocks with at most one text block and no tool
    result. *)
Definition plain_entry (m : Message) : bool :=
  match msg_content m with
  | StringContent _ => true
  | BlockContent l =>
      (List.length (filter is_text_block l) <=? 1)%nat
      && forallb (fun b => negb (is_tool_result b)) l
  end.

Lemma slice_last_length {A : Type} (n : nat) (l : list A) :
  List.length (slice_last n l) = Nat.min n (List.length l).
Proof. unfold slice_last. rewrite length_skipn. lia. Qed.

Lemma slice_last_suffix {A : Type} (n : nat) (l : list A) :
  firstn (List.length l - n) l ++ slice_last n l = l.
Proof. unfold slice_last. apply firstn_skipn. Qed.

Lemma join_at_most_one (sep sep' : jsstring) (parts : list jsstring) :
  (List.length parts <= 1)%nat -> join sep parts = join sep' parts.
Proof.
  destruct parts as [|p [|q parts]]; simpl; intros H;
    [reflexivity | reflexivity | lia].
Qed.

Lemma plain_entry_line (m : Message) :
  plain_entry m = true ->
  context_line m
  = role_name (msg_role m) ++ lit ": "
    ++ cleanMessageContent (spec_extract_text (msg_content m)).
Proof.
  unfold plain_entry, context_line, spec_extract_text, text_of_blocks.
  destruct (msg_content m) as [s|l]; [reflexivity|].
  intros H. apply andb_true_iff in H. destruct H as [Hone Hnone].
  apply Nat.leb_le in Hone.
  rewrite <- (forallb_filter_id _ _ Hnone) at 2.
  rewrite spec_parts_without_tool_results.
  rewrite (join_at_most_one (lit " ") [nl; nl]);
    [reflexivity | rewrite length_map; exact Hone].
Qed.

(** C8, amended: the [conversationContext] sent to the service is built from
    the last six history entries (all of them when there are fewer), one
    line [role: text] per entry joined by line feeds, where text is the
    sanitized content string or, for a block array, the sanitized texts of
    its text blocks joined by single spaces; tool results contribute
    nothing.  It is the context of the specification's extraction rule when
    every one of these entries is a string or has at most one text block and
    no tool result. *)
Theorem conversation_context_construction
    (query : jsstring) (recentHistory : list Message) (st : State) :
  isAvailable_of (getServers (probes st)) = true ->
  calls (snd (enrichWithContextInternal query recentHistory st))
  = calls st
    ++ [tool_call (lit "enrich_context")
          (EnrichContextMcpArgs query
             (join [nl] (map context_line (slice_last 6 recentHistory))) 3)]
  /\ List.length (slice_last 6 recentHistory)
     = Nat.min 6 (List.length recentHistory)
  /\ firstn (List.length recentHistory - 6) recentHistory
     ++ slice_last 6 recentHistory = recentHistory
  /\ (forallb plain_entry (slice_last 6 recentHistory) = true ->
      conversationContextString recentHistory
      = spec_conversationContext recentHistory).
Proof.
  intros H. split; [exact (enrich_available_calls query recentHistory st H)|].
  split; [apply slice_last_length|].
  split; [apply slice_last_suffix|].
  intros Hplain. unfold conversationContextString, spec_conversationContext.
  f_equal. apply map_ext_in. intros m Hm.
  apply plain_entry_line.
  rewrite forallb_forall in Hplain. apply Hplain. exact Hm.
Qed.

(** C9, amended: for an event with the taskId of the instance, the storage
    handler of the revision with the synchronizer runs a full [syncHistory]
    pass when the derived assistant text contains the completion marker, and
    does nothing otherwise: it stores no single exchange.  The storage
    handler of the revision under src/integrations has no completion check
    and stores the single exchange in every case. *)
Theorem storage_handler_behaviour
    (a : AssistantResponseProcessedPayload) (history : list Message)
    (st : State) :
  arp_taskId a = this_taskId ->
  (includes (message_text (arp_assistantMessage a)) completion_signal = true ->
   handleAfterAssistantResponseProcessed_sync history a st
   = syncHistory history st)
  /\ (includes (message_text (arp_assistantMessage a)) completion_signal = false ->
      handleAfterAssistantResponseProcessed_sync history a st = (Returns tt, st))
  /\ handleAfterAssistantResponseProcessed a st
     = storeExchangeInternal (arp_userMessage a) (arp_assistantMessage a)
         (arp_taskId a) st.
Proof.
  intros H.
  unfold handleAfterAssistantResponseProcessed_sync,
    handleAfterAssistantResponseProcessed.
  rewrite H, str_eqb_refl. cbn [negb]. cbv iota.
  repeat split; intros ->; reflexivity.
Qed.

(** On recalled items of the declared type the promise the handler pushes
    is fulfilled in every case: every failure of the remote call is caught
    inside.  Items as they are parsed are dealt with further on. *)
Lemma promise_is_fulfilled_on_declared_items
    (p : UserMessageEnrichmentPayload) (st : State) :
  promises (fst (handleBeforeUserMessageEnrichment p st))
  = promises p ++ [Fulfilled]
  /\ promises (fst (handleBeforeUserMessageEnrichment_sync p st))
     = promises p ++ [Fulfilled].
Proof.
  unfold handleBeforeUserMessageEnrichment,
    handleBeforeUserMessageEnrichment_sync,
    handleBeforeUserMessageEnrichment_with.
  split.
  - destruct (enrichmentPromise_returns formatMemory p
                {| es_userContent := userContent p; es_instance := st |})
      as [es' ->].
    reflexivity.
  - destruct (enrichmentPromise_returns formatMemory_sync p
                {| es_userContent := userContent p; es_instance := st |})
      as [es' ->].
    reflexivity.
Qed.

(* ===================================================================== *)
(** ** More of the code: the scan, the core identity, the first revision  *)
(* ===================================================================== *)

(** *** What the synchronizer scans *)

(** The cursor the loop of [syncHistory] reaches on the messages [rest] from
    index [i] on, read off the roles alone. *)
Fixpoint scan_end (rest : list Message) (i : Z) (cursor : Z) : Z :=
  match rest with
  | [] => cursor
  | userMessage :: rest1 =>
      match rest1 with
      | [] => cursor
      | assistantMessage :: rest2 =>
          if has_role user userMessage && has_role assistant assistantMessage
          then scan_end rest2 (i + 2) (i + 1)
          else scan_end rest1 (i + 1) cursor
      end
  end.

(** [history[j]] is a user message and [history[j + 1]] an assistant
    message. *)
Definition starts_pair (history : list Message) (j : nat) : bool :=
  match nth_error history j, nth_error history (S j) with
  | Some userMessage, Some assistantMessage =>
      has_role user userMessage && has_role assistant assistantMessage
  | _, _ => false
  end.

(** Whether [read_last_chunk_index] gets through the answer without
    throwing. *)
Definition last_chunk_index_is_read (response : McpResponse) : bool :=
  match response with
  | Content [] => false
  | Content (first :: _) =>
      if str_eqb (rb_type first) (lit "text") then
        match JSON_parse (rb_text first) with
        | Some _ => true
        | None => false
        end
      else true
  | _ => true
  end.

Definition last_chunk_index_call : ToolCall :=
  tool_call (lit "get_last_chunk_index") (LastChunkIndexArgs this_taskId).

(** A call of the tool [store_exchange] that carries the taskId of the
    instance. *)
Definition is_store_call (c : ToolCall) : Prop :=
  exists userMessage assistantResponse userTimestamp assistantTimestamp,
    c = tool_call (lit "store_exchange")
          (StoreExchangeMcpPayload userMessage assistantResponse this_taskId
             userTimestamp assistantTimestamp).

(** [finalUserMessageToStore] of the later revision. *)
Definition finalUserMessageToStore_of (userMessageText : jsstring) : jsstring :=
  match user_message_section userMessageText with
  | Some inner => if is_empty inner then userMessageText else trim inner
  | None => userMessageText
  end.

Definition store_sync_call (userMessage assistantMessage : Message)
    (taskId : jsstring) : ToolCall :=
  tool_call (lit "store_exchange")
    (StoreExchangeMcpPayload
       (finalUserMessageToStore_of (message_text userMessage))
       (cleanMessageContent (message_text assistantMessage))
       taskId (msg_ts userMessage) (msg_ts assistantMessage)).

(** *** The core identity

    [getCoreIdentity] of the later revision (src/unnamed/part_002) and
    [getCoreIdentityPrompt] of src/core/prompts/system.ts call the tool
    [get_core_identity] with no arguments and read [success] and [identity]
    of the parsed answer. *)

Variable json : Type.                         (* an object, [null] excluded *)
Variable JSON_stringify : json -> jsstring.   (* JSON.stringify(o, null, 2) *)

(** What the source reads of the parsed envelope: the truthiness of
    [success], and [identity] when [typeof identity === "object"] and it is
    not [null]. *)
Record IdentityPayload : Type := {
  id_success : bool;
  identity : option json
}.

(** [JSON.parse] on the answer to [get_core_identity]; [None] when it
    throws, or when reading a property of its result throws. *)
Variable JSON_parse_identity : jsstring -> option IdentityPayload.

(** The outcome of a [get_core_identity] call made after n earlier tool
    calls. *)
Variable callTool_identity : nat -> CallOutcome.

(** The instance together with the number of [get_core_identity] calls made
    on its hub. *)
Record HubState : Type := {
  hub_instance : State;
  identity_requests : nat
}.

Definition lift_hub {A : Type} (m : M State A) : M HubState A :=
  fun hs =>
    match m (hub_instance hs) with
    | (o, st') =>
        (o, {| hub_instance := st';
               identity_requests := identity_requests hs |})
    end.

(** [await mcpHub.callTool(semanticMemoryServerName, "get_core_identity",
    {})] *)
Definition callTool_get_core_identity : M HubState McpResponse :=
  fun hs =>
    let hs' := {| hub_instance := hub_instance hs;
                  identity_requests := S (identity_requests hs) |} in
    match callTool_identity
            (List.length (calls (hub_instance hs)) + identity_requests hs) with
    | CallRejects => (Throws, hs')
    | CallResolves r => (Returns r, hs')
    end.

Definition parse_identity {S : Type} (text : jsstring) : M S IdentityPayload :=
  match JSON_parse_identity text with
  | Some p => ret p
  | None => throw
  end.

(** [getCoreIdentity]; [None] is [null]. *)
Definition getCoreIdentity : M HubState (option jsstring) :=
  available <- lift_hub isAvailable ;;
  if negb available then ret None
  else
    try_catch
      (response <- callTool_get_core_identity ;;
       match response with
       | Content (first :: _) =>
           if str_eqb (rb_type first) (lit "text") then
             resultPayload <- parse_identity (rb_text first) ;;
             if id_success resultPayload then
               match identity resultPayload with
               | Some o => ret (Some (JSON_stringify o))
               | None => ret None
               end
             else ret None
           else ret None
       | _ => ret None
       end)
      (ret None).

Definition missing_hub_prompt : jsstring :=
  lit "[CRITICAL] My core identity is missing because the MCP hub is not available. I must use the 'get_core_identity' tool from the 'semantic-memory' server to retrieve it before proceeding with any other action."
  ++ [nl; nl].

Definition missing_server_prompt : jsstring :=
  lit "[CRITICAL] My core identity is missing because the semantic-memory server is not available. I must use the 'get_core_identity' tool from the 'semantic-memory' server to retrieve it before proceeding with any other action."
  ++ [nl; nl].

Definition missing_identity_prompt : jsstring :=
  lit "[CRITICAL] My core identity is missing. I must use the 'get_core_identity' tool from the 'semantic-memory' server to retrieve it before proceeding with any other action."
  ++ [nl; nl].

(** [getCoreIdentityPrompt(mcpHub?)]; [mcpHub] tells whether the optional
    argument is given.  The [try] block returns the identity text when it
    finds one; in every other case, a caught error included, the function
    falls through to its last statement. *)
Definition getCoreIdentityPrompt (mcpHub : bool) : M HubState jsstring :=
  if negb mcpHub then ret missing_hub_prompt
  else
    available <- lift_hub isAvailable ;;
    if negb available then ret missing_server_prompt
    else
      returned <-
        try_catch
          (response <- callTool_get_core_identity ;;
           match response with
           | Content (first :: _) =>
               if str_eqb (rb_type first) (lit "text") then
                 resultPayload <- parse_identity (rb_text first) ;;
                 if id_success resultPayload then
                   match identity resultPayload with
                   | Some o => ret (Some (JSON_stringify o ++ [nl; nl]))
                   | None => ret None
                   end
                 else ret None
               else ret None
           | _ => ret None
           end)
          (ret None) ;;
      match returned with
      | Some prompt => ret prompt
      | None => ret missing_identity_prompt
      end.

(** *** The first revision (src/unnamed/part_001)

    It has no sanitizer and no clean-up of stale recall blocks: the store
    operation leaves out the text blocks that start with the recall marker,
    and the conversation context is built from the whole history. *)

Definition is_stored_user_block_first (block : ContentBlock) : bool :=
  is_text_block block && negb (startsWith (block_text block) recall_open).

Definition user_message_text_first (userMessage : Message) : jsstring :=
  match msg_content userMessage with
  | StringContent s => s
  | BlockContent l =>
      join [nl; nl] (map block_text (filter is_stored_user_block_first l))
  end.

Definition storeExchangeInternal_first (userMessage assistantMessage : Message)
    (taskId : jsstring) : M State unit :=
  available <- isAvailable ;;
  if negb available then ret tt
  else
    let userMessageText := user_message_text_first userMessage in
    let assistantResponseText := message_text assistantMessage in
    if is_empty userMessageText && is_empty assistantResponseText
    then ret tt
    else
      let mcpArgs :=
        StoreExchangeMcpPayload userMessageText assistantResponseText
          taskId (msg_ts userMessage) (msg_ts assistantMessage) in
      try_catch
        (response <- mcpHub_callTool (lit "store_exchange") mcpArgs ;;
         read_store_response response)
        (ret tt).

Definition context_line_first (msg : Message) : jsstring :=
  let content :=
    match msg_content msg with
    | StringContent s => s
    | BlockContent l => text_of_blocks (lit " ") l
    end in
  role_name (msg_role msg) ++ lit ": " ++ content.

Definition conversationContextString_first (recentHistory : list Message)
    : jsstring :=
  join [nl] (map context_line_first recentHistory).

Definition enrichWithContextInternal_first
    (currentUserMessageContent : jsstring) (recentHistory : list Message)
    : M State (list RecalledMemoryItem) :=
  available <- isAvailable ;;
  if negb available then ret []
  else
    let args :=
      EnrichContextMcpArgs currentUserMessageContent
        (conversationContextString_first recentHistory) 3 in
    try_catch
      (response <- mcpHub_callTool (lit "enrich_context") args ;;
       match response with
       | Content (first :: _) =>
           if str_eqb (rb_type first) (lit "text") then
             resultPayload <- parse (rb_text first) ;;
             if success resultPayload then
               match recalled_memories resultPayload with
               | Some memories => ret memories
               | None => ret []
               end
             else ret []
           else ret []
       | _ => ret []
       end)
      (ret []).

Definition enrichmentPromise_first (payload : UserMessageEnrichmentPayload)
    : M EnrichmentState unit :=
  if negb (str_eqb (enr_taskId payload) this_taskId) then ret tt
  else
    content <- get_userContent ;;
    let userQueryParts := flat_map query_parts_of content in
    let userQuery := join [nl; nl] userQueryParts in
    if is_empty userQuery then ret tt
    else
      recalledMemories <-
        lift (enrichWithContextInternal_first userQuery
                (currentHistorySlice payload)) ;;
      if (0 <? List.length recalledMemories)%nat then
        unshift_userContent (memoryContextBlock formatMemory recalledMemories)
      else ret tt.

Definition handleBeforeUserMessageEnrichment_first
    (payload : UserMessageEnrichmentPayload) (st : State)
    : UserMessageEnrichmentPayload * State :=
  match enrichmentPromise_first payload
          {| es_userContent := userContent payload; es_instance := st |} with
  | (o, es) =>
      ({| enr_taskId := enr_taskId payload;
          userContent := es_userContent es;
          currentHistorySlice := currentHistorySlice payload;
          promises := promises payload ++ [settle o] |},
       es_instance es)
  end.

Definition handleAfterAssistantResponseProcessed_first
    (payload : AssistantResponseProcessedPayload) : M State unit :=
  if negb (str_eqb (arp_taskId payload) this_taskId) then ret tt
  else
    storeExchangeInternal_first (arp_userMessage payload)
      (arp_assistantMessage payload) (arp_taskId payload).

(* ===================================================================== *)
(** ** Recalled items as they are parsed                                  *)
(* ===================================================================== *)

(** [resultPayload.recalled_memories as RecalledMemoryItem[]] checks
    nothing: an element of the parsed array is whatever the service sent.
    An element is taken here as [null] or as an object whose fields have the
    declared types but for [score], which is absent, a number or a string.
    A string has no method [toFixed], so calling it throws a TypeError; the
    optional chaining of [item.score?.toFixed(4)] guards against [undefined]
    and [null] only. *)
Inductive ParsedScore : Type :=
| ScoreUndefined                 (* undefined or null *)
| ScoreNumber (score : number)
| ScoreText (score : jsstring).

Record ParsedObject : Type := {
  po_text : jsstring;
  po_sourceId : jsstring;
  po_chunkIndex : number;
  po_score : ParsedScore;
  po_distance : option number
}.

Inductive ParsedItem : Type :=
| ParsedNull
| ParsedObj (o : ParsedObject).

(** An item of the declared type, as an element of the parsed array. *)
Definition declared (item : RecalledMemoryItem) : ParsedItem :=
  ParsedObj
    {| po_text := item_text item;
       po_sourceId := item_sourceId item;
       po_chunkIndex := item_chunkIndex item;
       po_score := match item_score item with
                   | Some score => ScoreNumber score
                   | None => ScoreUndefined
                   end;
       po_distance := item_distance item |}.

Record ParsedPayload : Type := {
  pp_success : bool;
  pp_recalled_memories : option (list ParsedItem)
}.

(** [JSON.parse] on the answer to [enrich_context], with the elements of
    [recalled_memories] as they are. *)
Variable JSON_parse_unchecked : jsstring -> option ParsedPayload.

Definition parse_unchecked {S : Type} (text : jsstring) : M S ParsedPayload :=
  match JSON_parse_unchecked text with
  | Some p => ret p
  | None => throw
  end.

Definition enrichWithContextInternal_unchecked
    (currentUserMessageContent : jsstring) (recentHistory : list Message)
    : M State (list ParsedItem) :=
  available <- isAvailable ;;
  if negb available then ret []
  else
    let args :=
      EnrichContextMcpArgs currentUserMessageContent
        (conversationContextString recentHistory) 3 in
    try_catch
      (response <- mcpHub_callTool (lit "enrich_context") args ;;
       match response with
       | Content (first :: _) =>
           if str_eqb (rb_type first) (lit "text") then
             resultPayload <- parse_unchecked (rb_text first) ;;
             if pp_success resultPayload then
               match pp_recalled_memories resultPayload with
               | Some memories => ret memories
               | None => ret []
               end
             else ret []
           else ret []
       | _ => ret []
       end)
      (ret []).

(** The template of the revision under src/integrations on a parsed item;
    [None] when it throws a TypeError: [item.sourceId] on [null], or
    [item.score?.toFixed(4)] on a string, which has no [toFixed]. *)
Definition formatMemory_unchecked (index : nat) (item : ParsedItem)
    : option jsstring :=
  match item with
  | ParsedNull => None
  | ParsedObj o =>
      match po_score o with
      | ScoreText _ => None
      | ScoreNumber score =>
          Some (lit "Memory " ++ decimal (index + 1)
                ++ lit " (Source: " ++ po_sourceId o
                ++ lit ", Score: " ++ or_else (toFixed4 score) (lit "N/A")
                ++ lit "):" ++ [nl] ++ po_text o)
      | ScoreUndefined =>
          Some (lit "Memory " ++ decimal (index + 1)
                ++ lit " (Source: " ++ po_sourceId o
                ++ lit ", Score: " ++ lit "N/A"
                ++ lit "):" ++ [nl] ++ po_text o)
      end
  end.

(** The template of the later revision, which does not read [score]. *)
Definition formatMemory_sync_unchecked (index : nat) (item : ParsedItem)
    : option jsstring :=
  match item with
  | ParsedNull => None
  | ParsedObj o =>
      Some (lit "Memory " ++ decimal (index + 1)
            ++ lit " (Source: " ++ po_sourceId o
            ++ lit ", Chunk: " ++ number_toString (po_chunkIndex o)
            ++ lit ", Score: "
            ++ toFixed4
                 (one_minus
                    (match po_distance o with
                     | Some distance => distance
                     | None => number_one
                     end))
            ++ lit "):" ++ [nl] ++ po_text o)
  end.

(** [items.map((item, index) => f index item)] with a callback that can
    throw: [None] when it throws on some element. *)
Fixpoint mapi_throwing_from {A B : Type} (index : nat)
    (f : nat -> A -> option B) (l : list A) : option (list B) :=
  match l with
  | [] => Some []
  | item :: rest =>
      match f index item with
      | Some b =>
          match mapi_throwing_from (S index) f rest with
          | Some bs => Some (b :: bs)
          | None => None
          end
      | None => None
      end
  end.

Definition mapi_throwing {A B : Type} (f : nat -> A -> option B) (l : list A)
    : option (list B) :=
  mapi_throwing_from 0 f l.

(** [enrichmentPromise] on parsed items: the formatting is outside any
    [try], so what it throws rejects the promise. *)
Definition enrichmentPromise_unchecked
    (format : nat -> ParsedItem -> option jsstring)
    (payload : UserMessageEnrichmentPayload) : M EnrichmentState unit :=
  if negb (str_eqb (enr_taskId payload) this_taskId) then ret tt
  else
    content <- get_userContent ;;
    set_userContent (filter keeps_block content) ;;;
    content <- get_userContent ;;
    let userQuery := userQuery_of content in
    if is_empty userQuery then ret tt
    else
      recalledMemories <-
        lift (enrichWithContextInternal_unchecked userQuery
                (currentHistorySlice payload)) ;;
      if (0 <? List.length recalledMemories)%nat then
        match mapi_throwing format recalledMemories with
        | Some parts =>
            unshift_userContent
              (TextBlock (recall_block_text (join memory_separator parts)))
        | None => throw
        end
      else ret tt.

Definition handleBeforeUserMessageEnrichment_unchecked_with
    (format : nat -> ParsedItem -> option jsstring)
    (payload : UserMessageEnrichmentPayload) (st : State)
    : UserMessageEnrichmentPayload * State :=
  match enrichmentPromise_unchecked format payload
          {| es_userContent := userContent payload; es_instance := st |} with
  | (o, es) =>
      ({| enr_taskId := enr_taskId payload;
          userContent := es_userContent es;
          currentHistorySlice := currentHistorySlice payload;
          promises := promises payload ++ [settle o] |},
       es_instance es)
  end.

Definition handleBeforeUserMessageEnrichment_unchecked :=
  handleBeforeUserMessageEnrichment_unchecked_with formatMemory_unchecked.

Definition handleBeforeUserMessageEnrichment_sync_unchecked :=
  handleBeforeUserMessageEnrichment_unchecked_with formatMemory_sync_unchecked.

(** The items the handler gets to format for a payload: none when the
    taskId differs or the query is empty, else what the recall returns. *)
Definition recalled_for (payload : UserMessageEnrichmentPayload) (st : State)
    : list ParsedItem :=
  if negb (str_eqb (enr_taskId payload) this_taskId) then []
  else
    let userQuery := userQuery_of (filter keeps_block (userContent payload)) in
    if is_empty userQuery then []
    else
      match fst (enrichWithContextInternal_unchecked userQuery
                   (currentHistorySlice payload) st) with
      | Returns recalledMemories => recalledMemories
      | Throws => []
      end.

Definition formats_all (format : nat -> ParsedItem -> option jsstring)
    (items : list ParsedItem) : bool :=
  match mapi_throwing format items with
  | Some _ => true
  | None => false
  end.

(** *** Facts *)

Lemma enrich_unchecked_returns (query : jsstring) (history : list Message)
    (st : State) :
  exists memories st',
    enrichWithContextInternal_unchecked query history st
    = (Returns memories, st').
Proof.
  unfold enrichWithContextInternal_unchecked, parse_unchecked. run.
  repeat split_match; do 2 eexists; reflexivity.
Qed.

Lemma formatMemory_unchecked_declared (index : nat)
    (item : RecalledMemoryItem) :
  formatMemory_unchecked index (declared item)
  = Some (formatMemory index item).
Proof.
  unfold formatMemory_unchecked, formatMemory, declared. cbn.
  destruct (item_score item); reflexivity.
Qed.

Lemma formatMemory_sync_unchecked_declared (index : nat)
    (item : RecalledMemoryItem) :
  formatMemory_sync_unchecked index (declared item)
  = Some (formatMemory_sync index item).
Proof. reflexivity. Qed.

Lemma mapi_throwing_declared
    (format_unchecked : nat -> ParsedItem -> option jsstring)
    (format : nat -> RecalledMemoryItem -> jsstring) :
  (forall index item,
     format_unchecked index (declared item) = Some (format index item)) ->
  forall (items : list RecalledMemoryItem) (index : nat),
    mapi_throwing_from index format_unchecked (map declared items)
    = Some (mapi_from index format items).
Proof.
  intros H items. induction items as [|item items IH]; intros index;
    [reflexivity|].
  cbn [map mapi_throwing_from mapi_from]. rewrite H, IH. reflexivity.
Qed.

(** The settlement of the pushed promise, in every case. *)
Lemma promise_settlement (format : nat -> ParsedItem -> option jsstring)
    (p : UserMessageEnrichmentPayload) (st : State) :
  promises (fst (handleBeforeUserMessageEnrichment_unchecked_with format p st))
  = promises p
    ++ [if formats_all format (recalled_for p st) then Fulfilled
        else Rejected].
Proof.
  unfold handleBeforeUserMessageEnrichment_unchecked_with,
    enrichmentPromise_unchecked, recalled_for, formats_all.
  destruct (negb _); [reflexivity|].
  cbv beta iota delta [bind get_userContent set_userContent lift
                         unshift_userContent ret throw
                         es_userContent es_instance].
  destruct (is_empty _); [reflexivity|].
  destruct (enrich_unchecked_returns
              (userQuery_of (filter keeps_block (userContent p)))
              (currentHistorySlice p) st) as [memories [st' ->]].
  cbn [fst].
  destruct memories as [|item memories]; [reflexivity|].
  cbn [List.length Nat.ltb Nat.leb].
  destruct (mapi_throwing format (item :: memories)); reflexivity.
Qed.

(** C10, amended: for every event the enrichment handler appends exactly
    one promise to [payload.promises], whatever the taskId, the query and
    the recall are.  Every failure of the remote call and of the parsing of
    its answer is caught, so the promise is fulfilled when the taskId
    differs, when the query is empty, when nothing is recalled, and whenever
    the recalled items have the declared shape; it is fulfilled exactly when
    the template can be applied to every recalled item, and rejected
    otherwise, the formatting being outside any [try]. *)
Theorem enrichment_promise_is_pushed
    (p : UserMessageEnrichmentPayload) (st : State) :
  promises (fst (handleBeforeUserMessageEnrichment_unchecked p st))
  = promises p
    ++ [if formats_all formatMemory_unchecked (recalled_for p st)
        then Fulfilled else Rejected]
  /\ promises (fst (handleBeforeUserMessageEnrichment_sync_unchecked p st))
     = promises p
       ++ [if formats_all formatMemory_sync_unchecked (recalled_for p st)
           then Fulfilled else Rejected]
  /\ (enr_taskId p <> this_taskId -> recalled_for p st = [])
  /\ (userQuery_of (filter keeps_block (userContent p)) = [] ->
      recalled_for p st = [])
  /\ (isAvailable_of (getServers (probes st)) = false ->
      recalled_for p st = [])
  /\ (callTool (List.length (calls st))
        (enrich_call (userQuery_of (filter keeps_block (userContent p)))
           (currentHistorySlice p)) = CallRejects ->
      recalled_for p st = [])
  /\ formats_all formatMemory_unchecked [] = true
  /\ formats_all formatMemory_sync_unchecked [] = true
  /\ (forall items : list RecalledMemoryItem,
        formats_all formatMemory_unchecked (map declared items) = true
        /\ formats_all formatMemory_sync_unchecked (map declared items)
           = true).
Proof.
  split; [apply promise_settlement|].
  split; [apply promise_settlement|].
  split.
  { intros H. unfold recalled_for. rewrite (str_eqb_neq _ _ H). reflexivity. }
  split.
  { intros H. unfold recalled_for. rewrite H.
    destruct (negb _); reflexivity. }
  split.
  { intros H. unfold recalled_for.
    destruct (negb _); [reflexivity|]. destruct (is_empty _); [reflexivity|].
    unfold enrichWithContextInternal_unchecked.
    rewrite bind_isAvailable, H. reflexivity. }
  split.
  { intros H. unfold recalled_for.
    destruct (negb _); [reflexivity|]. destruct (is_empty _); [reflexivity|].
    unfold enrichWithContextInternal_unchecked. rewrite bind_isAvailable.
    destruct (isAvailable_of _); [|reflexivity].
    cbn [negb]. cbv iota. unfold try_catch. rewrite bind_callTool.
    unfold enrich_call in H.
    change (List.length (calls (probed st))) with (List.length (calls st)).
    rewrite H. reflexivity. }
  split; [reflexivity|]. split; [reflexivity|].
  intros items. unfold formats_all, mapi_throwing. split.
  - rewrite (mapi_throwing_declared formatMemory_unchecked formatMemory
               formatMemory_unchecked_declared). reflexivity.
  - rewrite (mapi_throwing_declared formatMemory_sync_unchecked
               formatMemory_sync formatMemory_sync_unchecked_declared).
    reflexivity.
Qed.

(** *** The typed model is the unchecked one on declared items *)

Definition declared_payload (p : ResultPayload) : ParsedPayload :=
  {| pp_success := success p;
     pp_recalled_memories :=
       option_map (map declared) (recalled_memories p) |}.

Section DeclaredAnswers.

(** Every answer the service gives holds items of the declared shape. *)
Hypothesis answers_are_declared :
  forall text : jsstring,
    JSON_parse_unchecked text = option_map declared_payload (JSON_parse text).

Lemma enrich_unchecked_declared (query : jsstring) (history : list Message)
    (st : State) :
  enrichWithContextInternal_unchecked query history st
  = match enrichWithContextInternal query history st with
    | (Returns memories, st') => (Returns (map declared memories), st')
    | (Throws, st') => (Throws, st')
    end.
Proof using answers_are_declared.
  unfold enrichWithContextInternal_unchecked, enrichWithContextInternal,
    parse_unchecked.
  run.
  destruct (isAvailable_of _); cbn [negb]; cbv iota; [|reflexivity].
  destruct (callTool _ _) as [|[| |[|first rest]]]; try reflexivity.
  destruct (str_eqb _ _); [|reflexivity].
  rewrite answers_are_declared.
  destruct (JSON_parse (rb_text first)) as [payload|]; [|reflexivity].
  cbn [option_map declared_payload pp_success pp_recalled_memories].
  destruct (success payload); [|reflexivity].
  destruct (recalled_memories payload); reflexivity.
Qed.

(** On such answers the handler on parsed items does what the handler on
    typed items does. *)
Lemma handler_unchecked_declared
    (format_unchecked : nat -> ParsedItem -> option jsstring)
    (format : nat -> RecalledMemoryItem -> jsstring)
    (p : UserMessageEnrichmentPayload) (st : State) :
  (forall index item,
     format_unchecked index (declared item) = Some (format index item)) ->
  handleBeforeUserMessageEnrichment_unchecked_with format_unchecked p st
  = handleBeforeUserMessageEnrichment_with format p st.
Proof using answers_are_declared.
  intros Hf.
  unfold handleBeforeUserMessageEnrichment_unchecked_with,
    handleBeforeUserMessageEnrichment_with, enrichmentPromise_unchecked,
    enrichmentPromise.
  destruct (negb _); [reflexivity|].
  cbv beta iota delta [bind get_userContent set_userContent lift
                         unshift_userContent ret throw
                         es_userContent es_instance].
  destruct (is_empty _); [reflexivity|].
  rewrite enrich_unchecked_declared.
  destruct (enrichWithContextInternal _ _ st) as [[memories|] st'];
    [|reflexivity].
  rewrite length_map.
  destruct (0 <? List.length memories)%nat; [|reflexivity].
  unfold mapi_throwing.
  rewrite (mapi_throwing_declared format_unchecked format Hf).
  reflexivity.
Qed.

End DeclaredAnswers.

(* ===================================================================== *)
(** ** Further properties of the client and the handlers                  *)
(* ===================================================================== *)

(** X5: an exchange whose two texts are empty after sanitizing is not sent:
    the store operation returns after the look-up of the registry, whether
    the service is available or not.  The later revision, which does not
    sanitize the user text, does the same when the user text itself is
    empty. *)
Theorem empty_exchange_is_not_stored
    (userMessage assistantMessage : Message) (taskId : jsstring) (st : State) :
  cleanMessageContent (message_text userMessage) = [] ->
  cleanMessageContent (message_text assistantMessage) = [] ->
  storeExchangeInternal userMessage assistantMessage taskId st
  = (Returns tt, probed st)
  /\ (message_text userMessage = [] ->
      storeExchangeInternal_sync userMessage assistantMessage taskId st
      = (Returns tt, probed st)).
Proof.
  intros Hu Ha. split.
  - unfold storeExchangeInternal. rewrite bind_isAvailable, Hu, Ha.
    destruct (isAvailable_of _); reflexivity.
  - intros Hraw. unfold storeExchangeInternal_sync.
    rewrite bind_isAvailable, Hraw, Ha.
    destruct (isAvailable_of _); reflexivity.
Qed.

(** X6: [enrichWithContextInternal] returns a non-empty list exactly when
    the service is available and the call resolves with a first content
    block of type text whose parsed envelope has a truthy [success] and this
    list as [recalled_memories]. *)
Theorem recalled_memories_come_from_the_service
    (query : jsstring) (recentHistory : list Message) (st : State)
    (memories : list RecalledMemoryItem) :
  memories <> [] ->
  fst (enrichWithContextInternal query recentHistory st) = Returns memories
  <-> (isAvailable_of (getServers (probes st)) = true
       /\ exists (first : ResponseBlock) (rest : list ResponseBlock)
                 (resultPayload : ResultPayload),
            callTool (List.length (calls st)) (enrich_call query recentHistory)
            = CallResolves (Content (first :: rest))
            /\ rb_type first = lit "text"
            /\ JSON_parse (rb_text first) = Some resultPayload
            /\ success resultPayload = true
            /\ recalled_memories resultPayload = Some memories).
Proof.
  intros Hne. unfold enrichWithContextInternal.
  rewrite bind_isAvailable.
  fold (enrich_call query recentHistory).
  destruct (isAvailable_of (getServers (probes st))); cbn [negb];
    cbv beta iota.
  2:{ split; [|intros [H _]; discriminate].
      unfold ret. cbn [fst]. intros H. injection H as H. congruence. }
  unfold try_catch. unfold enrich_call. rewrite bind_callTool.
  change (List.length (calls (probed st))) with (List.length (calls st)).
  destruct (callTool _ _) as [|[| |[|first rest]]] eqn:Ecall.
  1-4: split;
         [ unfold ret; cbn [fst]; intros H; injection H as H; congruence
         | intros [_ [f [r [p [H _]]]]]; discriminate ].
  destruct (str_eqb (rb_type first) (lit "text")) eqn:Etype.
  2:{ split;
        [ unfold ret; cbn [fst]; intros H; injection H as H; congruence|].
      intros [_ [f [r [p [H [Ht _]]]]]]. injection H as -> ->.
      rewrite Ht, str_eqb_refl in Etype. discriminate. }
  apply str_eqb_eq in Etype.
  unfold parse. destruct (JSON_parse (rb_text first)) as [p|] eqn:Eparse.
  2:{ split;
        [ unfold bind, throw, ret; cbn [fst]; intros H; injection H as H;
          congruence|].
      intros [_ [f [r [p [H [_ [Hp _]]]]]]]. injection H as -> ->.
      congruence. }
  unfold bind, ret.
  destruct (success p) eqn:Es.
  2:{ split; [cbn [fst]; intros H; injection H as H; congruence|].
      intros [_ [f [r [p' [H [_ [Hp [Hs _]]]]]]]]. injection H as -> ->.
      congruence. }
  destruct (recalled_memories p) as [l|] eqn:Er.
  2:{ split; [cbn [fst]; intros H; injection H as H; congruence|].
      intros [_ [f [r [p' [H [_ [Hp [_ Hr]]]]]]]]. injection H as -> ->.
      congruence. }
  cbn [fst]. split.
  - intros H. injection H as ->. split; [reflexivity|].
    exists first, rest, p. repeat split; assumption.
  - intros [_ [f [r [p' [H [_ [Hp [_ Hr]]]]]]]]. injection H as -> ->.
    congruence.
Qed.

(** X7: when the query derived from the content is empty after the stale
    recall blocks are removed and the text is sanitized, the enrichment
    handler asks for no recall: the registry is not looked up, no call is
    made, and the content is left with the stale blocks removed. *)
Theorem empty_query_is_not_sent
    (format : nat -> RecalledMemoryItem -> jsstring)
    (p : UserMessageEnrichmentPayload) (st : State) :
  enr_taskId p = this_taskId ->
  userQuery_of (filter keeps_block (userContent p)) = [] ->
  handleBeforeUserMessageEnrichment_with format p st
  = ({| enr_taskId := enr_taskId p;
        userContent := filter keeps_block (userContent p);
        currentHistorySlice := currentHistorySlice p;
        promises := promises p ++ [Fulfilled] |}, st).
Proof.
  intros Hid Hq. unfold handleBeforeUserMessageEnrichment_with.
  rewrite (enrichmentPromise_this_task format p _ st Hid), Hq.
  reflexivity.
Qed.

(** *** The guard against stacked recall blocks *)

Lemma trimEnd_keeps_prefix (l : jsstring) (c : char) (rest : jsstring) :
  is_space c = false ->
  exists r, trimEnd (l ++ c :: rest) = l ++ c :: r.
Proof.
  intros Hc. induction l as [|d l [r IH]].
  - exists (trimEnd rest). apply trimEnd_cons. simpl. rewrite Hc. reflexivity.
  - exists r. change ((d :: l) ++ c :: rest) with (d :: (l ++ c :: rest)).
    rewrite trimEnd_cons; [rewrite IH; reflexivity|].
    simpl. rewrite forallb_app. simpl. rewrite Hc.
    rewrite andb_false_r, andb_false_r. reflexivity.
Qed.

Lemma trim_keeps_prefix (l : jsstring) (c : char) (rest : jsstring) :
  match l ++ [c] with [] => True | d :: _ => is_space d = false end ->
  is_space c = false ->
  startsWith (trim (l ++ c :: rest)) (l ++ [c]) = true.
Proof.
  intros Hd Hc. unfold trim.
  rewrite trimStart_fixed by (destruct l; exact Hd).
  destruct (trimEnd_keeps_prefix l c rest Hc) as [r ->].
  change (l ++ c :: r) with (l ++ [c] ++ r). rewrite app_assoc.
  apply startsWith_app.
Qed.

(** The block the handler prepends is one its own clean-up removes. *)
Lemma keeps_block_recall (format : nat -> RecalledMemoryItem -> jsstring)
    (recalledMemories : list RecalledMemoryItem) :
  keeps_block (memoryContextBlock format recalledMemories) = false.
Proof.
  exact (f_equal negb
           (trim_keeps_prefix (lit "[Recalled Memories") 93%N
              ([nl] ++ formattedMemories_of format recalledMemories
               ++ [nl] ++ recall_close)
              eq_refl eq_refl)).
Qed.

Lemma filter_enriched_content
    (format : nat -> RecalledMemoryItem -> jsstring)
    (recalledMemories : list RecalledMemoryItem) (content : list ContentBlock) :
  filter keeps_block
    (enriched_content format recalledMemories (filter keeps_block content))
  = filter keeps_block content.
Proof.
  assert (E : filter keeps_block (filter keeps_block content)
              = filter keeps_block content).
  { apply forallb_filter_id. apply forallb_forall. intros b Hb.
    apply filter_In in Hb. apply Hb. }
  unfold enriched_content. destruct (0 <? _)%nat; [|exact E].
  cbn [filter]. rewrite keeps_block_recall. exact E.
Qed.

(** The content the handler leaves for an event of its task. *)
Lemma handler_content (format : nat -> RecalledMemoryItem -> jsstring)
    (p : UserMessageEnrichmentPayload) (st : State) :
  enr_taskId p = this_taskId ->
  exists recalledMemories,
    userContent (fst (handleBeforeUserMessageEnrichment_with format p st))
    = enriched_content format recalledMemories
        (filter keeps_block (userContent p)).
Proof.
  intros Hid. unfold handleBeforeUserMessageEnrichment_with.
  rewrite (enrichmentPromise_this_task format p _ st Hid).
  destruct (is_empty _); [exists []; reflexivity|].
  destruct (enrich_returns
              (userQuery_of (filter keeps_block (userContent p)))
              (currentHistorySlice p) st) as [memories [st' [-> _]]].
  exists memories. reflexivity.
Qed.

(** X8: recall blocks do not stack.  For an event of the task of the
    instance, the content the handler leaves is the content without its
    stale recall blocks, with at most one recall block in front; the clean-up
    of a later run removes that block again, so a later run on this content
    derives its query from the same blocks and again leaves at most one
    recall block. *)
Theorem recall_blocks_do_not_stack
    (format : nat -> RecalledMemoryItem -> jsstring)
    (p : UserMessageEnrichmentPayload) (st st2 : State) :
  enr_taskId p = this_taskId ->
  (exists recalledMemories,
     userContent (fst (handleBeforeUserMessageEnrichment_with format p st))
     = enriched_content format recalledMemories
         (filter keeps_block (userContent p)))
  /\ filter keeps_block
       (userContent (fst (handleBeforeUserMessageEnrichment_with format p st)))
     = filter keeps_block (userContent p)
  /\ (exists recalledMemories,
        userContent
          (fst (handleBeforeUserMessageEnrichment_with format
                  (fst (handleBeforeUserMessageEnrichment_with format p st))
                  st2))
        = enriched_content format recalledMemories
            (filter keeps_block (userContent p))).
Proof.
  intros Hid.
  destruct (handler_content format p st Hid) as [m1 E1].
  assert (E2 : filter keeps_block
                 (userContent
                    (fst (handleBeforeUserMessageEnrichment_with format p st)))
               = filter keeps_block (userContent p))
    by (rewrite E1; apply filter_enriched_content).
  split; [exists m1; exact E1|]. split; [exact E2|].
  destruct (handler_content format
              (fst (handleBeforeUserMessageEnrichment_with format p st)) st2)
    as [m2 E3].
  - unfold handleBeforeUserMessageEnrichment_with.
    destruct (enrichmentPromise format p _) as [o es]. exact Hid.
  - exists m2. rewrite E3, E2. reflexivity.
Qed.

(** X9: the enrichment handler never stores and never moves the cursor: it
    leaves the cursor where it is and makes no remote call, or the one
    [enrich_context] call for the query it derived. *)
Theorem enrichment_makes_at_most_one_call
    (format : nat -> RecalledMemoryItem -> jsstring)
    (p : UserMessageEnrichmentPayload) (st : State) :
  lastStoredMessageIndex
    (snd (handleBeforeUserMessageEnrichment_with format p st))
  = lastStoredMessageIndex st
  /\ (calls (snd (handleBeforeUserMessageEnrichment_with format p st))
      = calls st
      \/ calls (snd (handleBeforeUserMessageEnrichment_with format p st))
         = calls st
           ++ [enrich_call (userQuery_of (filter keeps_block (userContent p)))
                 (currentHistorySlice p)]).
Proof.
  unfold handleBeforeUserMessageEnrichment_with.
  destruct (list_eq_dec N.eq_dec (enr_taskId p) this_taskId) as [E|E].
  - rewrite (enrichmentPromise_this_task format p _ st E).
    destruct (is_empty _); [split; [reflexivity | left; reflexivity]|].
    destruct (enrich_returns
                (userQuery_of (filter keeps_block (userContent p)))
                (currentHistorySlice p) st) as [memories [st' [-> [Hc Hl]]]].
    cbn [snd es_instance]. split; assumption.
  - rewrite (enrichmentPromise_other_task format p _ E).
    split; [reflexivity | left; reflexivity].
Qed.

(* ===================================================================== *)
(** ** Further properties of the synchronizer                             *)
(* ===================================================================== *)

(** Whether a call of [syncHistory] gets as far as its loop: the service is
    available, the [get_last_chunk_index] call resolves and its answer is
    read without an error. *)
Definition scan_is_reached (st : State) : bool :=
  isAvailable_of (getServers (probes st))
  && match callTool (List.length (calls st)) last_chunk_index_call with
     | CallRejects => false
     | CallResolves r => last_chunk_index_is_read r
     end.

Lemma read_last_chunk_index_spec (r : McpResponse) (st : State) :
  read_last_chunk_index r st
  = (if last_chunk_index_is_read r then Returns tt else Throws, st).
Proof.
  unfold read_last_chunk_index, last_chunk_index_is_read. run.
  repeat split_match; reflexivity.
Qed.

Lemma read_store_response_cases (r : McpResponse) (st : State) :
  read_store_response r st = (Returns tt, st)
  \/ read_store_response r st = (Throws, st).
Proof.
  unfold read_store_response. run.
  repeat split_match; (left; reflexivity) || (right; reflexivity).
Qed.

Lemma store_sync_calls (u a : Message) (taskId : jsstring) (st : State) :
  exists st',
    storeExchangeInternal_sync u a taskId st = (Returns tt, st')
    /\ lastStoredMessageIndex st' = lastStoredMessageIndex st
    /\ (calls st' = calls st
        \/ calls st' = calls st ++ [store_sync_call u a taskId]).
Proof.
  unfold storeExchangeInternal_sync. rewrite bind_isAvailable.
  fold (finalUserMessageToStore_of (message_text u)).
  destruct (isAvailable_of _); cbn [negb]; cbv iota.
  2:{ eexists. split; [reflexivity|]. split; [reflexivity | left; reflexivity]. }
  destruct (_ && _).
  { eexists. split; [reflexivity|]. split; [reflexivity | left; reflexivity]. }
  unfold try_catch. rewrite bind_callTool. fold (store_sync_call u a taskId).
  destruct (callTool _ _) as [|r].
  { eexists. split; [reflexivity|]. split; [reflexivity | right; reflexivity]. }
  destruct (read_store_response_cases r
              (called (store_sync_call u a taskId) (probed st))) as [-> | ->];
    eexists; (split; [reflexivity|]); (split; [reflexivity | right; reflexivity]).
Qed.

(** The loop never throws; the cursor it reaches is the one [scan_end]
    reads off the roles; it makes store calls only, at most one for two
    messages. *)
Lemma sync_loop_run (n : nat) :
  forall (rest : list Message) (i : Z) (st : State),
    (List.length rest <= n)%nat ->
    exists st',
      sync_loop rest i st = (Returns tt, st')
      /\ lastStoredMessageIndex st'
         = scan_end rest i (lastStoredMessageIndex st)
      /\ exists stores,
           calls st' = calls st ++ stores
           /\ Forall is_store_call stores
           /\ (2 * List.length stores <= List.length rest)%nat.
Proof.
  induction n as [|n IH]; intros rest i st Hn.
  - destruct rest; [|simpl in Hn; lia].
    exists st. split; [reflexivity|]. split; [reflexivity|].
    exists []. rewrite app_nil_r. repeat split; [constructor | simpl; lia].
  - destruct rest as [|u [|m rest2]].
    + exists st. split; [reflexivity|]. split; [reflexivity|].
      exists []. rewrite app_nil_r. repeat split; [constructor | simpl; lia].
    + exists st. split; [reflexivity|]. split; [reflexivity|].
      exists []. rewrite app_nil_r. repeat split; [constructor | simpl; lia].
    + rewrite sync_loop_step. cbn [scan_end].
      destruct (has_role user u && has_role assistant m).
      * destruct (store_sync_calls u m this_taskId st) as [st1 [Es [Cs Ks]]].
        set (st2 := {| lastStoredMessageIndex := (i + 1)%Z;
                       calls := calls st1; probes := probes st1 |}).
        assert (Eq : (storeExchangeInternal_sync u m this_taskId ;;;
                      set_lastStoredMessageIndex (i + 1) ;;;
                      sync_loop rest2 (i + 2)) st
                     = sync_loop rest2 (i + 2)%Z st2)
          by (unfold bind; rewrite Es; reflexivity).
        rewrite Eq. clear Eq.
        destruct (IH rest2 (i + 2)%Z st2) as [st' [E [Hc [stores [Hs [Hf Hl]]]]]];
          [simpl in Hn; lia|].
        exists st'. split; [exact E|]. split; [exact Hc|].
        change (calls st2) with (calls st1) in Hs.
        destruct Ks as [Ks|Ks]; rewrite Ks in Hs.
        -- exists stores. repeat split; [exact Hs | exact Hf | simpl; lia].
        -- exists (store_sync_call u m this_taskId :: stores).
           rewrite <- app_assoc in Hs. repeat split; [exact Hs | | simpl; lia].
           constructor; [|exact Hf].
           unfold is_store_call, store_sync_call. do 4 eexists. reflexivity.
      * destruct (IH (m :: rest2) (i + 1)%Z st)
          as [st' [E [Hc [stores [Hs [Hf Hl]]]]]]; [simpl in Hn |- *; lia|].
        exists st'. split; [exact E|]. split; [exact Hc|].
        exists stores. repeat split; [exact Hs | exact Hf|].
        simpl in Hl |- *. lia.
Qed.

(** The three ways through [syncHistory]. *)
Lemma syncHistory_unfold (history : list Message) (st : State) :
  syncHistory history st
  = if isAvailable_of (getServers (probes st)) then
      match callTool (List.length (calls st)) last_chunk_index_call with
      | CallRejects =>
          (Returns tt, called last_chunk_index_call (probed st))
      | CallResolves r =>
          if last_chunk_index_is_read r then
            if (Z.of_nat (List.length history)
                <=? lastStoredMessageIndex st + 1)%Z
            then (Returns tt, called last_chunk_index_call (probed st))
            else
              try_catch
                (sync_loop
                   (skipn (Z.to_nat (lastStoredMessageIndex st + 1)) history)
                   (lastStoredMessageIndex st + 1))
                (ret tt)
                (called last_chunk_index_call (probed st))
          else (Returns tt, called last_chunk_index_call (probed st))
      end
    else (Returns tt, probed st).
Proof.
  unfold syncHistory. rewrite bind_isAvailable.
  destruct (isAvailable_of (getServers (probes st))); cbn [negb];
    cbv beta iota; [|reflexivity].
  unfold try_catch at 1. rewrite bind_callTool.
  fold last_chunk_index_call.
  change (List.length (calls (probed st))) with (List.length (calls st)).
  destruct (callTool _ _) as [|r]; [reflexivity|].
  rewrite bind_unfold, read_last_chunk_index_spec.
  destruct (last_chunk_index_is_read r); [|reflexivity].
  rewrite bind_unfold. unfold get_lastStoredMessageIndex.
  change (lastStoredMessageIndex (called last_chunk_index_call (probed st)))
    with (lastStoredMessageIndex st).
  destruct (_ <=? _)%Z; [reflexivity|].
  unfold try_catch. reflexivity.
Qed.

Lemma scan_end_nil_skipn (history : list Message) (c : Z) :
  (Z.of_nat (List.length history) <= c + 1)%Z ->
  scan_end (skipn (Z.to_nat (c + 1)) history) (c + 1) c = c.
Proof.
  intros H. rewrite skipn_all2 by lia. reflexivity.
Qed.

(** The cursor of a pass that reaches its loop. *)
Lemma cursor_reached (history : list Message) (st : State) :
  scan_is_reached st = true ->
  lastStoredMessageIndex (snd (syncHistory history st))
  = scan_end (skipn (Z.to_nat (lastStoredMessageIndex st + 1)) history)
      (lastStoredMessageIndex st + 1) (lastStoredMessageIndex st).
Proof.
  unfold scan_is_reached. intros H. apply andb_true_iff in H.
  destruct H as [Ha Hr]. rewrite syncHistory_unfold, Ha.
  destruct (callTool _ _) as [|r]; [discriminate|]. rewrite Hr.
  destruct (_ <=? _)%Z eqn:El.
  - apply Z.leb_le in El. rewrite (scan_end_nil_skipn _ _ El). reflexivity.
  - destruct (sync_loop_run _
                (skipn (Z.to_nat (lastStoredMessageIndex st + 1)) history)
                (lastStoredMessageIndex st + 1)%Z
                (called last_chunk_index_call (probed st)) (le_n _))
      as [st' [E [Hc _]]].
    unfold try_catch. rewrite E. exact Hc.
Qed.

(** X10: when a pass of [syncHistory] reaches its loop, the cursor it
    leaves is decided by the roles of the messages behind the old cursor
    alone: every user message directly followed by an assistant message
    moves the cursor to that assistant message, whether the exchange was
    sent, skipped as empty, or its call failed.  The pass returns
    normally. *)
Theorem cursor_is_decided_by_the_roles (history : list Message) (st : State) :
  scan_is_reached st = true ->
  fst (syncHistory history st) = Returns tt
  /\ lastStoredMessageIndex (snd (syncHistory history st))
     = scan_end (skipn (Z.to_nat (lastStoredMessageIndex st + 1)) history)
         (lastStoredMessageIndex st + 1) (lastStoredMessageIndex st).
Proof.
  intros H. pose proof H as H0. unfold scan_is_reached in H0.
  apply andb_true_iff in H0. destruct H0 as [Ha Hr].
  rewrite syncHistory_unfold, Ha.
  destruct (callTool _ _) as [|r]; [discriminate|]. rewrite Hr.
  destruct (_ <=? _)%Z eqn:El.
  - apply Z.leb_le in El. rewrite (scan_end_nil_skipn _ _ El).
    split; reflexivity.
  - destruct (sync_loop_run _
                (skipn (Z.to_nat (lastStoredMessageIndex st + 1)) history)
                (lastStoredMessageIndex st + 1)%Z
                (called last_chunk_index_call (probed st)) (le_n _))
      as [st' [E [Hc _]]].
    unfold try_catch. rewrite E. split; [reflexivity | exact Hc].
Qed.

(** X11: a pass of [syncHistory] that does not reach its loop (the service
    is unavailable, the [get_last_chunk_index] call is rejected, or its
    answer has an empty content array or a text that does not parse) returns
    normally, stores nothing and leaves the cursor where it is. *)
Theorem syncHistory_stops_before_the_scan
    (history : list Message) (st : State) :
  scan_is_reached st = false ->
  syncHistory history st
  = (Returns tt,
     if isAvailable_of (getServers (probes st))
     then called last_chunk_index_call (probed st)
     else probed st)
  /\ last_chunk_index_is_read (Content []) = false.
Proof.
  unfold scan_is_reached. intros H. split; [|reflexivity].
  rewrite syncHistory_unfold.
  destruct (isAvailable_of _); [|reflexivity].
  destruct (callTool _ _) as [|r]; [reflexivity|].
  cbn [andb] in H. rewrite H. reflexivity.
Qed.

(** X12: [syncHistory] never throws, and what it asks of the service is
    nothing at all, or one [get_last_chunk_index] call followed by
    [store_exchange] calls only, each with the taskId of the instance, and at
    most one for two messages of the transcript. *)
Theorem syncHistory_calls (history : list Message) (st : State) :
  fst (syncHistory history st) = Returns tt
  /\ (calls (snd (syncHistory history st)) = calls st
      \/ exists stores,
           calls (snd (syncHistory history st))
           = calls st ++ last_chunk_index_call :: stores
           /\ Forall is_store_call stores
           /\ (2 * List.length stores <= List.length history)%nat).
Proof.
  rewrite syncHistory_unfold.
  assert (Hnone : forall o : Outcome unit,
            o = Returns tt ->
            fst (o, called last_chunk_index_call (probed st)) = Returns tt
            /\ (calls (snd (o, called last_chunk_index_call (probed st)))
                = calls st
                \/ exists stores,
                     calls (snd (o, called last_chunk_index_call (probed st)))
                     = calls st ++ last_chunk_index_call :: stores
                     /\ Forall is_store_call stores
                     /\ (2 * List.length stores <= List.length history)%nat)).
  { intros o ->. split; [reflexivity|]. right. exists [].
    repeat split; [constructor | simpl; lia]. }
  destruct (isAvailable_of _); [|split; [reflexivity | left; reflexivity]].
  destruct (callTool _ _) as [|r]; [apply Hnone; reflexivity|].
  destruct (last_chunk_index_is_read r); [|apply Hnone; reflexivity].
  destruct (_ <=? _)%Z; [apply Hnone; reflexivity|].
  destruct (sync_loop_run _
              (skipn (Z.to_nat (lastStoredMessageIndex st + 1)) history)
              (lastStoredMessageIndex st + 1)%Z
              (called last_chunk_index_call (probed st)) (le_n _))
    as [st' [E [_ [stores [Hs [Hf Hl]]]]]].
  unfold try_catch. rewrite E. split; [reflexivity|].
  right. exists stores. cbn [snd]. rewrite Hs.
  change (calls (called last_chunk_index_call (probed st)))
    with (calls st ++ [last_chunk_index_call]).
  rewrite <- app_assoc. repeat split; [exact Hf|].
  rewrite length_skipn in Hl. lia.
Qed.

(** *** A second pass over the same transcript *)

Lemma starts_pair_at (history : list Message) (n : nat) (u m : Message)
    (rest2 : list Message) :
  skipn n history = u :: m :: rest2 ->
  starts_pair history n = has_role user u && has_role assistant m
  /\ skipn (S n) history = m :: rest2
  /\ skipn (S (S n)) history = rest2.
Proof.
  intros H. apply skipn_cons_nth in H. destruct H as [Hu H1].
  pose proof H1 as H2. apply skipn_cons_nth in H2. destruct H2 as [Hm H2].
  unfold starts_pair. rewrite Hu, Hm. repeat split; assumption.
Qed.

Lemma starts_pair_outside (history : list Message) (j : nat) :
  (List.length history <= S j)%nat -> starts_pair history j = false.
Proof.
  intros H. unfold starts_pair.
  assert (E : nth_error history (S j) = None) by (apply nth_error_None; exact H).
  rewrite E. destruct (nth_error history j); reflexivity.
Qed.

(** Behind the cursor that a scan reaches no position starts a pair. *)
Lemma scan_complete (history : list Message) (k : nat) :
  forall (rest : list Message) (n : nat) (c : Z),
    (List.length rest <= k)%nat ->
    skipn n history = rest ->
    (forall j : nat,
       (c < Z.of_nat j)%Z -> (j < n)%nat -> starts_pair history j = false) ->
    forall j : nat,
      (scan_end rest (Z.of_nat n) c < Z.of_nat j)%Z ->
      starts_pair history j = false.
Proof.
  induction k as [|k IH]; intros rest n c Hk Hrest Hinv j Hj.
  - destruct rest; [|simpl in Hk; lia].
    assert (Hl : List.length (skipn n history) = 0%nat)
      by (rewrite Hrest; reflexivity).
    rewrite length_skipn in Hl. cbn [scan_end] in Hj.
    destruct (Nat.lt_ge_cases j n) as [Hlt|Hge]; [apply Hinv; assumption|].
    apply starts_pair_outside. lia.
  - destruct rest as [|u [|m rest2]].
    + assert (Hl : List.length (skipn n history) = 0%nat)
        by (rewrite Hrest; reflexivity).
      rewrite length_skipn in Hl. cbn [scan_end] in Hj.
      destruct (Nat.lt_ge_cases j n) as [Hlt|Hge]; [apply Hinv; assumption|].
      apply starts_pair_outside. lia.
    + assert (Hl : List.length (skipn n history) = 1%nat)
        by (rewrite Hrest; reflexivity).
      rewrite length_skipn in Hl. cbn [scan_end] in Hj.
      destruct (Nat.lt_ge_cases j n) as [Hlt|Hge]; [apply Hinv; assumption|].
      apply starts_pair_outside. lia.
    + destruct (starts_pair_at history n u m rest2 Hrest) as [Hp [H1 H2]].
      cbn [scan_end] in Hj.
      destruct (has_role user u && has_role assistant m).
      * replace (Z.of_nat n + 2)%Z with (Z.of_nat (S (S n))) in Hj by lia.
        apply (IH rest2 (S (S n)) (Z.of_nat n + 1)%Z); try assumption.
        -- simpl in Hk. lia.
        -- intros j' Hj1 Hj2. lia.
      * replace (Z.of_nat n + 1)%Z with (Z.of_nat (S n)) in Hj by lia.
        apply (IH (m :: rest2) (S n) c); try assumption.
        -- simpl in Hk |- *. lia.
        -- intros j' Hj1 Hj2.
           destruct (Nat.eq_dec j' n) as [->|Hneq]; [exact Hp|].
           apply Hinv; [exact Hj1 | lia].
Qed.

(** Where no position starts a pair the loop does nothing. *)
Lemma sync_loop_no_pairs (history : list Message) :
  forall (rest : list Message) (n : nat) (i : Z) (st : State),
    skipn n history = rest ->
    (forall j : nat, (n <= j)%nat -> starts_pair history j = false) ->
    sync_loop rest i st = (Returns tt, st).
Proof.
  induction rest as [|u rest1 IH]; intros n i st Hrest Hnone;
    [reflexivity|].
  destruct rest1 as [|m rest2]; [reflexivity|].
  destruct (starts_pair_at history n u m rest2 Hrest) as [Hp [H1 _]].
  rewrite sync_loop_step, <- Hp, (Hnone n (le_n _)).
  apply (IH (S n)); [exact H1|].
  intros j Hj. apply Hnone. lia.
Qed.

(** X13: after a pass that reached its loop, a later pass over the same
    transcript, started from any state with the cursor that pass left,
    stores nothing and leaves the cursor where it is: it makes no call, or
    the [get_last_chunk_index] call alone. *)
Theorem second_pass_stores_nothing
    (history : list Message) (st st2 : State) :
  scan_is_reached st = true ->
  (-1 <= lastStoredMessageIndex st)%Z ->
  lastStoredMessageIndex st2
  = lastStoredMessageIndex (snd (syncHistory history st)) ->
  syncHistory history st2
  = (Returns tt,
     if isAvailable_of (getServers (probes st2))
     then called last_chunk_index_call (probed st2)
     else probed st2).
Proof.
  intros Hreach Hinv Hcur.
  rewrite (cursor_reached history st Hreach) in Hcur.
  set (c := lastStoredMessageIndex st) in *.
  assert (Hnone : forall j : nat,
            (lastStoredMessageIndex st2 < Z.of_nat j)%Z ->
            starts_pair history j = false).
  { intros j Hj. rewrite Hcur in Hj.
    remember (Z.to_nat (c + 1)) as n eqn:En.
    assert (Ei : (c + 1)%Z = Z.of_nat n) by lia.
    rewrite Ei in Hj.
    refine (scan_complete history _ _ n c (le_n _) eq_refl _ j Hj).
    intros j' Hj1 Hj2. lia. }
  rewrite syncHistory_unfold.
  destruct (isAvailable_of _); [|reflexivity].
  destruct (callTool _ _) as [|r]; [reflexivity|].
  destruct (last_chunk_index_is_read r); [|reflexivity].
  destruct (_ <=? _)%Z; [reflexivity|].
  unfold try_catch.
  rewrite (sync_loop_no_pairs history _
             (Z.to_nat (lastStoredMessageIndex st2 + 1)) _ _ eq_refl);
    [reflexivity|].
  intros j Hj. apply Hnone. lia.
Qed.

(** X14: the cursor stays inside the transcript: a pass leaves it where it
    was or moves it forward to an index of the transcript. *)
Theorem cursor_stays_inside_the_transcript
    (history : list Message) (st : State) :
  (-1 <= lastStoredMessageIndex st)%Z ->
  lastStoredMessageIndex (snd (syncHistory history st))
  = lastStoredMessageIndex st
  \/ (lastStoredMessageIndex st
      < lastStoredMessageIndex (snd (syncHistory history st))
      < Z.of_nat (List.length history))%Z.
Proof.
  intros Hinv.
  destruct (syncHistory_cursor history st Hinv) as [E|[E [H1 [_ Hm]]]];
    [left; exact E | right].
  split; [exact E|].
  destruct (nth_error history (Z.to_nat _)) eqn:En; [|discriminate].
  assert (Hlt : (Z.to_nat (lastStoredMessageIndex (snd (syncHistory history st)))
                 < List.length history)%nat)
    by (apply nth_error_Some; congruence).
  lia.
Qed.

(* ===================================================================== *)
(** ** Passes of the synchronizer that overlap                            *)
(* ===================================================================== *)

(** [syncHistory] is an async function: a call runs until its first
    [await] and is resumed later, and other code of the instance, another
    pass included, can run in between.  The constructor starts a pass that
    nothing awaits, and the storage handler starts another one.

    A pass is suspended at [await this.mcpHub.callTool(...)] for
    [get_last_chunk_index], with the outcome the call will have, or at
    [await this.storeExchangeInternal(...)] for the pair at [i], [rest]
    being the messages from [i + 2] on.  The cursor is read once, when the
    pass is resumed from its first [await]; the loop index [i] is local to
    the pass. *)
Inductive Pass : Type :=
| NotStarted
| AwaitsIndex (outcome : CallOutcome)
| AwaitsStore (rest : list Message) (i : Z)
| Finished.

(** The loop from index [i] up to its next [await].  What
    [storeExchangeInternal] does to the instance (the look-up and the call)
    it does before its own [await]; reading the answer changes nothing. *)
Fixpoint scan_to_await (rest : list Message) (i : Z) (st : State)
    : Pass * State :=
  match rest with
  | [] => (Finished, st)
  | userMessage :: rest1 =>
      match rest1 with
      | [] => (Finished, st)
      | assistantMessage :: rest2 =>
          if has_role user userMessage && has_role assistant assistantMessage
          then
            (AwaitsStore rest2 i,
             snd (storeExchangeInternal_sync userMessage assistantMessage
                    this_taskId st))
          else scan_to_await rest1 (i + 1) st
      end
  end.

(** A pass runs from where it is to its next [await] or to its end. *)
Definition resume_pass (history : list Message) (p : Pass) (st : State)
    : Pass * State :=
  match p with
  | NotStarted =>
      if isAvailable_of (getServers (probes st)) then
        (AwaitsIndex
           (callTool (List.length (calls st)) last_chunk_index_call),
         called last_chunk_index_call (probed st))
      else (Finished, probed st)
  | AwaitsIndex CallRejects => (Finished, st)
  | AwaitsIndex (CallResolves response) =>
      if last_chunk_index_is_read response then
        let localStartIndex := (lastStoredMessageIndex st + 1)%Z in
        if (Z.of_nat (List.length history) <=? localStartIndex)%Z
        then (Finished, st)
        else
          scan_to_await (skipn (Z.to_nat localStartIndex) history)
            localStartIndex st
      else (Finished, st)
  | AwaitsStore rest i =>
      scan_to_await rest (i + 2)
        {| lastStoredMessageIndex := (i + 1)%Z;
           calls := calls st; probes := probes st |}
  | Finished => (Finished, st)
  end.

(** The passes of an instance, each on the transcript it reads, and a
    schedule that tells which pass runs next. *)
Definition Passes : Type := list (list Message * Pass).

Fixpoint resume (k : nat) (ps : Passes) (st : State) : Passes * State :=
  match ps, k with
  | [], _ => ([], st)
  | (history, p) :: others, O =>
      let (p', st') := resume_pass history p st in
      ((history, p') :: others, st')
  | first :: others, S k' =>
      let (others', st') := resume k' others st in
      (first :: others', st')
  end.

Fixpoint run (schedule : list nat) (ps : Passes) (st : State)
    : Passes * State :=
  match schedule with
  | [] => (ps, st)
  | k :: later =>
      let (ps', st') := resume k ps st in run later ps' st'
  end.

(** The cursor after each step of a schedule. *)
Fixpoint cursors (schedule : list nat) (ps : Passes) (st : State) : list Z :=
  match schedule with
  | [] => []
  | k :: later =>
      let (ps', st') := resume k ps st in
      lastStoredMessageIndex st' :: cursors later ps' st'
  end.

(** One pass run on its own until it has finished. *)
Fixpoint complete (fuel : nat) (history : list Message) (x : Pass * State)
    : Pass * State :=
  match fuel with
  | O => x
  | S fuel' =>
      match fst x with
      | Finished => x
      | p => complete fuel' history (resume_pass history p (snd x))
      end
  end.

(** Passes run in turn: each has finished before the next is started. *)
Fixpoint passes_in_turn (histories : list (list Message)) (st : State)
    : State :=
  match histories with
  | [] => st
  | history :: later =>
      passes_in_turn later
        (snd (complete (List.length history + 2) history (NotStarted, st)))
  end.

(** A suspended loop is ahead of the cursor when its index is. *)
Definition ahead (p : Pass) (st : State) : Prop :=
  match p with
  | AwaitsStore _ i => (lastStoredMessageIndex st <= i)%Z
  | _ => True
  end.

(** *** A pass on its own is [syncHistory] *)

Lemma complete_Finished (fuel : nat) (history : list Message) (st : State) :
  complete fuel history (Finished, st) = (Finished, st).
Proof. destruct fuel; reflexivity. Qed.

Lemma complete_NotStarted (fuel : nat) (history : list Message) (st : State) :
  complete (S fuel) history (NotStarted, st)
  = complete fuel history (resume_pass history NotStarted st).
Proof. reflexivity. Qed.

Lemma complete_AwaitsIndex (fuel : nat) (history : list Message)
    (outcome : CallOutcome) (st : State) :
  complete (S fuel) history (AwaitsIndex outcome, st)
  = complete fuel history (resume_pass history (AwaitsIndex outcome) st).
Proof. reflexivity. Qed.

Lemma complete_AwaitsStore (fuel : nat) (history rest : list Message) (i : Z)
    (st : State) :
  complete (S fuel) history (AwaitsStore rest i, st)
  = complete fuel history (resume_pass history (AwaitsStore rest i) st).
Proof. reflexivity. Qed.

Lemma store_sync_run (u a : Message) (taskId : jsstring) (st : State) :
  storeExchangeInternal_sync u a taskId st
  = (Returns tt, snd (storeExchangeInternal_sync u a taskId st)).
Proof.
  destruct (store_sync_returns u a taskId st) as [st' [E _]].
  rewrite E. reflexivity.
Qed.

Lemma scan_to_await_step (u m : Message) (rest2 : list Message) (i : Z)
    (st : State) :
  scan_to_await (u :: m :: rest2) i st
  = if has_role user u && has_role assistant m
    then
      (AwaitsStore rest2 i,
       snd (storeExchangeInternal_sync u m this_taskId st))
    else scan_to_await (m :: rest2) (i + 1) st.
Proof. reflexivity. Qed.

Lemma scan_to_await_alone (history : list Message) (n : nat) :
  forall (rest : list Message) (i : Z) (st : State) (fuel : nat),
    (List.length rest <= n)%nat ->
    (n <= fuel)%nat ->
    complete fuel history (scan_to_await rest i st)
    = (Finished, snd (sync_loop rest i st)).
Proof.
  induction n as [|n IH]; intros rest i st fuel Hn Hf.
  - destruct rest; [|simpl in Hn; lia]. apply complete_Finished.
  - destruct rest as [|u [|m rest2]];
      [apply complete_Finished | apply complete_Finished|].
    rewrite sync_loop_step, scan_to_await_step.
    destruct (has_role user u && has_role assistant m).
    + destruct fuel as [|fuel]; [lia|].
      rewrite complete_AwaitsStore. cbn [resume_pass].
      rewrite (IH rest2 (i + 2)%Z _ fuel) by (simpl in Hn; lia).
      f_equal. unfold bind at 1.
      rewrite (store_sync_run u m this_taskId st). reflexivity.
    + apply IH; [simpl in Hn |- *; lia | lia].
Qed.

Lemma sync_loop_caught (rest : list Message) (i : Z) (st : State) :
  snd (try_catch (sync_loop rest i) (ret tt) st) = snd (sync_loop rest i st).
Proof. apply snd_try_catch_ret. Qed.

Lemma pass_alone (history : list Message) (st : State) :
  complete (List.length history + 2) history (NotStarted, st)
  = (Finished, snd (syncHistory history st)).
Proof.
  rewrite syncHistory_unfold.
  replace (List.length history + 2)%nat with (S (S (List.length history)))
    by lia.
  rewrite complete_NotStarted. cbn [resume_pass].
  destruct (isAvailable_of _); [|apply complete_Finished].
  rewrite complete_AwaitsIndex.
  destruct (callTool _ _) as [|r]; [apply complete_Finished|].
  cbn [resume_pass].
  destruct (last_chunk_index_is_read r); [|apply complete_Finished].
  cbv zeta.
  change (lastStoredMessageIndex (called last_chunk_index_call (probed st)))
    with (lastStoredMessageIndex st).
  destruct (_ <=? _)%Z; [apply complete_Finished|].
  rewrite sync_loop_caught.
  apply (scan_to_await_alone history (List.length history));
    [|apply le_n].
  rewrite length_skipn. lia.
Qed.

Lemma passes_in_turn_sync_all (histories : list (list Message)) :
  forall st : State, passes_in_turn histories st = sync_all histories st.
Proof.
  induction histories as [|history later IH]; intros st; [reflexivity|].
  cbn [passes_in_turn sync_all]. rewrite pass_alone. apply IH.
Qed.

(** *** Every step of a pass that is ahead of the cursor *)

Lemma scan_to_await_ahead (rest : list Message) :
  forall (i : Z) (st : State),
    (lastStoredMessageIndex st <= i)%Z ->
    lastStoredMessageIndex (snd (scan_to_await rest i st))
    = lastStoredMessageIndex st
    /\ ahead (fst (scan_to_await rest i st)) (snd (scan_to_await rest i st)).
Proof.
  induction rest as [|u rest1 IH]; intros i st Hi;
    [split; [reflexivity | exact I]|].
  destruct rest1 as [|m rest2]; [split; [reflexivity | exact I]|].
  rewrite scan_to_await_step.
  destruct (has_role user u && has_role assistant m).
  - destruct (store_sync_returns u m this_taskId st) as [st' [E Hc]].
    rewrite E. cbn [fst snd ahead]. split; [exact Hc | lia].
  - apply IH. lia.
Qed.

Lemma resume_pass_ahead (history : list Message) (p : Pass) (st : State) :
  ahead p st ->
  (lastStoredMessageIndex st
   <= lastStoredMessageIndex (snd (resume_pass history p st)))%Z
  /\ ahead (fst (resume_pass history p st)) (snd (resume_pass history p st)).
Proof.
  intros Hp. destruct p as [|[|r]|rest i|].
  - cbn [resume_pass]. destruct (isAvailable_of _); cbn; split; (lia || exact I).
  - cbn. split; [lia | exact I].
  - cbn [resume_pass].
    destruct (last_chunk_index_is_read r); [|cbn; split; [lia | exact I]].
    cbv zeta. destruct (_ <=? _)%Z; [cbn; split; [lia | exact I]|].
    destruct (scan_to_await_ahead
                (skipn (Z.to_nat (lastStoredMessageIndex st + 1)) history)
                (lastStoredMessageIndex st + 1)%Z st ltac:(lia)) as [E Ha].
    split; [lia | exact Ha].
  - cbn [resume_pass]. cbn [ahead] in Hp.
    set (st1 := {| lastStoredMessageIndex := (i + 1)%Z;
                   calls := calls st; probes := probes st |}).
    destruct (scan_to_await_ahead rest (i + 2)%Z st1) as [E Ha];
      [cbn; lia|].
    split; [|exact Ha]. rewrite E. cbn. lia.
  - cbn. split; [lia | exact I].
Qed.

(** *** Positions that start no pair *)

Lemma starts_pair_tail (m : Message) (l : list Message) (j : nat) :
  starts_pair (m :: l) (S j) = starts_pair l j.
Proof. reflexivity. Qed.

(** The loop runs through a stretch of positions that start no pair with
    the state untouched. *)
Lemma sync_loop_skips (skipped : list Message) :
  forall (rest : list Message) (i : Z) (st : State),
    (forall j : nat,
       (j < List.length skipped)%nat ->
       starts_pair (skipped ++ rest) j = false) ->
    sync_loop (skipped ++ rest) i st
    = sync_loop rest (i + Z.of_nat (List.length skipped)) st.
Proof.
  induction skipped as [|s skipped IH]; intros rest i st H.
  - simpl. rewrite Z.add_0_r. reflexivity.
  - replace (i + Z.of_nat (List.length (s :: skipped)))%Z
      with (i + 1 + Z.of_nat (List.length skipped))%Z by (simpl; lia).
    rewrite <- IH.
    + change ((s :: skipped) ++ rest) with (s :: (skipped ++ rest)).
      destruct (skipped ++ rest) as [|m l] eqn:E; [reflexivity|].
      rewrite sync_loop_step.
      pose proof (H 0%nat ltac:(simpl; lia)) as H0.
      change ((s :: skipped) ++ rest) with (s :: (skipped ++ rest)) in H0.
      rewrite E in H0. unfold starts_pair in H0. cbn in H0.
      rewrite H0. reflexivity.
    + intros j Hj. rewrite <- starts_pair_tail with (m := s).
      apply (H (S j)). simpl. lia.
Qed.

(** C3, amended: after any sequence of [syncHistory] passes that do not
    overlap, each over any transcript, the cursor (initially -1) never
    decreases, and a pass leaves it where it was or sets it to the index of
    an assistant message that immediately follows a user message; a pass
    that finds no such pair beyond the cursor does not move it; the loop
    runs through positions that start no pair with the state untouched; and
    at every step of a pass whose loop index is ahead of the cursor the
    cursor does not decrease and the loop index stays ahead.  Passes that
    run in turn are the sequence of the [syncHistory] calls. *)
Theorem cursor_monotonicity (histories : list (list Message)) :
  passes_in_turn histories initial_state = sync_all histories initial_state
  /\ trace_ok (-1) histories (cursor_trace histories initial_state)
  /\ (forall history : list Message,
        (forall c : Z,
           (lastStoredMessageIndex (sync_all histories initial_state) < c)%Z ->
           ~ is_pair_end history c) ->
        lastStoredMessageIndex
          (snd (syncHistory history (sync_all histories initial_state)))
        = lastStoredMessageIndex (sync_all histories initial_state))
  /\ (forall (skipped rest : list Message) (i : Z) (st : State),
        (forall j : nat,
           (j < List.length skipped)%nat ->
           starts_pair (skipped ++ rest) j = false) ->
        sync_loop (skipped ++ rest) i st
        = sync_loop rest (i + Z.of_nat (List.length skipped)) st)
  /\ (forall (history : list Message) (p : Pass) (st : State),
        ahead p st ->
        (lastStoredMessageIndex st
         <= lastStoredMessageIndex (snd (resume_pass history p st)))%Z
        /\ ahead (fst (resume_pass history p st))
             (snd (resume_pass history p st))).
Proof.
  split; [apply passes_in_turn_sync_all|].
  destruct (cursor_trace_ok histories initial_state) as [Ht Hi];
    [simpl; lia|].
  split; [exact Ht|]. split.
  - intros history Hnone.
    destruct (syncHistory_cursor history _ Hi) as [Hc|[Hc Hp]]; [exact Hc|].
    exfalso. exact (Hnone _ Hc Hp).
  - split.
    + intros skipped. apply sync_loop_skips.
    + intros history p st. apply resume_pass_ahead.
Qed.

(* ===================================================================== *)
(** ** The stored user text, the probe, the identity, the first revision  *)
(* ===================================================================== *)

(** *** The [<user_message>] section of the later revision *)

Lemma search_skips (r : regex) (a : char) (l pre s : jsstring) :
  first_literal r = Some (a :: l) ->
  ~ In a pre ->
  search r (pre ++ s) = search r s.
Proof.
  intros Hf. induction pre as [|d pre IH]; intros Ha; [reflexivity|].
  change ((d :: pre) ++ s) with (d :: (pre ++ s)).
  cbn [search]. unfold exec.
  rewrite (rmatch_first_literal r (a :: l) _ Some Hf).
  - apply IH. intros Hin. apply Ha. right. exact Hin.
  - apply startsWith_other_head. intros ->. apply Ha. left. reflexivity.
Qed.

Lemma search_no_occurrence (r : regex) (l s : jsstring) :
  first_literal r = Some l ->
  includes s l = false ->
  search r s = None.
Proof.
  intros Hf. induction s as [|c s IH]; intros H.
  - cbn [search]. unfold exec.
    rewrite (rmatch_first_literal r l _ Some Hf); [reflexivity|].
    apply includes_startsWith. exact H.
  - cbn [search]. unfold exec.
    rewrite (rmatch_first_literal r l _ Some Hf).
    + apply IH. apply (includes_cons _ _ _ H).
    + apply includes_startsWith. exact H.
Qed.

Lemma firstn_matched (m rest : jsstring) :
  firstn (List.length (m ++ rest) - List.length rest) (m ++ rest) = m.
Proof.
  rewrite length_app.
  replace (List.length m + List.length rest - List.length rest)%nat
    with (List.length m + 0)%nat by lia.
  rewrite firstn_app_2. simpl. apply app_nil_r.
Qed.

Lemma search_now (r : regex) (m rest : jsstring) :
  exec r (m ++ rest) = Some rest -> search r (m ++ rest) = Some m.
Proof.
  intros H. destruct (m ++ rest) as [|c s] eqn:E.
  - cbn [search]. rewrite H. rewrite <- E, firstn_matched. reflexivity.
  - cbn [search]. rewrite H. rewrite <- E, firstn_matched. reflexivity.
Qed.

Lemma exec_user_message (inner post : jsstring) :
  ~ In lt_sign inner ->
  exec user_message_regex
    ((user_message_open ++ inner ++ user_message_close) ++ post)
  = Some post.
Proof.
  intros H. unfold exec, user_message_regex. cbn [rmatch].
  rewrite <- !app_assoc. rewrite strip_prefix_app.
  rewrite (star_lazy_to_literal lt_sign (lit "/user_message>")).
  - apply star_lazy_now. rewrite strip_prefix_app. reflexivity.
  - intros s' E. change (lt_sign :: lit "/user_message>")
      with user_message_close in E. rewrite E. reflexivity.
  - exact H.
Qed.

Lemma user_message_section_found (pre inner post : jsstring) :
  ~ In lt_sign pre ->
  ~ In lt_sign inner ->
  user_message_section
    (pre ++ user_message_open ++ inner ++ user_message_close ++ post)
  = Some inner.
Proof.
  intros Hpre Hinner. unfold user_message_section.
  rewrite (search_skips user_message_regex lt_sign (lit "user_message>"))
    by (reflexivity || exact Hpre).
  replace (user_message_open ++ inner ++ user_message_close ++ post)
    with ((user_message_open ++ inner ++ user_message_close) ++ post)
    by (rewrite <- !app_assoc; reflexivity).
  rewrite (search_now _ _ _ (exec_user_message inner post Hinner)).
  rewrite skipn_app, skipn_all, Nat.sub_diag. cbn [skipn app].
  rewrite !length_app.
  replace (List.length user_message_open
           + (List.length inner + List.length user_message_close)
           - List.length user_message_open
           - List.length user_message_close)%nat
    with (List.length inner + 0)%nat by lia.
  rewrite firstn_app_2. simpl. rewrite app_nil_r. reflexivity.
Qed.

Lemma store_sync_available_calls (u a : Message) (taskId : jsstring)
    (st : State) :
  isAvailable_of (getServers (probes st)) = true ->
  is_empty (finalUserMessageToStore_of (message_text u))
  && is_empty (cleanMessageContent (message_text a)) = false ->
  calls (snd (storeExchangeInternal_sync u a taskId st))
  = calls st ++ [store_sync_call u a taskId].
Proof.
  intros H He. unfold storeExchangeInternal_sync.
  rewrite bind_isAvailable, H.
  fold (finalUserMessageToStore_of (message_text u)).
  cbn [negb]. cbv iota. rewrite He.
  rewrite snd_try_catch_ret, bind_callTool.
  destruct (callTool _ _) as [|r]; [reflexivity|].
  rewrite read_store_response_state. reflexivity.
Qed.

(** X15: the later revision stores, of a user text that holds a
    [<user_message>] section, the trimmed inner text of that section and
    nothing of what is around it: for a text with no [<] in front of the
    opening tag and none inside the section, the capture is the inner text,
    and when it is not empty the [store_exchange] call carries its trimmed
    form as [userMessage]. *)
Theorem user_message_section_is_stored
    (pre inner post : jsstring) (userMessage assistantMessage : Message)
    (taskId : jsstring) (st : State) :
  ~ In lt_sign pre ->
  ~ In lt_sign inner ->
  inner <> [] ->
  message_text userMessage
  = pre ++ user_message_open ++ inner ++ user_message_close ++ post ->
  user_message_section (message_text userMessage) = Some inner
  /\ finalUserMessageToStore_of (message_text userMessage) = trim inner
  /\ (isAvailable_of (getServers (probes st)) = true ->
      is_empty (trim inner)
      && is_empty (cleanMessageContent (message_text assistantMessage))
      = false ->
      calls (snd (storeExchangeInternal_sync userMessage assistantMessage
                    taskId st))
      = calls st
        ++ [tool_call (lit "store_exchange")
              (StoreExchangeMcpPayload (trim inner)
                 (cleanMessageContent (message_text assistantMessage))
                 taskId (msg_ts userMessage) (msg_ts assistantMessage))]).
Proof.
  intros Hpre Hinner Hne Htext.
  assert (Es : user_message_section (message_text userMessage) = Some inner)
    by (rewrite Htext; apply user_message_section_found; assumption).
  assert (Ef : finalUserMessageToStore_of (message_text userMessage)
               = trim inner).
  { unfold finalUserMessageToStore_of. rewrite Es.
    destruct inner; [congruence | reflexivity]. }
  split; [exact Es|]. split; [exact Ef|].
  intros Ha He. rewrite <- Ef in He |- *.
  apply store_sync_available_calls; assumption.
Qed.

(** X16: the later revision stores a user text that holds no opening
    [<user_message>] tag as it is, unsanitized: the [store_exchange] call
    carries the raw text as [userMessage]. *)
Theorem user_text_without_section_is_stored_raw
    (userMessage assistantMessage : Message) (taskId : jsstring) (st : State) :
  includes (message_text userMessage) user_message_open = false ->
  message_text userMessage <> [] ->
  isAvailable_of (getServers (probes st)) = true ->
  finalUserMessageToStore_of (message_text userMessage)
  = message_text userMessage
  /\ calls (snd (storeExchangeInternal_sync userMessage assistantMessage
                  taskId st))
     = calls st
       ++ [tool_call (lit "store_exchange")
             (StoreExchangeMcpPayload (message_text userMessage)
                (cleanMessageContent (message_text assistantMessage))
                taskId (msg_ts userMessage) (msg_ts assistantMessage))].
Proof.
  intros Hno Hne Ha.
  assert (Ef : finalUserMessageToStore_of (message_text userMessage)
               = message_text userMessage).
  { unfold finalUserMessageToStore_of, user_message_section.
    rewrite (search_no_occurrence user_message_regex user_message_open);
      [reflexivity | reflexivity | exact Hno]. }
  split; [exact Ef|].
  rewrite <- Ef. apply store_sync_available_calls; [exact Ha|].
  rewrite Ef. destruct (message_text userMessage); [congruence | reflexivity].
Qed.

(** *** The probe *)

(** X17: the probe looks at the first registry entry named
    [semantic-memory] only: the service is available exactly when that
    entry is connected, whatever entries of the same name follow it. *)
Theorem first_entry_decides_availability
    (before : list McpServer) (server : McpServer) (after : list McpServer) :
  (forall other, In other before ->
     srv_name other <> semanticMemoryServerName) ->
  srv_name server = semanticMemoryServerName ->
  isAvailable_of (before ++ server :: after)
  = str_eqb (srv_status server) (lit "connected").
Proof.
  intros Hbefore Hname. unfold isAvailable_of.
  induction before as [|other before IH].
  - simpl. rewrite Hname, str_eqb_refl. reflexivity.
  - simpl. rewrite (str_eqb_neq _ _ (Hbefore other (or_introl eq_refl))).
    apply IH. intros x Hx. apply Hbefore. right. exact Hx.
Qed.

(** *** The core identity *)

Definition hub_probed (hs : HubState) : HubState :=
  {| hub_instance := probed (hub_instance hs);
     identity_requests := identity_requests hs |}.

Definition hub_requested (hs : HubState) : HubState :=
  {| hub_instance := hub_instance hs;
     identity_requests := S (identity_requests hs) |}.

(** The identity object an outcome of the call carries, if any. *)
Definition identity_in (outcome : CallOutcome) : option json :=
  match outcome with
  | CallResolves (Content (first :: _)) =>
      if str_eqb (rb_type first) (lit "text") then
        match JSON_parse_identity (rb_text first) with
        | Some resultPayload =>
            if id_success resultPayload then identity resultPayload else None
        | None => None
        end
      else None
  | _ => None
  end.

Definition identity_outcome (hs : HubState) : CallOutcome :=
  callTool_identity
    (List.length (calls (hub_instance hs)) + identity_requests hs).

Lemma getCoreIdentity_unfold (hs : HubState) :
  getCoreIdentity hs
  = if isAvailable_of (getServers (probes (hub_instance hs)))
    then (Returns (option_map JSON_stringify (identity_in (identity_outcome hs))),
          hub_requested (hub_probed hs))
    else (Returns None, hub_probed hs).
Proof.
  unfold getCoreIdentity, identity_in, identity_outcome.
  unfold bind at 1. unfold lift_hub, isAvailable. cbv beta iota.
  cbn [hub_instance probes].
  fold (probed (hub_instance hs)). fold (hub_probed hs).
  destruct (isAvailable_of _); cbn [negb]; cbv iota; [|reflexivity].
  unfold try_catch, bind, callTool_get_core_identity, parse_identity, ret,
    throw.
  cbn [hub_instance hub_probed identity_requests calls probed].
  fold (hub_requested (hub_probed hs)).
  repeat split_match; reflexivity.
Qed.

Lemma getCoreIdentityPrompt_unfold (hs : HubState) :
  getCoreIdentityPrompt true hs
  = if isAvailable_of (getServers (probes (hub_instance hs)))
    then (Returns
            match identity_in (identity_outcome hs) with
            | Some o => JSON_stringify o ++ [nl; nl]
            | None => missing_identity_prompt
            end,
          hub_requested (hub_probed hs))
    else (Returns missing_server_prompt, hub_probed hs).
Proof.
  unfold getCoreIdentityPrompt, identity_in, identity_outcome.
  cbn [negb]. cbv iota.
  unfold bind at 1. unfold lift_hub, isAvailable. cbv beta iota.
  cbn [hub_instance probes].
  fold (probed (hub_instance hs)). fold (hub_probed hs).
  destruct (isAvailable_of _); cbn [negb]; cbv iota; [|reflexivity].
  unfold try_catch, bind, callTool_get_core_identity, parse_identity, ret,
    throw.
  cbn [hub_instance hub_probed identity_requests calls probed].
  fold (hub_requested (hub_probed hs)).
  repeat split_match; reflexivity.
Qed.

Lemma identity_in_Some (outcome : CallOutcome) (o : json) :
  identity_in outcome = Some o ->
  exists (first : ResponseBlock) (rest : list ResponseBlock)
         (resultPayload : IdentityPayload),
    outcome = CallResolves (Content (first :: rest))
    /\ rb_type first = lit "text"
    /\ JSON_parse_identity (rb_text first) = Some resultPayload
    /\ id_success resultPayload = true
    /\ identity resultPayload = Some o.
Proof.
  unfold identity_in. intros H.
  destruct outcome as [|[| |[|first rest]]]; try discriminate.
  destruct (str_eqb (rb_type first) (lit "text")) eqn:Et; [|discriminate].
  destruct (JSON_parse_identity (rb_text first)) as [p|] eqn:Ep;
    [|discriminate].
  destruct (id_success p) eqn:Es; [|discriminate].
  exists first, rest, p. apply str_eqb_eq in Et.
  repeat split; assumption.
Qed.

(** X18: [getCoreIdentity] never throws.  It returns [null] without a
    call when the service is unavailable, and a text only when the call
    resolved with a first content block of type text whose parsed envelope
    has a truthy [success] and an object as [identity]; the text is then the
    serialization of that object.  It makes at most one call, and leaves the
    cursor and the other calls of the instance as they are. *)
Theorem core_identity_is_read_from_the_service (hs : HubState) :
  exists (result : option jsstring) (hs' : HubState),
    getCoreIdentity hs = (Returns result, hs')
    /\ lastStoredMessageIndex (hub_instance hs')
       = lastStoredMessageIndex (hub_instance hs)
    /\ calls (hub_instance hs') = calls (hub_instance hs)
    /\ (identity_requests hs' <= S (identity_requests hs))%nat
    /\ (isAvailable_of (getServers (probes (hub_instance hs))) = false ->
        result = None /\ identity_requests hs' = identity_requests hs)
    /\ (forall text : jsstring,
          result = Some text ->
          isAvailable_of (getServers (probes (hub_instance hs))) = true
          /\ exists (first : ResponseBlock) (rest : list ResponseBlock)
                    (resultPayload : IdentityPayload) (o : json),
               callTool_identity
                 (List.length (calls (hub_instance hs)) + identity_requests hs)
               = CallResolves (Content (first :: rest))
               /\ rb_type first = lit "text"
               /\ JSON_parse_identity (rb_text first) = Some resultPayload
               /\ id_success resultPayload = true
               /\ identity resultPayload = Some o
               /\ text = JSON_stringify o).
Proof.
  rewrite getCoreIdentity_unfold.
  destruct (isAvailable_of _).
  - do 2 eexists. split; [reflexivity|].
    split; [reflexivity|]. split; [reflexivity|].
    split; [simpl; lia|]. split; [discriminate|].
    intros text H. split; [reflexivity|].
    destruct (identity_in (identity_outcome hs)) as [o|] eqn:E;
      [|discriminate].
    injection H as <-.
    destruct (identity_in_Some _ _ E) as [first [rest [p [H1 [H2 [H3 [H4 H5]]]]]]].
    exists first, rest, p, o. repeat split; assumption.
  - do 2 eexists. split; [reflexivity|].
    split; [reflexivity|]. split; [reflexivity|].
    split; [simpl; lia|]. split; [intros _; split; reflexivity|].
    discriminate.
Qed.

(** X19: the identity part of the system prompt.  Without a hub
    [getCoreIdentityPrompt] asks nothing and returns its first notice.  With
    a hub it does what [getCoreIdentity] does, in the same state: it returns
    the identity text followed by a blank line when [getCoreIdentity] returns
    a text, and otherwise the notice for an unavailable server or for a
    missing identity.  It never throws, and every text it returns ends with
    a blank line. *)
Theorem identity_prompt_follows_the_core_identity (hs : HubState) :
  getCoreIdentityPrompt false hs = (Returns missing_hub_prompt, hs)
  /\ (exists (result : option jsstring) (hs' : HubState),
        getCoreIdentity hs = (Returns result, hs')
        /\ getCoreIdentityPrompt true hs
           = (Returns
                match result with
                | Some text => text ++ [nl; nl]
                | None =>
                    if isAvailable_of (getServers (probes (hub_instance hs)))
                    then missing_identity_prompt
                    else missing_server_prompt
                end, hs'))
  /\ (forall mcpHub : bool,
        exists body : jsstring,
          fst (getCoreIdentityPrompt mcpHub hs) = Returns (body ++ [nl; nl])).
Proof.
  split; [reflexivity|]. split.
  - rewrite getCoreIdentity_unfold, getCoreIdentityPrompt_unfold.
    destruct (isAvailable_of _).
    + do 2 eexists. split; [reflexivity|].
      destruct (identity_in (identity_outcome hs)); reflexivity.
    + do 2 eexists. split; reflexivity.
  - intros [|].
    + rewrite getCoreIdentityPrompt_unfold.
      destruct (isAvailable_of _).
      * destruct (identity_in (identity_outcome hs));
          eexists; cbn [fst]; unfold missing_identity_prompt; reflexivity.
      * eexists. cbn [fst]. unfold missing_server_prompt. reflexivity.
    + eexists. unfold getCoreIdentityPrompt. cbn [negb fst].
      unfold ret, missing_hub_prompt. cbn [fst]. reflexivity.
Qed.

(** *** The first revision *)

Lemma enrich_first_returns (query : jsstring) (history : list Message)
    (st : State) :
  exists memories st',
    enrichWithContextInternal_first query history st = (Returns memories, st').
Proof.
  unfold enrichWithContextInternal_first. run.
  repeat split_match; do 2 eexists; reflexivity.
Qed.

(** The first revision leaves the blocks of the content as they are and
    puts at most one recall block in front of them. *)
Lemma handler_first_content (p : UserMessageEnrichmentPayload) (st : State) :
  userContent (fst (handleBeforeUserMessageEnrichment_first p st))
  = userContent p
  \/ exists recalledMemories,
       userContent (fst (handleBeforeUserMessageEnrichment_first p st))
       = memoryContextBlock formatMemory recalledMemories :: userContent p.
Proof.
  unfold handleBeforeUserMessageEnrichment_first, enrichmentPromise_first.
  destruct (negb _); [left; reflexivity|].
  cbv beta iota delta [bind get_userContent lift unshift_userContent ret
                         es_userContent es_instance].
  destruct (is_empty _); [left; reflexivity|].
  destruct (enrich_first_returns
              (join [nl; nl] (flat_map query_parts_of (userContent p)))
              (currentHistorySlice p) st) as [memories [st' ->]].
  destruct (0 <? List.length memories)%nat;
    [right; exists memories; reflexivity | left; reflexivity].
Qed.

Lemma recall_block_is_not_stored_first
    (format : nat -> RecalledMemoryItem -> jsstring)
    (recalledMemories : list RecalledMemoryItem) :
  is_stored_user_block_first (memoryContextBlock format recalledMemories)
  = false.
Proof.
  unfold is_stored_user_block_first, memoryContextBlock, recall_block_text.
  cbn [is_text_block block_text andb]. rewrite startsWith_app. reflexivity.
Qed.

(** X20: the first revision, which has no sanitizer, keeps its recall out
    of the store at the level of blocks: whatever the recalled texts hold,
    storing the user content as the enrichment handler left it does exactly
    what storing the content of before the handler does. *)
Theorem first_revision_does_not_store_its_recall
    (p : UserMessageEnrichmentPayload) (st0 : State)
    (ts : option number) (assistantMessage : Message) (taskId : jsstring)
    (st : State) :
  user_message_text_first
    {| msg_role := user;
       msg_content :=
         BlockContent
           (userContent (fst (handleBeforeUserMessageEnrichment_first p st0)));
       msg_ts := ts |}
  = user_message_text_first
      {| msg_role := user; msg_content := BlockContent (userContent p);
         msg_ts := ts |}
  /\ storeExchangeInternal_first
       {| msg_role := user;
          msg_content :=
            BlockContent
              (userContent
                 (fst (handleBeforeUserMessageEnrichment_first p st0)));
          msg_ts := ts |}
       assistantMessage taskId st
     = storeExchangeInternal_first
         {| msg_role := user; msg_content := BlockContent (userContent p);
            msg_ts := ts |}
         assistantMessage taskId st.
Proof.
  assert (E : user_message_text_first
                {| msg_role := user;
                   msg_content :=
                     BlockContent
                       (userContent
                          (fst (handleBeforeUserMessageEnrichment_first p st0)));
                   msg_ts := ts |}
              = user_message_text_first
                  {| msg_role := user;
                     msg_content := BlockContent (userContent p);
                     msg_ts := ts |}).
  { unfold user_message_text_first. cbn [msg_content].
    destruct (handler_first_content p st0) as [-> | [memories ->]];
      [reflexivity|].
    cbn [filter]. rewrite recall_block_is_not_stored_first. reflexivity. }
  split; [exact E|].
  unfold storeExchangeInternal_first. rewrite E. reflexivity.
Qed.

End Integration.

(* ===================================================================== *)
(** ** Concrete runs                                                      *)
(* ===================================================================== *)

(** A host to run the operations on.  Numbers are integers that count
    ten-thousandths, which is enough to render a score with four decimals;
    the service answers [enrich_context] with one memory and every other
    call with a bare success. *)
Definition demo_toFixed4 (n : Z) : jsstring :=
  decimal (Z.to_nat (n / 10000)) ++ lit "."
  ++ tl (decimal (Z.to_nat (10000 + n mod 10000))).

Definition demo_toString (n : Z) : jsstring := decimal (Z.to_nat n).

Definition demo_one_minus (n : Z) : Z := (10000 - n)%Z.

Definition demo_item : RecalledMemoryItem Z :=
  Build_RecalledMemoryItem Z (lit "Recalled context") (lit "mem1") 0%Z
    (Some 8000%Z) None.

Definition demo_JSON_parse (text : jsstring) : option (ResultPayload Z) :=
  if str_eqb text (lit "memories")
  then Some (Build_ResultPayload Z true (Some [demo_item]) None)
  else if str_eqb text (lit "ok")
  then Some (Build_ResultPayload Z true None None)
  else None.

Definition demo_getServers (n : nat) : list McpServer :=
  [ {| srv_name := lit "semantic-memory"; srv_status := lit "connected" |} ].

Definition offline_getServers (n : nat) : list McpServer :=
  [ {| srv_name := lit "semantic-memory"; srv_status := lit "disconnected" |} ].

Definition demo_callTool (n : nat) (c : ToolCall Z) : CallOutcome :=
  CallResolves
    (Content
       [ {| rb_type := lit "text";
            rb_text := if str_eqb (call_tool Z c) (lit "enrich_context")
                       then lit "memories" else lit "ok" |} ]).

Definition failing_callTool (n : nat) (c : ToolCall Z) : CallOutcome :=
  CallRejects.

Definition demo_taskId : jsstring := lit "test-task-123".

Definition says (r : Role) (s : string) : Message Z :=
  Build_Message Z r (StringContent (lit s)) None.

Definition demo_start : State Z := initial_state Z.

(** *** The cases of the repository's test suite *)

Example query_skips_image_block :
  userQuery_of
    [TextBlock (lit "First part of query"); ImageBlock (lit "fakeimgdata");
     TextBlock (lit "Second part of query")]
  = lit "First part of query" ++ [nl; nl] ++ lit "Second part of query".
Proof. vm_compute. reflexivity. Qed.

Example context_of_one_message :
  calls Z
    (snd (enrichWithContextInternal Z demo_JSON_parse demo_getServers
            demo_callTool (lit "Test query") [says user "Previous message"]
            demo_start))
  = [tool_call Z (lit "enrich_context")
       (EnrichContextMcpArgs Z (lit "Test query")
          (lit "user: Previous message") 3)].
Proof. vm_compute. reflexivity. Qed.

Example rejected_call_is_caught :
  fst (enrichWithContextInternal Z demo_JSON_parse demo_getServers
         failing_callTool (lit "Test query") [] demo_start)
  = Returns (list (RecalledMemoryItem Z)) [].
Proof. vm_compute. reflexivity. Qed.

(** *** C2 *)

Definition marker_item : RecalledMemoryItem Z :=
  Build_RecalledMemoryItem Z (lit "x[/Recalled Memories]y") (lit "s1") 0%Z
    None None.

(** A memory whose text holds the closing marker: the sanitizer stops at it
    and leaves the rest of the recall block behind. *)
Lemma recall_block_with_closing_marker_survives :
  cleanMessageContent
    (recall_block_text
       (formattedMemories_of Z (formatMemory Z demo_toFixed4) [marker_item]))
  = lit "y" ++ [nl] ++ recall_close.
Proof. vm_compute. reflexivity. Qed.

(** The removal of [<environment_details>] blocks runs first and can join a
    closing marker inside the recall block. *)
Example environment_details_can_join_a_closing_marker :
  cleanMessageContent
    (recall_block_text
       (lit "[/Recalled <environment_details></environment_details>Memories]"))
  = recall_close.
Proof. vm_compute. reflexivity. Qed.

Lemma recall_block_is_removed_example :
  includes
    (formattedMemories_of Z (formatMemory Z demo_toFixed4) [demo_item])
    recall_close = false
  /\ includes
       (formattedMemories_of Z (formatMemory Z demo_toFixed4) [demo_item])
       environment_details_open = false
  /\ cleanMessageContent
       (recall_block_text
          (formattedMemories_of Z (formatMemory Z demo_toFixed4) [demo_item]))
     = [].
Proof.
  assert (H1 : includes
                 (formattedMemories_of Z (formatMemory Z demo_toFixed4)
                    [demo_item]) recall_close = false)
    by (vm_compute; reflexivity).
  assert (H2 : includes
                 (formattedMemories_of Z (formatMemory Z demo_toFixed4)
                    [demo_item]) environment_details_open = false)
    by (vm_compute; reflexivity).
  assert (H0 : [demo_item] <> []) by discriminate.
  exact (conj H1
           (conj H2
              (proj2
                 (recall_block_is_removed Z demo_toFixed4 demo_toString
                    demo_one_minus 10000%Z (formatMemory Z demo_toFixed4)
                    [demo_item] (or_introl eq_refl) H0 H1 H2)))).
Defined.

(** *** C3 *)

Example cursor_skips_unpaired_messages :
  cursor_trace Z demo_JSON_parse demo_getServers demo_callTool demo_taskId
    [ [says assistant "hello"; says user "q1"];
      [says assistant "hello"; says user "q1"; says assistant "a1";
       says user "q2"];
      [says assistant "hello"; says user "q1"; says assistant "a1";
       says user "q2"; says user "q3"; says assistant "a3"] ]
    demo_start
  = [(-1)%Z; 2%Z; 5%Z].
Proof. vm_compute. reflexivity. Qed.

(** *** C4 *)

Definition other_enrichment : UserMessageEnrichmentPayload Z :=
  Build_UserMessageEnrichmentPayload Z (lit "different-task-id")
    [TextBlock (lit "Original user query")] [] [].

Definition other_response : AssistantResponseProcessedPayload Z :=
  Build_AssistantResponseProcessedPayload Z (lit "different-task-id")
    (says user "User question")
    (says assistant "<attempt_completion>Assistant answer").

Lemma mismatched_taskId_is_ignored_example :
  handleBeforeUserMessageEnrichment Z demo_toFixed4 demo_JSON_parse
    demo_getServers demo_callTool demo_taskId other_enrichment demo_start
  = (Build_UserMessageEnrichmentPayload Z (lit "different-task-id")
       [TextBlock (lit "Original user query")] [] [Fulfilled],
     demo_start)
  /\ handleAfterAssistantResponseProcessed Z demo_JSON_parse demo_getServers
       demo_callTool demo_taskId other_response demo_start
     = (Returns unit tt, demo_start)
  /\ handleAfterAssistantResponseProcessed_sync Z demo_JSON_parse
       demo_getServers demo_callTool demo_taskId
       [says user "User question"] other_response demo_start
     = (Returns unit tt, demo_start).
Proof.
  assert (H1 : enr_taskId Z other_enrichment <> demo_taskId)
    by (vm_compute; discriminate).
  assert (H2 : arp_taskId Z other_response <> demo_taskId)
    by (vm_compute; discriminate).
  pose proof (mismatched_taskId_is_ignored Z demo_toFixed4 demo_toString
                demo_one_minus 10000%Z demo_JSON_parse demo_getServers
                demo_callTool demo_taskId other_enrichment other_response
                [says user "User question"] demo_start H1 H2)
    as [Hb [_ [Ha Hs]]].
  exact (conj Hb (conj Ha Hs)).
Defined.

(** *** C5 *)

Lemma unavailable_service_is_not_called_example :
  isAvailable_of (offline_getServers (probes Z demo_start)) = false
  /\ enrichWithContextInternal Z demo_JSON_parse offline_getServers
       demo_callTool (lit "Test query") [] demo_start
     = (Returns (list (RecalledMemoryItem Z)) [], probed Z demo_start)
  /\ storeExchangeInternal Z demo_JSON_parse offline_getServers demo_callTool
       (says user "Test") (says assistant "Response") (lit "task123")
       demo_start
     = (Returns unit tt, probed Z demo_start)
  /\ calls Z (probed Z demo_start) = [].
Proof.
  assert (H : isAvailable_of (offline_getServers (probes Z demo_start))
              = false) by reflexivity.
  pose proof (unavailable_service_is_not_called Z demo_JSON_parse
                offline_getServers demo_callTool (lit "Test query") []
                (says user "Test") (says assistant "Response")
                (lit "task123") demo_start H)
    as [He [Hs [_ [Hc _]]]].
  exact (conj H (conj He (conj Hs Hc))).
Defined.

(** *** C6 *)

Definition three_blocks : list ContentBlock :=
  [TextBlock (lit "First"); ImageBlock (lit "fakeimgdata");
   TextBlock (lit "Second")].

Definition demo_enrichment : UserMessageEnrichmentPayload Z :=
  Build_UserMessageEnrichmentPayload Z demo_taskId three_blocks [] [].


(** *** C7 *)

Definition tool_result_only : list ContentBlock :=
  [ToolResultBlock (lit "toolu_1") (ContentString (lit "abc"))].

(** The store operation derives no text from a tool result, where the
    extraction rule of the specification derives its nested text. *)
Lemma tool_result_is_not_stored :
  message_text Z (Build_Message Z user (BlockContent tool_result_only) None)
  = []
  /\ spec_extract_text (BlockContent tool_result_only) = lit "abc"
  /\ calls Z
       (snd (storeExchangeInternal Z demo_JSON_parse demo_getServers
               demo_callTool
               (Build_Message Z user (BlockContent tool_result_only) None)
               (says assistant "ok") demo_taskId demo_start))
     = [tool_call Z (lit "store_exchange")
          (StoreExchangeMcpPayload Z [] (lit "ok") demo_taskId None None)].
Proof. vm_compute. repeat split; reflexivity. Qed.

(** *** C8 *)

Definition two_text_blocks : list (Message Z) :=
  [Build_Message Z user
     (BlockContent [TextBlock (lit "a"); TextBlock (lit "b")]) None].

(** Two text blocks of one entry are joined by a space in the context that
    is sent, not by the blank line of the extraction rule. *)
Lemma context_joins_text_blocks_with_a_space :
  calls Z
    (snd (enrichWithContextInternal Z demo_JSON_parse demo_getServers
            demo_callTool (lit "q") two_text_blocks demo_start))
  = [tool_call Z (lit "enrich_context")
       (EnrichContextMcpArgs Z (lit "q") (lit "user: a b") 3)]
  /\ spec_conversationContext Z two_text_blocks
     = lit "user: a" ++ [nl; nl] ++ lit "b".
Proof. vm_compute. split; reflexivity. Qed.

Definition seven_messages : list (Message Z) :=
  [says user "m1"; says assistant "m2"; says user "m3"; says assistant "m4";
   says user "m5"; says assistant "<result>m6</result>"; says user "m7"].

Lemma conversation_context_construction_example :
  isAvailable_of (demo_getServers (probes Z demo_start)) = true
  /\ calls Z
       (snd (enrichWithContextInternal Z demo_JSON_parse demo_getServers
               demo_callTool (lit "q") seven_messages demo_start))
     = [tool_call Z (lit "enrich_context")
          (EnrichContextMcpArgs Z (lit "q")
             (lit "assistant: m2" ++ [nl] ++ lit "user: m3" ++ [nl]
              ++ lit "assistant: m4" ++ [nl] ++ lit "user: m5" ++ [nl]
              ++ lit "assistant: m6" ++ [nl] ++ lit "user: m7") 3)].
Proof.
  assert (H : isAvailable_of (demo_getServers (probes Z demo_start)) = true)
    by reflexivity.
  split; [exact H|].
  exact (proj1
           (conversation_context_construction Z demo_JSON_parse
              demo_getServers demo_callTool (lit "q") seven_messages
              demo_start H)).
Defined.

(** *** C9 *)

Definition plain_response : AssistantResponseProcessedPayload Z :=
  Build_AssistantResponseProcessedPayload Z demo_taskId
    (says user "User question") (says assistant "Assistant answer").

(** Without the completion marker the storage handler of the revision with
    the synchronizer makes no call, where a direct store of the exchange
    makes one. *)
Lemma storage_handler_without_marker_stores_nothing :
  handleAfterAssistantResponseProcessed_sync Z demo_JSON_parse
    demo_getServers demo_callTool demo_taskId
    [says user "User question"; says assistant "Assistant answer"]
    plain_response demo_start
  = (Returns unit tt, demo_start)
  /\ calls Z
       (snd (storeExchangeInternal_sync Z demo_JSON_parse demo_getServers
               demo_callTool (says user "User question")
               (says assistant "Assistant answer") demo_taskId demo_start))
     = [tool_call Z (lit "store_exchange")
          (StoreExchangeMcpPayload Z (lit "User question")
             (lit "Assistant answer") demo_taskId None None)].
Proof. vm_compute. split; reflexivity. Qed.

Definition completed_response : AssistantResponseProcessedPayload Z :=
  Build_AssistantResponseProcessedPayload Z demo_taskId
    (says user "User question")
    (says assistant "<attempt_completion>Done</attempt_completion>").

Lemma storage_handler_behaviour_example :
  arp_taskId Z completed_response = demo_taskId
  /\ includes (message_text Z (arp_assistantMessage Z completed_response))
       completion_signal = true
  /\ handleAfterAssistantResponseProcessed_sync Z demo_JSON_parse
       demo_getServers demo_callTool demo_taskId
       [says user "User question";
        says assistant "<attempt_completion>Done</attempt_completion>"]
       completed_response demo_start
     = syncHistory Z demo_JSON_parse demo_getServers demo_callTool demo_taskId
         [says user "User question";
          says assistant "<attempt_completion>Done</attempt_completion>"]
         demo_start.
Proof.
  assert (H : arp_taskId Z completed_response = demo_taskId) by reflexivity.
  assert (Hm : includes
                 (message_text Z (arp_assistantMessage Z completed_response))
                 completion_signal = true) by (vm_compute; reflexivity).
  refine (conj H (conj Hm _)).
  exact (proj1
           (storage_handler_behaviour Z demo_JSON_parse demo_getServers
              demo_callTool demo_taskId completed_response
              [says user "User question";
               says assistant "<attempt_completion>Done</attempt_completion>"]
              demo_start H) Hm).
Defined.

(** *** C10 *)

Example promise_is_fulfilled_when_the_call_rejects :
  promises Z
    (fst (handleBeforeUserMessageEnrichment Z demo_toFixed4 demo_JSON_parse
            demo_getServers failing_callTool demo_taskId demo_enrichment
            demo_start))
  = [Fulfilled].
Proof. vm_compute. reflexivity. Qed.

(* ===================================================================== *)
(** ** Concrete runs of the further properties                            *)
(* ===================================================================== *)

(** *** The sanitizer *)

Lemma cleanMessageContent_of_white_space_example :
  forallb is_space (lit "  " ++ [nl; 9%N] ++ lit " ") = true
  /\ cleanMessageContent (lit "  " ++ [nl; 9%N] ++ lit " ") = [].
Proof.
  assert (H : forallb is_space (lit "  " ++ [nl; 9%N] ++ lit " ") = true)
    by (vm_compute; reflexivity).
  exact (conj H (cleanMessageContent_of_white_space _ H)).
Defined.

Lemma cleanMessageContent_of_plain_text_example :
  includes (lit "hello [world]") (lit "<") = false
  /\ includes (lit "hello [world]") recall_open = false
  /\ cleanMessageContent (lit "hello [world]") = lit "hello [world]".
Proof.
  assert (H1 : includes (lit "hello [world]") (lit "<") = false)
    by (vm_compute; reflexivity).
  assert (H2 : includes (lit "hello [world]") recall_open = false)
    by (vm_compute; reflexivity).
  assert (H3 : trim (lit "hello [world]") = lit "hello [world]")
    by (vm_compute; reflexivity).
  assert (H4 : collapse_blank_lines (lit "hello [world]")
               = lit "hello [world]") by (vm_compute; reflexivity).
  exact (conj H1
           (conj H2
              (proj2 (cleanMessageContent_of_plain_text _ H1 H2) H3 H4))).
Defined.

Lemma environment_details_are_removed_example :
  cleanMessageContent
    (lit "Hello" ++ [nl]
     ++ environment_details_open ++ ([nl] ++ lit "# Files" ++ [nl])
     ++ environment_details_close ++ ([nl] ++ lit "Bye"))
  = lit "Hello" ++ [nl] ++ lit "Bye".
Proof.
  assert (H1 : ~ In lt_sign (lit "Hello" ++ [nl]))
    by (apply includes_char_In; vm_compute; reflexivity).
  assert (H2 : ~ In lt_sign ([nl] ++ lit "# Files" ++ [nl]))
    by (apply includes_char_In; vm_compute; reflexivity).
  assert (E : cleanMessageContent
                ((lit "Hello" ++ [nl]) ++ skip_newline ([nl] ++ lit "Bye"))
              = lit "Hello" ++ [nl] ++ lit "Bye")
    by (vm_compute; reflexivity).
  rewrite <- E.
  rewrite <- (environment_details_are_removed (lit "Hello" ++ [nl])
                ([nl] ++ lit "# Files" ++ [nl]) ([nl] ++ lit "Bye") H1 H2).
  rewrite <- app_assoc. reflexivity.
Defined.

(** *** The client *)

Lemma empty_exchange_is_not_stored_example :
  cleanMessageContent (message_text Z (says user "<br/>  ")) = []
  /\ cleanMessageContent (message_text Z (says assistant "")) = []
  /\ storeExchangeInternal Z demo_JSON_parse demo_getServers demo_callTool
       (says user "<br/>  ") (says assistant "") demo_taskId demo_start
     = (Returns unit tt, probed Z demo_start).
Proof.
  assert (H1 : cleanMessageContent (message_text Z (says user "<br/>  "))
               = []) by (vm_compute; reflexivity).
  assert (H2 : cleanMessageContent (message_text Z (says assistant "")) = [])
    by (vm_compute; reflexivity).
  exact (conj H1
           (conj H2
              (proj1
                 (empty_exchange_is_not_stored Z demo_JSON_parse
                    demo_getServers demo_callTool (says user "<br/>  ")
                    (says assistant "") demo_taskId demo_start H1 H2)))).
Defined.

Lemma recalled_memories_come_from_the_service_example :
  fst (enrichWithContextInternal Z demo_JSON_parse demo_getServers
         demo_callTool (lit "Test query") [] demo_start)
  = Returns (list (RecalledMemoryItem Z)) [demo_item]
  /\ exists (first : ResponseBlock) (rest : list ResponseBlock)
            (resultPayload : ResultPayload Z),
       demo_callTool (List.length (calls Z demo_start))
         (enrich_call Z (lit "Test query") [])
       = CallResolves (Content (first :: rest))
       /\ rb_type first = lit "text"
       /\ demo_JSON_parse (rb_text first) = Some resultPayload
       /\ success Z resultPayload = true
       /\ recalled_memories Z resultPayload = Some [demo_item].
Proof.
  assert (H0 : [demo_item] <> []) by discriminate.
  assert (H1 : fst (enrichWithContextInternal Z demo_JSON_parse
                      demo_getServers demo_callTool (lit "Test query") []
                      demo_start)
               = Returns (list (RecalledMemoryItem Z)) [demo_item])
    by (vm_compute; reflexivity).
  exact (conj H1
           (proj2
              (proj1
                 (recalled_memories_come_from_the_service Z demo_JSON_parse
                    demo_getServers demo_callTool (lit "Test query") []
                    demo_start [demo_item] H0) H1))).
Defined.

(** *** The enrichment handler *)

(** A retried message: its content still holds the recall block of the
    first attempt, and nothing else that gives a query. *)
Definition stale_only : UserMessageEnrichmentPayload Z :=
  Build_UserMessageEnrichmentPayload Z demo_taskId
    [TextBlock (recall_block_text (lit "Memory 1 (Source: s, Score: N/A):"));
     ImageBlock (lit "fakeimgdata")] [] [].

Lemma empty_query_is_not_sent_example :
  enr_taskId Z stale_only = demo_taskId
  /\ userQuery_of (filter keeps_block (userContent Z stale_only)) = []
  /\ handleBeforeUserMessageEnrichment Z demo_toFixed4 demo_JSON_parse
       demo_getServers demo_callTool demo_taskId stale_only demo_start
     = (Build_UserMessageEnrichmentPayload Z demo_taskId
          [ImageBlock (lit "fakeimgdata")] [] [Fulfilled],
        demo_start).
Proof.
  assert (H1 : enr_taskId Z stale_only = demo_taskId) by reflexivity.
  assert (H2 : userQuery_of (filter keeps_block (userContent Z stale_only))
               = []) by (vm_compute; reflexivity).
  pose proof (empty_query_is_not_sent Z demo_JSON_parse demo_getServers
                demo_callTool demo_taskId (formatMemory Z demo_toFixed4)
                stale_only demo_start H1 H2) as H.
  exact (conj H1 (conj H2 H)).
Defined.

Lemma recall_blocks_do_not_stack_example :
  enr_taskId Z demo_enrichment = demo_taskId
  /\ filter keeps_block
       (userContent Z
          (fst (handleBeforeUserMessageEnrichment Z demo_toFixed4
                  demo_JSON_parse demo_getServers demo_callTool demo_taskId
                  demo_enrichment demo_start)))
     = three_blocks.
Proof.
  assert (H1 : enr_taskId Z demo_enrichment = demo_taskId) by reflexivity.
  pose proof (recall_blocks_do_not_stack Z demo_JSON_parse demo_getServers
                demo_callTool demo_taskId (formatMemory Z demo_toFixed4)
                demo_enrichment demo_start demo_start H1) as [_ [H _]].
  exact (conj H1 H).
Defined.

(** Run twice, the handler leaves one recall block, not two. *)
Example second_run_leaves_one_recall_block :
  userContent Z
    (fst (handleBeforeUserMessageEnrichment Z demo_toFixed4 demo_JSON_parse
            demo_getServers demo_callTool demo_taskId
            (fst (handleBeforeUserMessageEnrichment Z demo_toFixed4
                    demo_JSON_parse demo_getServers demo_callTool demo_taskId
                    demo_enrichment demo_start))
            demo_start))
  = memoryContextBlock Z (formatMemory Z demo_toFixed4) [demo_item]
    :: three_blocks.
Proof. vm_compute. reflexivity. Qed.

(** *** The synchronizer *)

(** A host that answers [get_last_chunk_index] and rejects every other
    call. *)
Definition store_failing_callTool (n : nat) (c : ToolCall Z) : CallOutcome :=
  if str_eqb (call_tool Z c) (lit "get_last_chunk_index")
  then CallResolves (Content [ {| rb_type := lit "text"; rb_text := lit "ok" |} ])
  else CallRejects.

(** A host that answers every call with an empty content array. *)
Definition empty_answer_callTool (n : nat) (c : ToolCall Z) : CallOutcome :=
  CallResolves (Content []).

Definition six_messages : list (Message Z) :=
  [says assistant "hello"; says user "q1"; says assistant "a1";
   says user "q2"; says user "q3"; says assistant "a3"].

Lemma cursor_is_decided_by_the_roles_example :
  scan_is_reached Z demo_JSON_parse demo_getServers store_failing_callTool
    demo_taskId demo_start = true
  /\ lastStoredMessageIndex Z
       (snd (syncHistory Z demo_JSON_parse demo_getServers
               store_failing_callTool demo_taskId six_messages demo_start))
     = 5%Z.
Proof.
  assert (H : scan_is_reached Z demo_JSON_parse demo_getServers
                store_failing_callTool demo_taskId demo_start = true)
    by (vm_compute; reflexivity).
  assert (E : scan_end Z
                (skipn (Z.to_nat (lastStoredMessageIndex Z demo_start + 1))
                   six_messages)
                (lastStoredMessageIndex Z demo_start + 1)
                (lastStoredMessageIndex Z demo_start) = 5%Z)
    by (vm_compute; reflexivity).
  exact (conj H
           (eq_trans
              (proj2
                 (cursor_is_decided_by_the_roles Z demo_JSON_parse
                    demo_getServers store_failing_callTool demo_taskId
                    six_messages demo_start H))
              E)).
Defined.

Lemma syncHistory_stops_before_the_scan_example :
  scan_is_reached Z demo_JSON_parse demo_getServers empty_answer_callTool
    demo_taskId demo_start = false
  /\ syncHistory Z demo_JSON_parse demo_getServers empty_answer_callTool
       demo_taskId six_messages demo_start
     = (Returns unit tt,
        called Z (last_chunk_index_call Z demo_taskId)
          (probed Z demo_start)).
Proof.
  assert (H : scan_is_reached Z demo_JSON_parse demo_getServers
                empty_answer_callTool demo_taskId demo_start = false)
    by (vm_compute; reflexivity).
  pose proof (syncHistory_stops_before_the_scan Z demo_JSON_parse
                demo_getServers empty_answer_callTool demo_taskId
                six_messages demo_start H) as [E _].
  exact (conj H E).
Defined.

(** With a host that answers, the pass over [six_messages] stores the two
    exchanges it finds. *)
Example syncHistory_stores_the_pairs :
  calls Z
    (snd (syncHistory Z demo_JSON_parse demo_getServers demo_callTool
            demo_taskId six_messages demo_start))
  = [last_chunk_index_call Z demo_taskId;
     tool_call Z (lit "store_exchange")
       (StoreExchangeMcpPayload Z (lit "q1") (lit "a1") demo_taskId None None);
     tool_call Z (lit "store_exchange")
       (StoreExchangeMcpPayload Z (lit "q3") (lit "a3") demo_taskId None None)].
Proof. vm_compute. reflexivity. Qed.

Lemma second_pass_stores_nothing_example :
  scan_is_reached Z demo_JSON_parse demo_getServers demo_callTool demo_taskId
    demo_start = true
  /\ syncHistory Z demo_JSON_parse demo_getServers demo_callTool demo_taskId
       six_messages
       (snd (syncHistory Z demo_JSON_parse demo_getServers demo_callTool
               demo_taskId six_messages demo_start))
     = (Returns unit tt,
        called Z (last_chunk_index_call Z demo_taskId)
          (probed Z
             (snd (syncHistory Z demo_JSON_parse demo_getServers
                     demo_callTool demo_taskId six_messages demo_start)))).
Proof.
  assert (H : scan_is_reached Z demo_JSON_parse demo_getServers demo_callTool
                demo_taskId demo_start = true) by (vm_compute; reflexivity).
  assert (Hc : (-1 <= lastStoredMessageIndex Z demo_start)%Z)
    by (vm_compute; discriminate).
  pose proof (second_pass_stores_nothing Z demo_JSON_parse demo_getServers
                demo_callTool demo_taskId six_messages demo_start
                (snd (syncHistory Z demo_JSON_parse demo_getServers
                        demo_callTool demo_taskId six_messages demo_start))
                H Hc eq_refl) as E.
  exact (conj H E).
Defined.

Lemma cursor_stays_inside_the_transcript_example :
  (lastStoredMessageIndex Z demo_start
   < lastStoredMessageIndex Z
       (snd (syncHistory Z demo_JSON_parse demo_getServers demo_callTool
               demo_taskId six_messages demo_start)))%Z
  /\ (lastStoredMessageIndex Z
        (snd (syncHistory Z demo_JSON_parse demo_getServers demo_callTool
                demo_taskId six_messages demo_start))
      < Z.of_nat (List.length six_messages))%Z.
Proof.
  assert (Hc : (-1 <= lastStoredMessageIndex Z demo_start)%Z)
    by (vm_compute; discriminate).
  destruct (cursor_stays_inside_the_transcript Z demo_JSON_parse
              demo_getServers demo_callTool demo_taskId six_messages
              demo_start Hc) as [E|E].
  - vm_compute in E. discriminate E.
  - exact E.
Defined.

(** *** The stored user text of the later revision *)

Definition wrapped_user_message : Message Z :=
  Build_Message Z user
    (StringContent
       (lit "Task: " ++ user_message_open ++ [nl] ++ lit "What is new?"
        ++ [nl] ++ user_message_close ++ [nl]
        ++ lit "<environment_details>files</environment_details>"))
    None.

Lemma user_message_section_is_stored_example :
  isAvailable_of (demo_getServers (probes Z demo_start)) = true
  /\ calls Z
       (snd (storeExchangeInternal_sync Z demo_JSON_parse demo_getServers
               demo_callTool wrapped_user_message (says assistant "Nothing.")
               demo_taskId demo_start))
     = [tool_call Z (lit "store_exchange")
          (StoreExchangeMcpPayload Z (lit "What is new?") (lit "Nothing.")
             demo_taskId None None)].
Proof.
  assert (H1 : ~ In lt_sign (lit "Task: "))
    by (apply includes_char_In; vm_compute; reflexivity).
  assert (H2 : ~ In lt_sign ([nl] ++ lit "What is new?" ++ [nl]))
    by (apply includes_char_In; vm_compute; reflexivity).
  assert (H3 : [nl] ++ lit "What is new?" ++ [nl] <> []) by discriminate.
  assert (H4 : message_text Z wrapped_user_message
               = lit "Task: " ++ user_message_open
                 ++ ([nl] ++ lit "What is new?" ++ [nl])
                 ++ user_message_close
                 ++ ([nl]
                     ++ lit "<environment_details>files</environment_details>"))
    by (vm_compute; reflexivity).
  assert (H5 : isAvailable_of (demo_getServers (probes Z demo_start)) = true)
    by reflexivity.
  assert (H6 : is_empty (trim ([nl] ++ lit "What is new?" ++ [nl]))
               && is_empty
                    (cleanMessageContent
                       (message_text Z (says assistant "Nothing.")))
               = false) by (vm_compute; reflexivity).
  pose proof (proj2 (proj2
                (user_message_section_is_stored Z demo_JSON_parse
                   demo_getServers demo_callTool _ _ _ wrapped_user_message
                   (says assistant "Nothing.") demo_taskId demo_start
                   H1 H2 H3 H4)) H5 H6) as E.
  vm_compute in E. vm_compute. exact (conj eq_refl E).
Defined.

(** A user text without the tag is stored with the recall block it holds. *)
Lemma user_text_without_section_is_stored_raw_example :
  includes
    (message_text Z (says user "[Recalled Memories] old [/Recalled Memories] q"))
    user_message_open = false
  /\ calls Z
       (snd (storeExchangeInternal_sync Z demo_JSON_parse demo_getServers
               demo_callTool
               (says user "[Recalled Memories] old [/Recalled Memories] q")
               (says assistant "a") demo_taskId demo_start))
     = [tool_call Z (lit "store_exchange")
          (StoreExchangeMcpPayload Z
             (lit "[Recalled Memories] old [/Recalled Memories] q")
             (lit "a") demo_taskId None None)].
Proof.
  assert (H1 : includes
                 (message_text Z
                    (says user "[Recalled Memories] old [/Recalled Memories] q"))
                 user_message_open = false) by (vm_compute; reflexivity).
  assert (H2 : message_text Z
                 (says user "[Recalled Memories] old [/Recalled Memories] q")
               <> []) by (vm_compute; discriminate).
  assert (H3 : isAvailable_of (demo_getServers (probes Z demo_start)) = true)
    by reflexivity.
  pose proof (proj2
                (user_text_without_section_is_stored_raw Z demo_JSON_parse
                   demo_getServers demo_callTool
                   (says user "[Recalled Memories] old [/Recalled Memories] q")
                   (says assistant "a") demo_taskId demo_start H1 H2 H3)) as E.
  vm_compute in E. vm_compute. exact (conj eq_refl E).
Defined.

(** *** The probe *)

Definition registry_with_duplicates : list McpServer :=
  [ {| srv_name := lit "filesystem"; srv_status := lit "connected" |} ]
  ++ {| srv_name := lit "semantic-memory"; srv_status := lit "connecting" |}
     :: [ {| srv_name := lit "semantic-memory";
             srv_status := lit "connected" |} ].

Lemma first_entry_decides_availability_example :
  isAvailable_of registry_with_duplicates = false.
Proof.
  assert (H1 : forall other,
            In other
              [ {| srv_name := lit "filesystem";
                   srv_status := lit "connected" |} ] ->
            srv_name other <> semanticMemoryServerName).
  { intros other [<-|[]]. vm_compute. discriminate. }
  exact (first_entry_decides_availability _
           {| srv_name := lit "semantic-memory";
              srv_status := lit "connecting" |}
           [ {| srv_name := lit "semantic-memory";
                srv_status := lit "connected" |} ] H1 eq_refl).
Defined.

(** *** The core identity *)

(** A host whose [get_core_identity] answers with an identity object; JSON
    objects are taken as their serialization. *)
Definition demo_JSON_parse_identity (text : jsstring)
    : option (IdentityPayload jsstring) :=
  if str_eqb text (lit "identity")
  then Some (Build_IdentityPayload jsstring true (Some (lit "{}")))
  else None.

Definition demo_callTool_identity (n : nat) : CallOutcome :=
  CallResolves
    (Content [ {| rb_type := lit "text"; rb_text := lit "identity" |} ]).

Definition demo_hub : HubState Z := Build_HubState Z demo_start 0.

Example identity_prompt_with_identity :
  fst (getCoreIdentityPrompt Z demo_getServers jsstring (fun o => o)
         demo_JSON_parse_identity demo_callTool_identity true demo_hub)
  = Returns jsstring (lit "{}" ++ [nl; nl]).
Proof. vm_compute. reflexivity. Qed.

Example identity_prompt_when_the_call_rejects :
  fst (getCoreIdentityPrompt Z demo_getServers jsstring (fun o => o)
         demo_JSON_parse_identity (fun _ => CallRejects) true demo_hub)
  = Returns jsstring (missing_identity_prompt)
  /\ fst (getCoreIdentity Z demo_getServers jsstring (fun o => o)
            demo_JSON_parse_identity (fun _ => CallRejects) demo_hub)
     = Returns (option jsstring) None.
Proof. vm_compute. split; reflexivity. Qed.

(* ===================================================================== *)
(** ** Runs with overlapping passes and with ill-shaped items             *)
(* ===================================================================== *)

(** *** C3 *)

Definition two_exchanges : list (Message Z) :=
  [says user "q1"; says assistant "a1"; says user "q2"; says assistant "a2"].

(** The pass the constructor starts and the pass the storage handler
    starts, both on the same transcript. *)
Definition two_passes : Passes Z :=
  [(two_exchanges, NotStarted Z); (two_exchanges, NotStarted Z)].

(** Both passes are started and resumed from their first [await] before
    either has stored anything, so both read the cursor -1.  The first pass
    then runs to its end and leaves the cursor at 3; the second one, resumed
    from its store of the first exchange, sets it back to 1. *)
Definition overlapping_schedule : list nat := [0; 1; 0; 1; 0; 0; 1; 1]%nat.

Lemma overlapping_passes_lower_the_cursor :
  cursors Z demo_JSON_parse demo_getServers demo_callTool demo_taskId
    overlapping_schedule two_passes demo_start
  = [-1; -1; -1; -1; 1; 3; 1; 3]%Z
  /\ map snd
       (fst (run Z demo_JSON_parse demo_getServers demo_callTool demo_taskId
               overlapping_schedule two_passes demo_start))
     = [Finished Z; Finished Z].
Proof. vm_compute. split; reflexivity. Qed.

(** The same two passes run in turn: the cursor only grows, and the second
    pass stores nothing. *)
Example passes_in_turn_raise_the_cursor :
  cursors Z demo_JSON_parse demo_getServers demo_callTool demo_taskId
    [0; 0; 0; 0; 1; 1]%nat two_passes demo_start
  = [-1; -1; 1; 3; 3; 3]%Z
  /\ map snd
       (fst (run Z demo_JSON_parse demo_getServers demo_callTool demo_taskId
               [0; 0; 0; 0; 1; 1]%nat two_passes demo_start))
     = [Finished Z; Finished Z].
Proof. vm_compute. split; reflexivity. Qed.

(** Overlapping passes also store an exchange twice. *)
Example overlapping_passes_store_twice :
  List.length
    (calls Z
       (snd (run Z demo_JSON_parse demo_getServers demo_callTool demo_taskId
               overlapping_schedule two_passes demo_start)))
  = 6%nat
  /\ List.length
       (calls Z
          (snd (run Z demo_JSON_parse demo_getServers demo_callTool
                  demo_taskId [0; 0; 0; 0; 1; 1]%nat two_passes demo_start)))
     = 4%nat.
Proof. vm_compute. split; reflexivity. Qed.

(** *** C10 *)

(** A service whose answer parses, with [null] as the one recalled item. *)
Definition null_item_parse (text : jsstring) : option (ParsedPayload Z) :=
  if str_eqb text (lit "memories")
  then Some (Build_ParsedPayload Z true (Some [ParsedNull Z]))
  else None.

(** A service whose one recalled item has its score as a string. *)
Definition text_score_parse (text : jsstring) : option (ParsedPayload Z) :=
  if str_eqb text (lit "memories")
  then Some
         (Build_ParsedPayload Z true
            (Some [ParsedObj Z
                     (Build_ParsedObject Z (lit "Recalled context")
                        (lit "mem1") 0%Z (ScoreText Z (lit "0.9")) None)]))
  else None.

(** The call resolves and its answer parses, yet the pushed promise rejects:
    the template throws on [null], outside any [try]. *)
Lemma null_item_rejects_the_promise :
  promises Z
    (fst (handleBeforeUserMessageEnrichment_unchecked Z demo_toFixed4
            demo_getServers demo_callTool demo_taskId null_item_parse
            demo_enrichment demo_start))
  = [Rejected]
  /\ promises Z
       (fst (handleBeforeUserMessageEnrichment_sync_unchecked Z demo_toFixed4
               demo_toString demo_one_minus 10000%Z demo_getServers
               demo_callTool demo_taskId null_item_parse demo_enrichment
               demo_start))
     = [Rejected].
Proof. vm_compute. split; reflexivity. Qed.

(** A score that is a string has no [toFixed]: the revision under
    src/integrations rejects, the later one, which does not read the score,
    does not. *)
Example text_score_rejects_the_promise :
  promises Z
    (fst (handleBeforeUserMessageEnrichment_unchecked Z demo_toFixed4
            demo_getServers demo_callTool demo_taskId text_score_parse
            demo_enrichment demo_start))
  = [Rejected]
  /\ promises Z
       (fst (handleBeforeUserMessageEnrichment_sync_unchecked Z demo_toFixed4
               demo_toString demo_one_minus 10000%Z demo_getServers
               demo_callTool demo_taskId text_score_parse demo_enrichment
               demo_start))
     = [Fulfilled].
Proof. vm_compute. split; reflexivity. Qed.

(** A rejected call and an answer that does not parse are caught. *)
Example failures_of_the_call_are_caught :
  promises Z
    (fst (handleBeforeUserMessageEnrichment_unchecked Z demo_toFixed4
            demo_getServers failing_callTool demo_taskId null_item_parse
            demo_enrichment demo_start))
  = [Fulfilled]
  /\ promises Z
       (fst (handleBeforeUserMessageEnrichment_unchecked Z demo_toFixed4
               demo_getServers demo_callTool demo_taskId (fun _ => None)
               demo_enrichment demo_start))
     = [Fulfilled].
Proof. vm_compute. split; reflexivity. Qed.
